(** * Puzld.ai: token budgeting, summarization, sessions and retrieval

    A shallow embedding of the context and memory layers of the repository
    ([src/context/tokens.ts], [src/context/summarizer.ts],
    [src/context/memory.ts], [src/memory/sessions.ts],
    [src/memory/vector-store.ts], [src/memory/retriever.ts]) and the proofs
    of the properties its specification states about them.

    Conventions.  A JavaScript string is the list of its code units; the
    alphabet is [ascii], which covers every character the code names.
    Lengths, indices and token counts are integers ([Z]).  Where the source
    multiplies by a fractional constant or divides, the operation is the
    IEEE 754 binary64 one of the language, taken from [PrimFloat]. *)

From Stdlib Require Import ZArith List Bool Lia Ascii String.
From Stdlib Require Import QArith Qround Qabs.
From Stdlib Require Import PrimFloat SpecFloat FloatOps.
From Stdlib Require Import DecimalNat DecimalString Sorted Permutation.
Import ListNotations.

#[local] Set Warnings "-inexact-float".
#[local] Open Scope Z_scope.

(** ** JavaScript primitives used by the sources *)

Module JS.

Definition str := list ascii.

Definition lit (s : string) : str := list_ascii_of_string s.

(** [s.length], for a string and for an array. *)
Definition len {A} (s : list A) : Z := Z.of_nat (List.length s).

Definition nl : ascii := "010"%char.

(** *** Numbers *)

(** The double that holds an integer (exact below 2^53). *)
Fixpoint pos_to_float (p : positive) : float :=
  match p with
  | xH => 1%float
  | xO q => (2 * pos_to_float q)%float
  | xI q => (2 * pos_to_float q + 1)%float
  end.

Definition num (z : Z) : float :=
  match z with
  | Z0 => 0%float
  | Zpos p => pos_to_float p
  | Zneg p => (- pos_to_float p)%float
  end.

(** An integral number or one of the three values that are not integers:
    what [Math.floor] returns. *)
Inductive integral :=
| Fin (z : Z)
| PosInf
| NegInf
| NotANumber.

Definition Math_floor (f : float) : integral :=
  match Prim2SF f with
  | S754_zero _ => Fin 0
  | S754_finite s m e =>
      let sm := if s then Zneg m else Zpos m in
      Fin (if 0 <=? e then Z.shiftl sm e else Z.shiftr sm (- e))
  | S754_infinity false => PosInf
  | S754_infinity true => NegInf
  | S754_nan => NotANumber
  end.

(** [Math.floor] of a finite number, as an integer. *)
Definition floorZ (f : float) : Z :=
  match Math_floor f with
  | Fin z => z
  | _ => 0
  end.

(** [Math.ceil(a / b)] for integers [a] and a positive integer [b]. *)
Definition ceilDiv (a b : Z) : Z := - ((- a) / b).

(** [String(n)] for an integer. *)
Definition String_of_Z (z : Z) : str :=
  lit (NilEmpty.string_of_int (Z.to_int z)).

Definition String_of_nat (n : nat) : str :=
  lit (NilEmpty.string_of_uint (Nat.to_uint n)).

(** *** Slices *)

(** A relative index of [slice] resolved against the length [n]. *)
Definition clampIndex (n i : Z) : Z :=
  if i <? 0 then Z.max 0 (n + i) else Z.min i n.

(** [s.slice(b, e)], for a string and for an array. *)
Definition slice {A} (s : list A) (b e : Z) : list A :=
  let from := clampIndex (len s) b in
  let to := clampIndex (len s) e in
  firstn (Z.to_nat (to - from)) (skipn (Z.to_nat from) s).

(** [s.slice(b)]. *)
Definition sliceFrom {A} (s : list A) (b : Z) : list A :=
  skipn (Z.to_nat (clampIndex (len s) b)) s.

(** [s.slice(0, e)] where [e] is the result of [Math.floor]: a NaN counts
    as 0 and the infinities are clamped like any other index. *)
Definition sliceTo (s : str) (e : integral) : str :=
  match e with
  | Fin z => slice s 0 z
  | PosInf => s
  | NegInf => []
  | NotANumber => []
  end.

(** *** Searching *)

Fixpoint prefixb (p s : str) : bool :=
  match p, s with
  | [], _ => true
  | _ :: _, [] => false
  | a :: p', b :: s' => Ascii.eqb a b && prefixb p' s'
  end.

(** [s.indexOf(p)], [None] for -1. *)
Fixpoint indexOf (p s : str) : option nat :=
  if prefixb p s then Some 0%nat
  else match s with
       | [] => None
       | _ :: t => option_map S (indexOf p t)
       end.

Definition includes (s p : str) : bool :=
  match indexOf p s with Some _ => true | None => false end.

(** The scan behind [lastIndexOf]: [s] is the suffix that starts at index
    [i]; the last index not above [bound] at which [p] occurs wins. *)
Fixpoint lastIndexOf_scan (p s : str) (i bound acc : Z) : Z :=
  let acc' := if (i <=? bound) && prefixb p s then i else acc in
  match s with
  | [] => acc'
  | _ :: t => lastIndexOf_scan p t (i + 1) bound acc'
  end.

(** [s.lastIndexOf(p)]. *)
Definition lastIndexOf (s p : str) : Z :=
  lastIndexOf_scan p s 0 (len s) (-1).

(** [s.lastIndexOf(p, pos)]. *)
Definition lastIndexOfFrom (s p : str) (pos : Z) : Z :=
  lastIndexOf_scan p s 0 (Z.max pos 0) (-1).

(** *** Trimming *)

(** White space and line terminators within the alphabet. *)
Definition isWhiteSpace (c : ascii) : bool :=
  let n := nat_of_ascii c in
  ((9 <=? n) && (n <=? 13) || (n =? 32) || (n =? 160))%nat.

Fixpoint trimStart (s : str) : str :=
  match s with
  | [] => []
  | c :: t => if isWhiteSpace c then trimStart t else s
  end.

Definition trimEnd (s : str) : str := rev (trimStart (rev s)).

Definition trim (s : str) : str := trimEnd (trimStart s).

(** *** Replacement *)

(** The replacement text of [s.replace(pattern, r)] for a string [r]:
    [$$], [$&], [$`] and [$'] are substitution patterns, every other
    character (a [$] before a digit too, there being no capture) stands
    for itself. *)
Fixpoint getSubstitution (matched before after r : str) : str :=
  match r with
  | [] => []
  | c :: t =>
      if Ascii.eqb c "$" then
        match t with
        | d :: u =>
            if Ascii.eqb d "$" then "$"%char :: getSubstitution matched before after u
            else if Ascii.eqb d "&" then matched ++ getSubstitution matched before after u
            else if Ascii.eqb d "`" then before ++ getSubstitution matched before after u
            else if Ascii.eqb d "'" then after ++ getSubstitution matched before after u
            else c :: getSubstitution matched before after t
        | [] => [c]
        end
      else c :: getSubstitution matched before after t
  end.

(** [s.replace(p, r)] for two strings: the first occurrence only. *)
Definition replace (s p r : str) : str :=
  match indexOf p s with
  | None => s
  | Some n =>
      let before := firstn n s in
      let after := skipn (n + List.length p) s in
      before ++ getSubstitution p before after r ++ after
  end.

(** [s.replace(/[...]/g, r)] for a character class and a one-character
    replacement. *)
Definition replaceClass (cls : ascii -> bool) (r : ascii) (s : str) : str :=
  map (fun c => if cls c then r else c) s.

(** [a.join(sep)]. *)
Fixpoint join (sep : str) (a : list str) : str :=
  match a with
  | [] => []
  | [x] => x
  | x :: rest => x ++ sep ++ join sep rest
  end.

(** What a call that may throw gives back. *)
Inductive outcome (A : Type) :=
| Returned (a : A)
| Thrown.

Arguments Returned {A} a.
Arguments Thrown {A}.

End JS.

Import JS.

(** ** [src/context/tokens.ts] *)

Module Tokens.

Record TokenConfig := {
  maxTokens : Z;
  reserveTokens : Z;
  chunkSize : Z
}.

Inductive adapter := claude | gemini | codex | ollama.

Definition limits (a : adapter) : TokenConfig :=
  match a with
  | claude => {| maxTokens := 100000; reserveTokens := 4000; chunkSize := 8000 |}
  | gemini => {| maxTokens := 128000; reserveTokens := 4000; chunkSize := 8000 |}
  | codex => {| maxTokens := 32000; reserveTokens := 2000; chunkSize := 4000 |}
  | ollama => {| maxTokens := 8000; reserveTokens := 1000; chunkSize := 2000 |}
  end.

(** The keys of [ADAPTER_LIMITS]: its own four properties.  The names an
    object literal inherits from [Object.prototype] are not adapters and
    are left out: for them the index finds an inherited member that is no
    configuration, and what is stated of every agent name below is stated
    of the names that are not inherited ([inheritedName]). *)
Definition adapterOfName (agent : string) : option adapter :=
  if String.eqb agent "claude" then Some claude
  else if String.eqb agent "gemini" then Some gemini
  else if String.eqb agent "codex" then Some codex
  else if String.eqb agent "ollama" then Some ollama
  else None.

Definition ADAPTER_LIMITS (agent : string) : option TokenConfig :=
  option_map limits (adapterOfName agent).

Definition CHARS_PER_TOKEN : Z := 4.

Definition estimateTokens (text : str) : Z :=
  match text with
  | [] => 0
  | _ => ceilDiv (len text) CHARS_PER_TOKEN
  end.

Definition getTokenConfig (agent : string) : TokenConfig :=
  match ADAPTER_LIMITS agent with
  | Some c => c
  | None => limits ollama
  end.

Definition getAvailableTokens (agent : string) (usedTokens : Z) : Z :=
  let config := getTokenConfig agent in
  maxTokens config - reserveTokens config - usedTokens.

Definition fitsInContext (text : str) (agent : string) (usedTokens : Z) : bool :=
  estimateTokens text <=? getAvailableTokens agent usedTokens.

(** [i > m * c] for an integer index [i], an integer [m] and a constant. *)
Definition exceedsShare (i m : Z) (c : float) : bool :=
  (num m * c <? num i)%float.

Definition truncationMarker : str := nl :: nl :: lit "[...truncated]".

Definition truncateForAgent (text : str) (agent : string) (usedTokens : Z) : str :=
  let available := getAvailableTokens agent usedTokens in
  let maxChars := available * CHARS_PER_TOKEN in
  if len text <=? maxChars then text
  else
    let truncated := slice text 0 maxChars in
    let lastParagraph := lastIndexOf truncated [nl; nl] in
    let truncated :=
      if exceedsShare lastParagraph maxChars 0.7 then
        slice truncated 0 lastParagraph
      else
        let lastSentence := lastIndexOf truncated (lit ". ") in
        if exceedsShare lastSentence maxChars 0.8 then
          slice truncated 0 (lastSentence + 1)
        else truncated in
    truncated ++ truncationMarker.

(** One turn of the [while] loop of [splitIntoChunks] on a remainder longer
    than a chunk: the piece pushed and the new remainder. *)
Definition splitStep (chunkChars : Z) (remaining : str) : str * str :=
  let paragraphBreak := lastIndexOfFrom remaining [nl; nl] chunkChars in
  let breakPoint :=
    if exceedsShare paragraphBreak chunkChars 0.5 then paragraphBreak + 2
    else
      let sentenceBreak := lastIndexOfFrom remaining (lit ". ") chunkChars in
      if exceedsShare sentenceBreak chunkChars 0.5 then sentenceBreak + 2
      else chunkChars in
  (trim (slice remaining 0 breakPoint), trim (sliceFrom remaining breakPoint)).

(** The loop, with a bound on the number of turns: [None] when the bound
    is reached before the loop exits. *)
Fixpoint splitLoop (fuel : nat) (chunkChars : Z) (remaining : str) : option (list str) :=
  match fuel with
  | O => None
  | S fuel' =>
      if len remaining >? 0 then
        if len remaining <=? chunkChars then Some [remaining]
        else
          let (piece, rest) := splitStep chunkChars remaining in
          option_map (cons piece) (splitLoop fuel' chunkChars rest)
      else Some []
  end.

Definition splitIntoChunks_fuel (fuel : nat) (text : str) (agent : string) : option (list str) :=
  let config := getTokenConfig agent in
  let chunkChars := chunkSize config * CHARS_PER_TOKEN in
  if len text <=? chunkChars then Some [text]
  else splitLoop fuel chunkChars text.

(** The loop shortens the remainder at every turn (see
    [splitLoop_terminates]), so one turn per character and one more are
    enough. *)
Definition splitIntoChunks (text : str) (agent : string) : option (list str) :=
  splitIntoChunks_fuel (S (List.length text)) text agent.

End Tokens.

(** ** [src/context/summarizer.ts] *)

Module Summarizer.

Import Tokens.

(** [format] is declared by the source and never read. *)
Record SummaryOptions := {
  maxLength : option Z;
  preserveCode : option bool
}.

Record SummaryResult := {
  summary : str;
  originalTokens : Z;
  summaryTokens : Z;
  compressionRatio : float
}.

Definition DEFAULT_MAX_LENGTH : Z := 500.

Definition SUMMARIZE_PROMPT : str :=
  join [nl]
    [ lit "Summarize this content concisely. Preserve:";
      lit "- Key decisions and conclusions";
      lit "- Code snippets (if relevant)";
      lit "- Action items";
      lit "- Error messages";
      [];
      lit "Keep it under {{maxLength}} words.";
      [];
      lit "Content:";
      lit "{{content}}" ].

Definition fence : str := lit "```".

Definition placeholder (i : nat) : str :=
  lit "[CODE_BLOCK_" ++ String_of_nat i ++ lit "]".

(** The length of the match of [/```[\s\S]*?```/] that starts at the head
    of [s], if there is one: an opening fence and the nearest closing
    fence after it. *)
Definition fencedAt (s : str) : option nat :=
  if prefixb fence s then
    option_map (fun k => (k + 6)%nat) (indexOf fence (skipn 3 s))
  else None.

(** The global replacement of [extractCodeBlocks], one character at a
    time: [skip] counts the characters of the current match still to be
    consumed, [count] is [code.length]. *)
Fixpoint extractScan (s : str) (skip count : nat) : list str * str :=
  match s with
  | [] => ([], [])
  | c :: t =>
      match skip with
      | S k => extractScan t k count
      | O =>
          match fencedAt s with
          | Some n =>
              let (code, out) := extractScan t (n - 1) (S count) in
              (firstn n s :: code, placeholder count ++ out)
          | None =>
              let (code, out) := extractScan t 0%nat count in
              (code, c :: out)
          end
      end
  end.

(** The pair [(code, textWithoutCode)]. *)
Definition extractCodeBlocks (text : str) : list str * str :=
  extractScan text 0%nat 0%nat.

(** The [forEach] of [restoreCodeBlocks], from index [i] on. *)
Fixpoint restoreFrom (i : nat) (code : list str) (result : str) : str :=
  match code with
  | [] => result
  | block :: rest => restoreFrom (S i) rest (replace result (placeholder i) block)
  end.

Definition restoreCodeBlocks (summary : str) (code : list str) : str :=
  restoreFrom 0%nat code summary.

(** [options.maxLength || DEFAULT_MAX_LENGTH]. *)
Definition effectiveMaxLength (options : SummaryOptions) : Z :=
  match maxLength options with
  | None => DEFAULT_MAX_LENGTH
  | Some m => if m =? 0 then DEFAULT_MAX_LENGTH else m
  end.

(** [options.preserveCode ?? true]. *)
Definition effectivePreserveCode (options : SummaryOptions) : bool :=
  match preserveCode options with
  | None => true
  | Some b => b
  end.

Definition failureTag : str := nl :: nl :: lit "[...summarization failed, truncated]".

(** What goes to the service: the code blocks and the text sent. *)
Definition prepare (text : str) (options : SummaryOptions) : list str * str :=
  if effectivePreserveCode options then extractCodeBlocks text else ([], text).

Definition promptFor (text : str) (options : SummaryOptions) : str :=
  replace
    (replace SUMMARIZE_PROMPT (lit "{{maxLength}}") (String_of_Z (effectiveMaxLength options)))
    (lit "{{content}}") (snd (prepare text options)).

(** [summarize].  [generate] is the summarization service: the text of
    its response to a prompt, or a failure of any kind (unreachable,
    error, timeout), which the [catch] of the source absorbs. *)
Definition summarize (generate : str -> outcome str) (text : str)
    (options : SummaryOptions) : SummaryResult :=
  let maxLength := effectiveMaxLength options in
  let preserveCode := effectivePreserveCode options in
  let originalTokens := estimateTokens text in
  if originalTokens <=? maxLength then
    {| summary := text;
       originalTokens := originalTokens;
       summaryTokens := originalTokens;
       compressionRatio := 1 |}
  else
    let codeBlocks := fst (prepare text options) in
    match generate (promptFor text options) with
    | Returned response =>
        let summary := trim response in
        let summary :=
          if preserveCode && (0 <? len codeBlocks) then
            restoreCodeBlocks summary codeBlocks
          else summary in
        let summaryTokens := estimateTokens summary in
        {| summary := summary;
           originalTokens := originalTokens;
           summaryTokens := summaryTokens;
           compressionRatio := (num originalTokens / num summaryTokens)%float |}
    | Thrown =>
        let truncated := slice text 0 (maxLength * 4) ++ failureTag in
        {| summary := truncated;
           originalTokens := originalTokens;
           summaryTokens := estimateTokens truncated;
           compressionRatio := 1 |}
    end.

(** [summarizeIfNeeded], with the default (empty) options of its callers
    in this development. *)
Definition summarizeIfNeeded (generate : str -> outcome str) (text : str)
    (tokenLimit : Z) : str :=
  if estimateTokens text <=? tokenLimit then text
  else
    summary
      (summarize generate text
         {| maxLength := Some (floorZ (num tokenLimit * 0.8));
            preserveCode := None |}).

End Summarizer.

(** ** [src/context/memory.ts] *)

Module PipelineMemory.

Import Tokens.

Record StepOutput := {
  raw : str;
  summary : str;
  tokens : Z;
  summaryTokens : Z;
  keyPoints : list str;
  timestamp : Z
}.

(** The fields of a step result that the memory layer reads. *)
Record StepResult := {
  stepId : string;
  content : option str
}.

(** An object used as a map from step ids: the entries are its own
    properties (the members every object inherits, [inheritedName], are
    no entries). *)
Definition dict (A : Type) := list (string * A).

Fixpoint lookup {A} (d : dict A) (k : string) : option A :=
  match d with
  | [] => None
  | (k', v) :: rest => if String.eqb k k' then Some v else lookup rest k
  end.

Record MemoryContext := {
  steps : dict StepResult;
  memory : dict StepOutput
}.

(** ['- ' + keyPoints.join('\n- ')], or the empty string. *)
Definition keyPointsString (mem : StepOutput) : str :=
  if 0 <? len (keyPoints mem) then
    lit "- " ++ join (nl :: lit "- ") (keyPoints mem)
  else [].

(** [keyPointsTokens > 0 && tokenBudget < mem.summaryTokens * 0.5 &&
    keyPointsTokens <= tokenBudget]. *)
Definition keyPointsChosen (mem : StepOutput) (tokenBudget : Z) : bool :=
  let keyPointsTokens := estimateTokens (keyPointsString mem) in
  (0 <? keyPointsTokens)
  && (num tokenBudget <? num (summaryTokens mem) * 0.5)%float
  && (keyPointsTokens <=? tokenBudget).

(** [Math.floor(mem.summary.length * ratio * 0.9)]. *)
Definition targetChars (mem : StepOutput) (tokenBudget : Z) : integral :=
  let ratio := (num tokenBudget / num (summaryTokens mem))%float in
  Math_floor (num (len (summary mem)) * ratio * 0.9)%float.

Definition getStepOutputForBudget (ctx : MemoryContext) (stepId : string)
    (tokenBudget : Z) : str :=
  match lookup (memory ctx) stepId with
  | None =>
      match lookup (steps ctx) stepId with
      | Some step => match content step with Some c => c | None => [] end
      | None => []
      end
  | Some mem =>
      if keyPointsChosen mem tokenBudget then keyPointsString mem
      else if summaryTokens mem <=? tokenBudget then summary mem
      else sliceTo (summary mem) (targetChars mem tokenBudget) ++ truncationMarker
  end.

End PipelineMemory.

(** ** [src/memory/sessions.ts] *)

Module Sessions.

Import Tokens.

Inductive role := user | assistant | system.

Definition roleName (r : role) : str :=
  match r with
  | user => lit "user"
  | assistant => lit "assistant"
  | system => lit "system"
  end.

Record Message := {
  msgRole : role;
  content : str;
  tokens : Z;
  timestamp : Z
}.

Record AgentSession := {
  id : string;
  agent : string;
  messages : list Message;
  summary : str;
  summaryTokens : Z;
  totalTokens : Z;
  messageCount : Z;
  createdAt : Z;
  updatedAt : Z
}.

(** [SessionConfig]: every field may be left out. *)
Record SessionConfig := {
  maxTokens : option Z;
  keepRecentMessages : option Z;
  autoSave : option bool
}.

(** [Required<SessionConfig>]. *)
Record Config := {
  cfgMaxTokens : Z;
  cfgKeepRecentMessages : Z;
  cfgAutoSave : bool
}.

Definition DEFAULT_CONFIG : Config :=
  {| cfgMaxTokens := 8000; cfgKeepRecentMessages := 10; cfgAutoSave := true |}.

(** [{ ...DEFAULT_CONFIG, ...config }]. *)
Definition withDefaults (config : SessionConfig) : Config :=
  {| cfgMaxTokens :=
       match maxTokens config with Some v => v | None => cfgMaxTokens DEFAULT_CONFIG end;
     cfgKeepRecentMessages :=
       match keepRecentMessages config with
       | Some v => v
       | None => cfgKeepRecentMessages DEFAULT_CONFIG
       end;
     cfgAutoSave :=
       match autoSave config with Some v => v | None => cfgAutoSave DEFAULT_CONFIG end |}.

(** What a call observes of the outside: whether the summarizer answers
    the reachability probe, the summarization service, and the clock. *)
Record Env := {
  summarizerAvailable : bool;
  generate : str -> outcome str;
  now : Z
}.

(** The session files, by session id.  The file of a session is
    [id + '.json'] in the sessions directory: ids that are plain file
    names ([SessionViews.plainId]) have a file each. *)
Definition Disk := list (string * AgentSession).

Definition saveSession (disk : Disk) (session : AgentSession) : Disk :=
  (id session, session)
    :: filter (fun e => negb (String.eqb (fst e) (id session))) disk.

Definition sumTokens (ms : list Message) : Z :=
  fold_left (fun sum m => sum + tokens m) ms 0.

(** [`${m.role}: ${m.content}`]. *)
Definition renderMessage (m : Message) : str :=
  roleName (msgRole m) ++ lit ": " ++ content m.

(** The text folded into the summary. *)
Definition foldInput (session : AgentSession) (oldMessages : list Message) : str :=
  let oldText := join [nl; nl] (map renderMessage oldMessages) in
  match summary session with
  | [] => oldText
  | _ =>
      lit "Previous summary:" ++ [nl] ++ summary session ++ [nl; nl]
        ++ lit "New messages:" ++ [nl] ++ oldText
  end.

(** [compressSession].  [summarizeIfNeeded] absorbs the failures of the
    service itself, so the [catch] of the source has no case of its own
    here; its fallback is the same truncation as the branch taken when the
    summarizer is not available. *)
Definition compressSession (env : Env) (session : AgentSession) (config : Config)
    : AgentSession :=
  let splitIndex := Z.max 0 (len (messages session) - cfgKeepRecentMessages config) in
  let oldMessages := slice (messages session) 0 splitIndex in
  let recentMessages := sliceFrom (messages session) splitIndex in
  if len oldMessages =? 0 then session
  else
    let textToSummarize := foldInput session oldMessages in
    let recentTokens := sumTokens recentMessages in
    let targetSummaryTokens := floorZ (num (cfgMaxTokens config - recentTokens) * 0.3) in
    let newSummary :=
      if summarizerAvailable env then
        Summarizer.summarizeIfNeeded (generate env) textToSummarize targetSummaryTokens
      else slice textToSummarize 0 (targetSummaryTokens * 4) in
    let summaryTokens := estimateTokens newSummary in
    let newTotalTokens := summaryTokens + recentTokens in
    {| id := id session;
       agent := agent session;
       messages := recentMessages;
       summary := newSummary;
       summaryTokens := summaryTokens;
       totalTokens := newTotalTokens;
       messageCount := messageCount session;
       createdAt := createdAt session;
       updatedAt := now env |}.

(** [addMessage]: the session returned and the session files after it. *)
Definition addMessage (env : Env) (disk : Disk) (session : AgentSession)
    (r : role) (text : str) (config : SessionConfig) : AgentSession * Disk :=
  let cfg := withDefaults config in
  let tokens := estimateTokens text in
  let message :=
    {| msgRole := r; content := text; tokens := tokens; timestamp := now env |} in
  let messages := messages session ++ [message] in
  let totalTokens := totalTokens session + tokens in
  let updatedSession :=
    {| id := id session;
       agent := agent session;
       messages := messages;
       summary := summary session;
       summaryTokens := summaryTokens session;
       totalTokens := totalTokens;
       messageCount := messageCount session + 1;
       createdAt := createdAt session;
       updatedAt := now env |} in
  let updatedSession :=
    if totalTokens >? cfgMaxTokens cfg then compressSession env updatedSession cfg
    else updatedSession in
  (updatedSession, if cfgAutoSave cfg then saveSession disk updatedSession else disk).

(** The session of [createSession], for the id the generator drew. *)
Definition newSession (sessionId agentName : string) (time : Z) : AgentSession :=
  {| id := sessionId;
     agent := agentName;
     messages := [];
     summary := [];
     summaryTokens := 0;
     totalTokens := 0;
     messageCount := 0;
     createdAt := time;
     updatedAt := time |}.

(** A session whose counter is not behind its list of messages. *)
Definition counted (session : AgentSession) : Prop :=
  len (messages session) <= messageCount session.

End Sessions.

(** ** [src/memory/embeddings.ts] and [src/memory/vector-store.ts] *)

Module VectorStore.

Inductive EmbeddingProvider := ProviderOllama | ProviderFts5.

Inductive MemoryType := conversation | code | decision | pattern | context.

Definition MemoryType_eqb (a b : MemoryType) : bool :=
  match a, b with
  | conversation, conversation | code, code | decision, decision
  | pattern, pattern | context, context => true
  | _, _ => false
  end.

(** [embedding] is never set on an item that a search returns. *)
Record MemoryItem := {
  id : option Z;
  type : MemoryType;
  content : str;
  metadata : option str;
  createdAt : option Z;
  updatedAt : option Z
}.

(** A score is the rational that the (finite) number denotes. *)
Record SearchResult := {
  item : MemoryItem;
  score : Q
}.

Definition vector := list Q.

(** A row of the [memory] table, with the rank [bm25] gave it when it
    comes from the full-text query. *)
Record Row := {
  rowId : Z;
  rowType : MemoryType;
  rowContent : str;
  rowMetadata : option str;
  rowCreatedAt : Z;
  rowUpdatedAt : Z;
  rowScore : Q
}.

(** A row of the vector table. *)
Record LanceRow := {
  lanceContent : str;
  lanceType : MemoryType;
  lanceDistance : Q
}.

(** The module state of the store: [initialized], and whether [lanceDb]
    and [lanceTable] hold a handle or [null]. *)
Record Store := {
  initialized : bool;
  lanceDb : bool;
  lanceTable : bool
}.

(** What the store observes of the outside.  [currentProvider] and
    [detectedModel] are the module state of [embeddings.ts], which nothing
    here writes. *)
Record World := {
  currentProvider : EmbeddingProvider;
  detectedModel : bool;
  lanceConnect : outcome unit;
  lanceOpenTable : outcome unit;
  ollamaEmbed : str -> outcome vector;
  lanceSearch : vector -> Z -> outcome (list LanceRow);
  ftsQuery : str -> option MemoryType -> Z -> outcome (list Row);
  recentQuery : option MemoryType -> Z -> list Row
}.

Definition getProvider (w : World) : EmbeddingProvider := currentProvider w.

Definition isOllama (p : EmbeddingProvider) : bool :=
  match p with ProviderOllama => true | ProviderFts5 => false end.

(** [embed]: [None] for [null]. *)
Definition embed (w : World) (text : str) : option vector :=
  if negb (isOllama (currentProvider w)) || negb (detectedModel w) then None
  else match ollamaEmbed w text with
       | Returned v => Some v
       | Thrown => None
       end.

(** Computations on the module state of the store. *)
Definition M (A : Type) := Store -> A * Store.

Definition ret {A} (a : A) : M A := fun s => (a, s).

Definition bind {A B} (m : M A) (k : A -> M B) : M B :=
  fun s => let (a, s') := m s in k a s'.

Notation "x <- m ;; k" := (bind m (fun x => k))
  (at level 61, m at next level, right associativity).

Definition initLanceDB (w : World) : M unit :=
  fun s =>
    match lanceConnect w with
    | Returned _ =>
        let table :=
          match lanceOpenTable w with Returned _ => true | Thrown => false end in
        (tt, {| initialized := initialized s; lanceDb := true; lanceTable := table |})
    | Thrown =>
        (tt, {| initialized := initialized s; lanceDb := false; lanceTable := false |})
    end.

Definition initVectorStore (w : World) : M unit :=
  fun s =>
    if initialized s then (tt, s)
    else
      let (_, s1) :=
        if isOllama (getProvider w) then initLanceDB w s else (tt, s) in
      (tt, {| initialized := true; lanceDb := lanceDb s1; lanceTable := lanceTable s1 |}).

(** [options.limit || 10]. *)
Definition limitOr10 (limit : option Z) : Z :=
  match limit with
  | None => 10
  | Some l => if l =? 0 then 10 else l
  end.

(** The characters the full-text query gives a meaning to: both quotes,
    the star, the parentheses and the caret. *)
Definition ftsSpecial (c : ascii) : bool :=
  let n := nat_of_ascii c in
  ((n =? 39) || (n =? 34) || (n =? 42) || (n =? 40) || (n =? 41) || (n =? 94))%nat.

Definition itemOfRow (r : Row) : MemoryItem :=
  {| id := Some (rowId r);
     type := rowType r;
     content := rowContent r;
     metadata := rowMetadata r;
     createdAt := Some (rowCreatedAt r);
     updatedAt := Some (rowUpdatedAt r) |}.

Definition searchFTS (w : World) (query : str) (ty : option MemoryType)
    (limit : option Z) : list SearchResult :=
  let limit := limitOr10 limit in
  let escapedQuery := trim (replaceClass ftsSpecial " "%char query) in
  match escapedQuery with
  | [] => []
  | _ =>
      match ftsQuery w escapedQuery ty limit with
      | Returned rows =>
          map (fun row => {| item := itemOfRow row; score := Qabs (rowScore row) |}) rows
      | Thrown => []
      end
  end.

Definition searchVector (w : World) (query : str) (ty : option MemoryType)
    (limit : option Z) : M (list SearchResult) :=
  fun s =>
    if negb (lanceTable s) || negb (isOllama (getProvider w)) then
      (searchFTS w query ty limit, s)
    else
      match embed w query with
      | None => (searchFTS w query ty limit, s)
      | Some queryEmbedding =>
          match lanceSearch w queryEmbedding (limitOr10 limit) with
          | Returned results =>
              let filtered :=
                match ty with
                | Some t => filter (fun r => MemoryType_eqb (lanceType r) t) results
                | None => results
                end in
              (map (fun r =>
                      {| item := {| id := None;
                                    type := lanceType r;
                                    content := lanceContent r;
                                    metadata := None;
                                    createdAt := None;
                                    updatedAt := None |};
                         score := 1 - lanceDistance r |}) filtered, s)
          | Thrown => (searchFTS w query ty limit, s)
          end
      end.

Definition search (w : World) (query : str) (ty : option MemoryType)
    (limit : option Z) : M (list SearchResult) :=
  _ <- initVectorStore w ;;
  fun s =>
    if lanceTable s && isOllama (getProvider w) then searchVector w query ty limit s
    else (searchFTS w query ty limit, s).

Definition getRecent (w : World) (ty : option MemoryType) (limit : option Z)
    : list MemoryItem :=
  map itemOfRow (recentQuery w ty (limitOr10 limit)).

End VectorStore.

(** ** [src/memory/retriever.ts] *)

Module Retriever.

Import VectorStore.

Inductive SearchMethod := vector | fts5 | recency.

Record RetrievalOptions := {
  limit : option Z;
  types : option (list MemoryType);
  includeRecent : option bool;
  minScore : option Q;
  maxTokens : option Z
}.

Record RetrievalResult := {
  items : list MemoryItem;
  totalTokens : Z;
  searchMethod : SearchMethod
}.

(** The estimator local to the retriever. *)
Definition estimateTokens (text : str) : Z := ceilDiv (len text) 4.

Definition optLimit (o : RetrievalOptions) : Z :=
  match limit o with Some v => v | None => 10 end.

Definition optIncludeRecent (o : RetrievalOptions) : bool :=
  match includeRecent o with Some v => v | None => true end.

Definition optMinScore (o : RetrievalOptions) : Q :=
  match minScore o with Some v => v | None => 1 # 10 end.

Definition optMaxTokens (o : RetrievalOptions) : Z :=
  match maxTokens o with Some v => v | None => 4000 end.

(** [types] when it is given and not empty. *)
Definition optTypes (o : RetrievalOptions) : list MemoryType :=
  match types o with Some ts => ts | None => [] end.

(** The searches, one per type or one over all types. *)
Fixpoint searchTypes (w : World) (query : str) (ts : list MemoryType)
    (perType : Z) : M (list SearchResult) :=
  match ts with
  | [] => ret []
  | t :: rest =>
      typeResults <- search w query (Some t) (Some perType) ;;
      more <- searchTypes w query rest perType ;;
      ret (typeResults ++ more)
  end.

Definition searchAll (w : World) (query : str) (o : RetrievalOptions)
    : M (list SearchResult) :=
  match optTypes o with
  | [] => search w query None (Some (optLimit o))
  | ts => searchTypes w query ts (ceilDiv (optLimit o) (len ts))
  end.

(** [sort((a, b) => b.score - a.score)]: a stable sort by falling score. *)
Fixpoint insertByScore (x : SearchResult) (sorted : list SearchResult)
    : list SearchResult :=
  match sorted with
  | [] => [x]
  | y :: rest =>
      if Qle_bool (score y) (score x) then x :: sorted
      else y :: insertByScore x rest
  end.

Definition sortByScore (l : list SearchResult) : list SearchResult :=
  fold_right insertByScore [] l.

(** The matches kept, in rank order. *)
Definition ranked (o : RetrievalOptions) (results : list SearchResult)
    : list SearchResult :=
  sortByScore (filter (fun r => Qle_bool (optMinScore o) (score r)) results).

Definition option_Z_eqb (a b : option Z) : bool :=
  match a, b with
  | Some x, Some y => x =? y
  | None, None => true
  | _, _ => false
  end.

(** The recent items appended when the matches leave room. *)
Definition backfill (w : World) (o : RetrievalOptions) (filtered : list SearchResult)
    : list SearchResult :=
  if optIncludeRecent o && (len filtered <? optLimit o) then
    let recentType :=
      match optTypes o with
      | [] => None
      | t :: _ => Some t
      end in
    let recentItems := getRecent w recentType (Some (optLimit o - len filtered)) in
    let existingIds := map (fun r => id (item r)) filtered in
    map (fun it => {| item := it; score := 1 # 20 |})
      (filter (fun it => negb (existsb (option_Z_eqb (id it)) existingIds)) recentItems)
  else [].

(** [filtered] as the packing loop receives it. *)
Definition candidates (w : World) (o : RetrievalOptions) (results : list SearchResult)
    : list SearchResult :=
  let filtered := ranked o results in
  slice (filtered ++ backfill w o filtered) 0 (optLimit o).

(** The packing loop, entered with the items and the total so far. *)
Fixpoint pack (maxTokens : Z) (rs : list SearchResult) (items : list MemoryItem)
    (totalTokens : Z) : list MemoryItem * Z :=
  match rs with
  | [] => (items, totalTokens)
  | result :: rest =>
      let itemTokens := estimateTokens (content (item result)) in
      if totalTokens + itemTokens >? maxTokens then (items, totalTokens)
      else pack maxTokens rest (items ++ [item result]) (totalTokens + itemTokens)
  end.

Definition retrieve (w : World) (query : str) (o : RetrievalOptions)
    : M RetrievalResult :=
  let searchMethod := if isOllama (getProvider w) then vector else fts5 in
  results <- searchAll w query o ;;
  let (items, totalTokens) := pack (optMaxTokens o) (candidates w o results) [] 0 in
  ret {| items := items; totalTokens := totalTokens; searchMethod := searchMethod |}.

End Retriever.

(** ** Further JavaScript primitives *)

Module JSExtra.

(** [s.split(c)] for a separator of one character. *)
Fixpoint splitChar (c : ascii) (s : str) : list str :=
  match s with
  | [] => [[]]
  | x :: t =>
      if Ascii.eqb x c then [] :: splitChar c t
      else match splitChar c t with
           | h :: r => (x :: h) :: r
           | [] => [[x]]
           end
  end.

(** [s.replace(/c/g, r)] for one character [c] and a replacement text
    without substitution patterns. *)
Definition replaceAllChar (c : ascii) (r : str) (s : str) : str :=
  flat_map (fun x => if Ascii.eqb x c then r else [x]) s.

(** [Math.round]: the nearest integer, a half going up. *)
Definition Math_round (f : float) : integral :=
  match Prim2SF f with
  | S754_zero _ => Fin 0
  | S754_finite s m e =>
      if 0 <=? e then Fin (Z.shiftl (if s then Zneg m else Zpos m) e)
      else
        let q := Z.shiftr (Zpos m) (- e) in
        let r := Zpos m - Z.shiftl q (- e) in
        let half := Z.shiftl 1 (- e - 1) in
        if s then Fin (if half <? r then - (q + 1) else - q)
        else Fin (if half <=? r then q + 1 else q)
  | S754_infinity false => PosInf
  | S754_infinity true => NegInf
  | S754_nan => NotANumber
  end.

(** The names every object literal inherits from [Object.prototype]:
    indexing an object literal by one of them finds the inherited member,
    not [undefined]. *)
Definition inheritedName (k : string) : bool :=
  existsb (String.eqb k)
    [ "constructor"; "hasOwnProperty"; "isPrototypeOf"; "propertyIsEnumerable";
      "toLocaleString"; "toString"; "valueOf"; "__proto__";
      "__defineGetter__"; "__defineSetter__"; "__lookupGetter__";
      "__lookupSetter__" ]%string.

(** [Math.min(...a)] and [Math.max(...a)] of a list that is not empty. *)
Definition minOf (x : Z) (rest : list Z) : Z := fold_left Z.min rest x.
Definition maxOf (x : Z) (rest : list Z) : Z := fold_left Z.max rest x.

End JSExtra.

Import JSExtra.

(** ** [src/context/summarizer.ts]: key points *)

Module KeyPoints.

Import Tokens.

Definition EXTRACT_PROMPT : str :=
  join [nl]
    [ lit "Extract the key points from this content as a bullet list.";
      lit "Focus on:";
      lit "- Main ideas";
      lit "- Decisions made";
      lit "- Action items";
      lit "- Important details";
      [];
      lit "Content:";
      lit "{{content}}" ].

(** The bullet characters of the alphabet: the hyphen and the star. *)
Definition isBullet (c : ascii) : bool :=
  Ascii.eqb c "-" || Ascii.eqb c "*".

(** [line.replace(/^[-*...]\s*/, '')]: one leading bullet and the white
    space after it. *)
Definition stripBullet (line : str) : str :=
  match line with
  | c :: rest => if isBullet c then trimStart rest else line
  | [] => []
  end.

(** The lines of a response as key points. *)
Definition parsePoints (response : str) : list str :=
  filter (fun line => 0 <? len line)
    (map (fun line => trim (stripBullet line)) (splitChar nl (trim response))).

Definition extractKeyPoints (generate : str -> outcome str) (text : str) : list str :=
  if estimateTokens text <? 100 then [trim text]
  else
    match generate (replace EXTRACT_PROMPT (lit "{{content}}") text) with
    | Returned response => parsePoints response
    | Thrown => [slice text 0 200 ++ lit "..."]
    end.

End KeyPoints.

(** ** [src/context/memory.ts]: recording and clearing steps *)

Module PipelineSteps.

Import Tokens PipelineMemory.

Record MemoryConfig := {
  targetAgent : string;
  summarizeThreshold : Z;
  maxInjectionTokens : Z;
  preferSummaries : bool
}.

Definition DEFAULT_CONFIG : MemoryConfig :=
  {| targetAgent := "ollama";
     summarizeThreshold := 2000;
     maxInjectionTokens := 4000;
     preferSummaries := true |}.

(** The context of a run: the steps and their memory, the named outputs
    and the configuration. *)
Record RunContext := {
  core : MemoryContext;
  outputs : dict str;
  config : MemoryConfig
}.

(** [{ ...d, [k]: v }]: the value of a key that is there is replaced
    where it stands, a new key comes last. *)
Fixpoint insert {A} (d : dict A) (k : string) (v : A) : dict A :=
  match d with
  | [] => [(k, v)]
  | (k', v') :: rest =>
      if String.eqb k k' then (k, v) :: rest else (k', v') :: insert rest k v
  end.

(** [delete d[k]]. *)
Definition remove {A} (d : dict A) (k : string) : dict A :=
  filter (fun e => negb (String.eqb k (fst e))) d.

Definition createMemoryContext (cfg : MemoryConfig) : RunContext :=
  {| core := {| steps := []; memory := [] |}; outputs := []; config := cfg |}.

(** What recording a step observes of the outside: the reachability
    probe, the summarization service and the clock. *)
Record Env := {
  summarizerAvailable : bool;
  generate : str -> outcome str;
  now : Z
}.

(** The memory entry of a step result.  Neither [summarizeIfNeeded] nor
    [extractKeyPoints] lets a failure of the service out, so the [catch]
    around them has no case of its own here. *)
Definition memoryEntry (env : Env) (cfg : MemoryConfig) (text : str) : StepOutput :=
  let tokens := estimateTokens text in
  if (tokens >? summarizeThreshold cfg) && summarizerAvailable env then
    let summary :=
      Summarizer.summarizeIfNeeded (generate env) text (summarizeThreshold cfg) in
    {| raw := text;
       summary := summary;
       PipelineMemory.tokens := tokens;
       summaryTokens := estimateTokens summary;
       keyPoints := KeyPoints.extractKeyPoints (generate env) text;
       timestamp := now env |}
  else
    {| raw := text;
       summary := text;
       PipelineMemory.tokens := tokens;
       summaryTokens := tokens;
       keyPoints := [];
       timestamp := now env |}.

Definition addStepResultWithMemory (env : Env) (ctx : RunContext) (result : StepResult)
    (outputAs : option string) : RunContext :=
  let text := match content result with Some c => c | None => [] end in
  let output := memoryEntry env (config ctx) text in
  {| core :=
       {| steps := insert (steps (core ctx)) (stepId result) result;
          memory := insert (memory (core ctx)) (stepId result) output |};
     outputs :=
       match outputAs, text with
       | Some name, _ :: _ =>
           if String.eqb name "" then outputs ctx else insert (outputs ctx) name text
       | _, _ => outputs ctx
       end;
     config := config ctx |}.

(** [clearMemory]: without a list, every entry goes. *)
Definition clearMemory (ctx : RunContext) (stepIds : option (list string)) : RunContext :=
  {| core :=
       {| steps := steps (core ctx);
          memory :=
            match stepIds with
            | None => []
            | Some ids => fold_left remove ids (memory (core ctx))
            end |};
     outputs := outputs ctx;
     config := config ctx |}.

End PipelineSteps.

(** ** [src/memory/sessions.ts]: reading a session *)

Module SessionViews.

Import Sessions.




Definition isUser (m : Message) : bool :=
  match msgRole m with user => true | _ => false end.

Definition isSystem (m : Message) : bool :=
  match msgRole m with system => true | _ => false end.

(** The preview that [listSessions] shows of a session. *)
Definition previewOf (session : AgentSession) : str :=
  let fromMessage :=
    match find isUser (messages session) with
    | Some m => slice (content m) 0 100
    | None => []
    end in
  let preview :=
    match fromMessage with
    | _ :: _ => fromMessage
    | [] =>
        match slice (summary session) 0 100 with
        | [] => lit "(empty)"
        | s => s
        end
    end in
  if len preview =? 100 then preview ++ lit "..." else preview.

Definition summaryBlock (summary : str) : str :=
  lit "<conversation_summary>" ++ [nl] ++ summary ++ [nl] ++ lit "</conversation_summary>".

Definition historyParts (session : AgentSession) (includeSystem : bool) : list str :=
  (match summary session with
   | [] => []
   | s => [summaryBlock s]
   end)
  ++ map renderMessage
       (filter (fun m => negb (isSystem m && negb includeSystem)) (messages session)).

Definition getConversationHistory (session : AgentSession) (includeSystem : bool) : str :=
  join [nl; nl] (historyParts session includeSystem).

Record SessionStats := {
  statMessageCount : Z;
  statTotalTokens : Z;
  statSummaryTokens : Z;
  statRecentTokens : Z;
  statCompressionRatio : integral;
  statOldestMessage : option Z;
  statNewestMessage : option Z
}.

Definition getSessionStats (session : AgentSession) : SessionStats :=
  let recentTokens := sumTokens (messages session) in
  let timestamps := map timestamp (messages session) in
  {| statMessageCount := messageCount session;
     statTotalTokens := totalTokens session;
     statSummaryTokens := summaryTokens session;
     statRecentTokens := recentTokens;
     statCompressionRatio :=
       if summaryTokens session >? 0 then
         Math_round
           ((1 - num (summaryTokens session)
                 / num (totalTokens session - recentTokens + summaryTokens session))
            * 100)%float
       else Fin 0;
     statOldestMessage :=
       match timestamps with
       | [] => None
       | t :: rest => Some (minOf t rest)
       end;
     statNewestMessage :=
       match timestamps with
       | [] => None
       | t :: rest => Some (maxOf t rest)
       end |}.

(** [clearSessionHistory]: the session returned and the files after it. *)
Definition clearSessionHistory (time : Z) (disk : Disk) (session : AgentSession)
    : AgentSession * Disk :=
  let cleared :=
    {| id := id session;
       agent := agent session;
       messages := [];
       summary := [];
       summaryTokens := 0;
       totalTokens := 0;
       messageCount := 0;
       createdAt := createdAt session;
       updatedAt := time |} in
  (cleared, saveSession disk cleared).

(** The total of a session is the tokens of its summary and of its
    messages. *)
Definition balanced (session : AgentSession) : Prop :=
  totalTokens session = summaryTokens session + sumTokens (messages session).

End SessionViews.

(** ** [src/memory/embeddings.ts]: detecting the provider *)

Module Embeddings.

Import VectorStore.

(** The module state: the provider, the cached answer of the probe
    ([None] for [null]) and the name of the model detected. *)
Record State := {
  provider : EmbeddingProvider;
  ollamaAvailable : option bool;
  model : option str
}.

Definition initialState : State :=
  {| provider := ProviderFts5; ollamaAvailable := None; model := None |}.

Definition EMBEDDING_MODELS : list str :=
  [lit "nomic-embed-text"; lit "mxbai-embed"; lit "all-minilm"].

Definition isEmbeddingModel (name : str) : bool :=
  existsb (fun em => prefixb em name) EMBEDDING_MODELS.

(** [isOllamaAvailable], for the answer of the service to the listing
    of its models: their names, or a failure. *)
Definition isOllamaAvailable (listing : outcome (list str)) (s : State) : bool * State :=
  match ollamaAvailable s with
  | Some known => (known, s)
  | None =>
      match listing with
      | Returned models =>
          match find isEmbeddingModel models with
          | Some found =>
              (true, {| provider := provider s; ollamaAvailable := Some true;
                        model := Some found |})
          | None =>
              (false, {| provider := provider s; ollamaAvailable := Some false;
                         model := model s |})
          end
      | Thrown =>
          (false, {| provider := provider s; ollamaAvailable := Some false;
                     model := model s |})
      end
  end.

Definition initEmbeddings (listing : outcome (list str)) (s : State)
    : EmbeddingProvider * State :=
  let (available, s') := isOllamaAvailable listing s in
  let p := if available then ProviderOllama else ProviderFts5 in
  (p, {| provider := p; ollamaAvailable := ollamaAvailable s'; model := model s' |}).

(** [embed]: [None] for [null]; the service is given the model and the
    text. *)
Definition embed (service : str -> str -> outcome vector) (s : State) (text : str)
    : option vector :=
  match provider s, model s with
  | ProviderOllama, Some (c :: name) =>
      match service (c :: name) text with
      | Returned v => Some v
      | Thrown => None
      end
  | _, _ => None
  end.

End Embeddings.

(** ** [src/memory/retriever.ts]: retrieval by kind *)

Module Contexts.

Import VectorStore Retriever.

(** The packing loop of [retrieveByType], over items. *)
Fixpoint packItems (maxTokens : Z) (rest : list MemoryItem) (items : list MemoryItem)
    (totalTokens : Z) : list MemoryItem * Z :=
  match rest with
  | [] => (items, totalTokens)
  | it :: more =>
      let itemTokens := estimateTokens (content it) in
      if totalTokens + itemTokens >? maxTokens then (items, totalTokens)
      else packItems maxTokens more (items ++ [it]) (totalTokens + itemTokens)
  end.

Definition retrieveByType (w : World) (ty : MemoryType) (limit maxTokens : option Z)
    : RetrievalResult :=
  let limit := match limit with Some v => v | None => 10 end in
  let maxTokens := match maxTokens with Some v => v | None => 4000 end in
  let recentItems := getRecent w (Some ty) (Some limit) in
  let (items, totalTokens) := packItems maxTokens recentItems [] 0 in
  {| items := items; totalTokens := totalTokens; searchMethod := recency |}.

(** The options of the four retrievals by kind. *)
Definition kindOptions (ty : MemoryType) (recent : bool) (least : option Q)
    (limit maxTokens : option Z) : RetrievalOptions :=
  {| Retriever.limit := limit;
     types := Some [ty];
     includeRecent := Some recent;
     minScore := least;
     Retriever.maxTokens := maxTokens |}.

Definition retrieveConversationContext (w : World) (query : str)
    (limit maxTokens : option Z) : M RetrievalResult :=
  retrieve w query (kindOptions conversation true None limit maxTokens).

Definition retrieveCodeContext (w : World) (query : str)
    (limit maxTokens : option Z) : M RetrievalResult :=
  retrieve w query (kindOptions code false None limit maxTokens).

Definition retrieveDecisionContext (w : World) (query : str)
    (limit maxTokens : option Z) : M RetrievalResult :=
  retrieve w query (kindOptions decision true None limit maxTokens).

Definition retrievePatternContext (w : World) (query : str)
    (limit maxTokens : option Z) : M RetrievalResult :=
  retrieve w query (kindOptions pattern true (Some 0%Q) limit maxTokens).

Record ContextOptions := {
  ctxMaxTokens : option Z;
  includeConversation : option bool;
  includeCode : option bool;
  includeDecisions : option bool;
  includePatterns : option bool
}.

Definition flag (f : option bool) : bool :=
  match f with Some b => b | None => true end.

(** The kinds asked for, in the order the source pushes them. *)
Definition contextTypes (o : ContextOptions) : list MemoryType :=
  (if flag (includeConversation o) then [conversation] else [])
  ++ (if flag (includeCode o) then [code] else [])
  ++ (if flag (includeDecisions o) then [decision] else [])
  ++ (if flag (includePatterns o) then [pattern] else []).

(** [breakdown[item.type]++] over the items, from zero everywhere. *)
Fixpoint countTypes (items : list MemoryItem) (breakdown : MemoryType -> Z)
    : MemoryType -> Z :=
  match items with
  | [] => breakdown
  | it :: rest =>
      countTypes rest
        (fun t => if MemoryType_eqb t (type it) then breakdown t + 1 else breakdown t)
  end.

Record Context := {
  ctxItems : list MemoryItem;
  ctxTotalTokens : Z;
  breakdown : MemoryType -> Z
}.

Definition contextRetrieval (o : ContextOptions) : RetrievalOptions :=
  {| Retriever.limit := Some 20;
     types := Some (contextTypes o);
     includeRecent := None;
     minScore := None;
     Retriever.maxTokens :=
       Some (match ctxMaxTokens o with Some v => v | None => 4000 end) |}.

Definition buildContext (w : World) (query : str) (o : ContextOptions) : M Context :=
  result <- retrieve w query (contextRetrieval o) ;;
  ret {| ctxItems := items result;
         ctxTotalTokens := totalTokens result;
         breakdown := countTypes (items result) (fun _ => 0) |}.

End Contexts.

(** ** [src/memory/injector.ts] *)

Module Injector.

Import VectorStore Contexts.

Inductive InjectionFormat := xml | markdown.

Definition typeName (t : MemoryType) : str :=
  match t with
  | conversation => lit "conversation"
  | code => lit "code"
  | decision => lit "decision"
  | pattern => lit "pattern"
  | context => lit "context"
  end.

Definition getTypeLabel (t : MemoryType) : str :=
  match t with
  | conversation => lit "Past Conversation"
  | code => lit "Code Reference"
  | decision => lit "Previous Decision"
  | pattern => lit "User Preference"
  | context => lit "Project Context"
  end.

Definition quote : ascii := "034"%char.

Definition escapeXML (text : str) : str :=
  replaceAllChar "'"%char (lit "&apos;")
    (replaceAllChar quote (lit "&quot;")
       (replaceAllChar ">"%char (lit "&gt;")
          (replaceAllChar "<"%char (lit "&lt;")
             (replaceAllChar "&"%char (lit "&amp;") text)))).

(** The lines of one item.  The metadata of an item is kept as the text
    [JSON.stringify] gives of it. *)
Definition xmlItemLines (it : MemoryItem) : list str :=
  [lit "  <item type=" ++ [quote] ++ typeName (type it) ++ [quote] ++ lit ">"]
  ++ [match type it with
      | code => lit "    <content><![CDATA[" ++ content it ++ lit "]]></content>"
      | _ => lit "    <content>" ++ escapeXML (content it) ++ lit "</content>"
      end]
  ++ (match metadata it with
      | Some m => [lit "    <metadata>" ++ escapeXML m ++ lit "</metadata>"]
      | None => []
      end)
  ++ [lit "  </item>"].

Definition formatAsXML (items : list MemoryItem) : str :=
  match items with
  | [] => []
  | _ =>
      join [nl] ([lit "<memory>"] ++ flat_map xmlItemLines items ++ [lit "</memory>"])
  end.

(** The [Map] of the items by type: a type keeps the place of its first
    item, an item goes last in the group of its type. *)
Fixpoint addToGroup (groups : list (MemoryType * list MemoryItem)) (it : MemoryItem)
    : list (MemoryType * list MemoryItem) :=
  match groups with
  | [] => [(type it, [it])]
  | (t, group) :: rest =>
      if MemoryType_eqb t (type it) then (t, group ++ [it]) :: rest
      else (t, group) :: addToGroup rest it
  end.

Definition groupByType (items : list MemoryItem) : list (MemoryType * list MemoryItem) :=
  fold_left addToGroup items [].

Definition markdownItemLines (t : MemoryType) (it : MemoryItem) : list str :=
  match t with
  | code => [lit "```"; content it; lit "```" ++ [nl]]
  | _ => [content it; []]
  end.

Definition markdownGroupLines (g : MemoryType * list MemoryItem) : list str :=
  (lit "### " ++ getTypeLabel (fst g) ++ [nl])
    :: flat_map (markdownItemLines (fst g)) (snd g).

Definition formatAsMarkdown (items : list MemoryItem) : str :=
  match items with
  | [] => []
  | _ =>
      join [nl]
        ((lit "## Relevant Context" ++ [nl])
           :: flat_map markdownGroupLines (groupByType items))
  end.

Record InjectionOptions := {
  format : option InjectionFormat;
  maxTokens : option Z;
  optIncludeConversation : option bool;
  optIncludeCode : option bool;
  optIncludeDecisions : option bool;
  optIncludePatterns : option bool
}.

Record InjectionResult := {
  injContent : str;
  tokens : Z;
  itemCount : Z;
  injBreakdown : MemoryType -> Z
}.

(** The options [buildInjection] hands to [buildContext]: every default
    is applied before the call. *)
Definition contextOptions (o : InjectionOptions) : ContextOptions :=
  {| ctxMaxTokens := Some (match maxTokens o with Some v => v | None => 2000 end);
     includeConversation := Some (flag (optIncludeConversation o));
     includeCode := Some (flag (optIncludeCode o));
     includeDecisions := Some (flag (optIncludeDecisions o));
     includePatterns := Some (flag (optIncludePatterns o)) |}.

Definition render (f : option InjectionFormat) (items : list MemoryItem) : str :=
  match f with
  | Some xml => formatAsXML items
  | _ => formatAsMarkdown items
  end.

Definition buildInjection (w : World) (query : str) (o : InjectionOptions)
    : M InjectionResult :=
  found <- buildContext w query (contextOptions o) ;;
  ret {| injContent := render (format o) (ctxItems found);
         tokens := ctxTotalTokens found;
         itemCount := len (ctxItems found);
         injBreakdown := breakdown found |}.

Definition formatItem (it : MemoryItem) (f : option InjectionFormat) : str :=
  render f [it].

Definition getFormatForAgent (agentName : string) : InjectionFormat :=
  if String.eqb agentName "claude" then xml else markdown.

Definition buildInjectionForAgent (w : World) (query : str) (agentName : string)
    (o : InjectionOptions) : M InjectionResult :=
  buildInjection w query
    {| format := Some (getFormatForAgent agentName);
       maxTokens := maxTokens o;
       optIncludeConversation := optIncludeConversation o;
       optIncludeCode := optIncludeCode o;
       optIncludeDecisions := optIncludeDecisions o;
       optIncludePatterns := optIncludePatterns o |}.

End Injector.

(** ** Notions used in the statements *)

(** [p] occurs in [s]. *)
Definition occurs (p s : str) : Prop := exists u v, s = u ++ p ++ v.

Definition isDigit (c : ascii) : bool :=
  ((48 <=? nat_of_ascii c) && (nat_of_ascii c <=? 57))%nat.

(** What follows the opening bracket of a placeholder. *)
Definition placeholderTail (i : nat) : str :=
  lit "CODE_BLOCK_" ++ String_of_nat i ++ lit "]".

(** Whether a text holds one of the substitution patterns of a
    replacement text: [$$], [$&], [$`] and [$']. *)
Fixpoint hasPattern (r : str) : bool :=
  match r with
  | [] => false
  | c :: t =>
      (Ascii.eqb c "$"
       && match t with
          | d :: _ =>
              Ascii.eqb d "$" || Ascii.eqb d "&" || Ascii.eqb d "`" || Ascii.eqb d "'"
          | [] => false
          end)
      || hasPattern t
  end.

(** A fenced block: what [extractCodeBlocks] collects. *)
Definition fenced (b : str) : Prop :=
  exists mid, b = Summarizer.fence ++ mid ++ Summarizer.fence.

(** [tokenBudget < mem.summaryTokens * 0.5]. *)
Definition underHalf (mem : PipelineMemory.StepOutput) (tokenBudget : Z) : bool :=
  (num tokenBudget <? num (PipelineMemory.summaryTokens mem) * 0.5)%float.

(** The third tier of [getStepOutputForBudget] as the specification words
    it: the summary cut to [tokenBudget * ratio * 0.9] characters, for
    the same ratio. *)
Definition specTargetChars (mem : PipelineMemory.StepOutput) (tokenBudget : Z)
    : integral :=
  let ratio := (num tokenBudget / num (PipelineMemory.summaryTokens mem))%float in
  Math_floor (num tokenBudget * ratio * 0.9)%float.

(** The searches of [retrieve] when each one is the full-text search. *)
Definition searchAllFullText (w : VectorStore.World) (query : str)
    (o : Retriever.RetrievalOptions) : list VectorStore.SearchResult :=
  match Retriever.optTypes o with
  | [] => VectorStore.searchFTS w query None (Some (Retriever.optLimit o))
  | ts =>
      flat_map
        (fun t =>
           VectorStore.searchFTS w query (Some t)
             (Some (ceilDiv (Retriever.optLimit o) (len ts))))
        ts
  end.

(** The estimate the retriever makes of a result and of an item. *)
Definition itemTokens (r : VectorStore.SearchResult) : Z :=
  Retriever.estimateTokens (VectorStore.content (VectorStore.item r)).

Definition tokensOf (it : VectorStore.MemoryItem) : Z :=
  Retriever.estimateTokens (VectorStore.content it).

Definition sumZ (l : list Z) : Z := fold_right Z.add 0 l.

(** ** Sample inputs *)

(** A service that always fails, and one that always answers [r]. *)
Definition failingService : str -> outcome str := fun _ => Thrown.

Definition constantService (r : str) : str -> outcome str := fun _ => Returned r.

Definition optionsWithMaxLength (m : Z) : Summarizer.SummaryOptions :=
  {| Summarizer.maxLength := Some m; Summarizer.preserveCode := None |}.

(** A step whose summary has 400 characters, recorded as 100 tokens,
    with no key points. *)
Definition sampleStep : PipelineMemory.StepOutput :=
  {| PipelineMemory.raw := repeat "r"%char 1000;
     PipelineMemory.summary := repeat "s"%char 400;
     PipelineMemory.tokens := 250;
     PipelineMemory.summaryTokens := 100;
     PipelineMemory.keyPoints := [];
     PipelineMemory.timestamp := 0 |}.

Definition sampleContext : PipelineMemory.MemoryContext :=
  {| PipelineMemory.steps :=
       [("s1"%string,
         {| PipelineMemory.stepId := "s1";
            PipelineMemory.content := Some (repeat "r"%char 1000) |})];
     PipelineMemory.memory := [("s1"%string, sampleStep)] |}.

(** A step whose summary has 10 characters, 3 tokens, and no key
    points. *)
Definition shortStep : PipelineMemory.StepOutput :=
  {| PipelineMemory.raw := lit "abcdefghij";
     PipelineMemory.summary := lit "abcdefghij";
     PipelineMemory.tokens := 3;
     PipelineMemory.summaryTokens := 3;
     PipelineMemory.keyPoints := [];
     PipelineMemory.timestamp := 0 |}.

Definition shortContext : PipelineMemory.MemoryContext :=
  {| PipelineMemory.steps :=
       [("s2"%string,
         {| PipelineMemory.stepId := "s2";
            PipelineMemory.content := Some (lit "abcdefghij") |})];
     PipelineMemory.memory := [("s2"%string, shortStep)] |}.

(** No summarizer in reach, a service that fails, and a clock. *)
Definition offlineEnv : Sessions.Env :=
  {| Sessions.summarizerAvailable := false;
     Sessions.generate := failingService;
     Sessions.now := 1700000000 |}.

Definition sampleMessage (r : Sessions.role) (text : string) : Sessions.Message :=
  {| Sessions.msgRole := r;
     Sessions.content := lit text;
     Sessions.tokens := Tokens.estimateTokens (lit text);
     Sessions.timestamp := 1600000000 |}.

(** Three messages, eleven tokens in all. *)
Definition sampleSession : Sessions.AgentSession :=
  {| Sessions.id := "claude_abc_1234";
     Sessions.agent := "claude";
     Sessions.messages :=
       [ sampleMessage Sessions.user "How do I sort?";
         sampleMessage Sessions.assistant "Use sort.";
         sampleMessage Sessions.user "And in reverse?" ];
     Sessions.summary := [];
     Sessions.summaryTokens := 0;
     Sessions.totalTokens := 11;
     Sessions.messageCount := 3;
     Sessions.createdAt := 1600000000;
     Sessions.updatedAt := 1600000000 |}.

(** The same messages under a counter that was never advanced. *)
Definition uncountedSession : Sessions.AgentSession :=
  {| Sessions.id := Sessions.id sampleSession;
     Sessions.agent := Sessions.agent sampleSession;
     Sessions.messages := Sessions.messages sampleSession;
     Sessions.summary := [];
     Sessions.summaryTokens := 0;
     Sessions.totalTokens := 11;
     Sessions.messageCount := 0;
     Sessions.createdAt := 1600000000;
     Sessions.updatedAt := 1600000000 |}.

(** A session built by three calls of [addMessage] under a ceiling of
    two tokens and one message to keep: each call after the first folds
    the message before it. *)
Definition tightConfig : Sessions.SessionConfig :=
  {| Sessions.maxTokens := Some 2;
     Sessions.keepRecentMessages := Some 1;
     Sessions.autoSave := Some false |}.

Definition builtSession : Sessions.AgentSession :=
  let start := Sessions.newSession "claude_abc_1234" "claude" 1600000000 in
  let one :=
    fst (Sessions.addMessage offlineEnv [] start Sessions.user (lit "How do I sort?")
           tightConfig) in
  let two :=
    fst (Sessions.addMessage offlineEnv [] one Sessions.assistant (lit "Use sort.")
           tightConfig) in
  fst (Sessions.addMessage offlineEnv [] two Sessions.user (lit "And in reverse?")
         tightConfig).

(** A configuration that keeps [keep] messages under a ceiling of 10
    tokens. *)
Definition keeping (keep : Z) : Sessions.Config :=
  {| Sessions.cfgMaxTokens := 10;
     Sessions.cfgKeepRecentMessages := keep;
     Sessions.cfgAutoSave := false |}.

Definition sampleRow (ty : VectorStore.MemoryType) (i : Z) (text : string) (rank : Q)
    : VectorStore.Row :=
  {| VectorStore.rowId := i;
     VectorStore.rowType := ty;
     VectorStore.rowContent := lit text;
     VectorStore.rowMetadata := None;
     VectorStore.rowCreatedAt := 1700000000 + i;
     VectorStore.rowUpdatedAt := 1700000000 + i;
     VectorStore.rowScore := rank |}.

(** Three rows of 5, 5 and 1 tokens. *)
Definition rowA := sampleRow VectorStore.code 1 "sort the list first" (- (3 # 2)).
Definition rowB := sampleRow VectorStore.code 2 "then reverse the lot" (- (5 # 2)).
Definition rowC := sampleRow VectorStore.code 3 "done" (- (1 # 2)).

(** Two rows of type [pattern]: one that the full-text rank barely
    registers, and one that no query matches. *)
Definition rowFaint := sampleRow VectorStore.pattern 4 "tabs, not spaces" (- (1 # 100)).
Definition rowUnmatched := sampleRow VectorStore.pattern 5 "short lines" 0.

(** A world in which the provider flag says [ollama] and the vector
    database cannot be opened: every search is a full-text search. *)
Definition worldWithoutIndex : VectorStore.World :=
  {| VectorStore.currentProvider := VectorStore.ProviderOllama;
     VectorStore.detectedModel := true;
     VectorStore.lanceConnect := Thrown;
     VectorStore.lanceOpenTable := Thrown;
     VectorStore.ollamaEmbed := fun _ => Thrown;
     VectorStore.lanceSearch := fun _ _ => Thrown;
     VectorStore.ftsQuery := fun _ _ _ => Returned [rowA; rowB; rowC];
     VectorStore.recentQuery := fun _ _ => [] |}.

(** The vector table is there, and embedding the query fails. *)
Definition worldWithoutEmbedding : VectorStore.World :=
  {| VectorStore.currentProvider := VectorStore.ProviderOllama;
     VectorStore.detectedModel := true;
     VectorStore.lanceConnect := Returned tt;
     VectorStore.lanceOpenTable := Returned tt;
     VectorStore.ollamaEmbed := fun _ => Thrown;
     VectorStore.lanceSearch := fun _ _ => Thrown;
     VectorStore.ftsQuery := fun _ _ _ => Returned [rowA; rowB; rowC];
     VectorStore.recentQuery := fun _ _ => [] |}.

(** No provider, no match: only recent rows. *)
Definition worldWithRecentOnly : VectorStore.World :=
  {| VectorStore.currentProvider := VectorStore.ProviderFts5;
     VectorStore.detectedModel := false;
     VectorStore.lanceConnect := Thrown;
     VectorStore.lanceOpenTable := Thrown;
     VectorStore.ollamaEmbed := fun _ => Thrown;
     VectorStore.lanceSearch := fun _ _ => Thrown;
     VectorStore.ftsQuery := fun _ _ _ => Returned [];
     VectorStore.recentQuery := fun _ _ => [rowC; rowA] |}.

(** No provider; the faint match, and the other row as the one recent
    item that is not a match. *)
Definition worldWithFaintMatch : VectorStore.World :=
  {| VectorStore.currentProvider := VectorStore.ProviderFts5;
     VectorStore.detectedModel := false;
     VectorStore.lanceConnect := Thrown;
     VectorStore.lanceOpenTable := Thrown;
     VectorStore.ollamaEmbed := fun _ => Thrown;
     VectorStore.lanceSearch := fun _ _ => Thrown;
     VectorStore.ftsQuery := fun _ _ _ => Returned [rowFaint];
     VectorStore.recentQuery := fun _ _ => [rowUnmatched; rowFaint] |}.

(** The options of [retrievePatternContext]: one type, recent items
    included, no minimum score. *)
Definition patternOptions : Retriever.RetrievalOptions :=
  {| Retriever.limit := None;
     Retriever.types := Some [VectorStore.pattern];
     Retriever.includeRecent := Some true;
     Retriever.minScore := Some 0%Q;
     Retriever.maxTokens := None |}.

Definition freshStore : VectorStore.Store :=
  {| VectorStore.initialized := false;
     VectorStore.lanceDb := false;
     VectorStore.lanceTable := false |}.

Definition optionsWithCeiling (ceiling : Z) : Retriever.RetrievalOptions :=
  {| Retriever.limit := None;
     Retriever.types := None;
     Retriever.includeRecent := None;
     Retriever.minScore := None;
     Retriever.maxTokens := Some ceiling |}.

(** ** Further sample inputs *)

(** 8000 letters, a full stop, a space and one more letter. *)
Definition longSentence : str := repeat "a"%char (Z.to_nat 8000) ++ lit ". b".


(** A text with two fenced blocks. *)
Definition twoBlocks : str := lit "see ```x=1``` and ```y``` here".



(** ** Further notions *)

(** Every memory entry of a context carries the estimates of its own
    texts. *)
Definition counted (ctx : PipelineMemory.MemoryContext) : Prop :=
  forall id mem,
    PipelineMemory.lookup (PipelineMemory.memory ctx) id = Some mem ->
    PipelineMemory.tokens mem = Tokens.estimateTokens (PipelineMemory.raw mem)
    /\ PipelineMemory.summaryTokens mem
       = Tokens.estimateTokens (PipelineMemory.summary mem).

(** [result.content ?? '']. *)
Definition contentOf (result : PipelineMemory.StepResult) : str :=
  match PipelineMemory.content result with Some c => c | None => [] end.

(** [{ ...session, messages }]. *)
Definition withMessages (session : Sessions.AgentSession)
    (ms : list Sessions.Message) : Sessions.AgentSession :=
  {| Sessions.id := Sessions.id session;
     Sessions.agent := Sessions.agent session;
     Sessions.messages := ms;
     Sessions.summary := Sessions.summary session;
     Sessions.summaryTokens := Sessions.summaryTokens session;
     Sessions.totalTokens := Sessions.totalTokens session;
     Sessions.messageCount := Sessions.messageCount session;
     Sessions.createdAt := Sessions.createdAt session;
     Sessions.updatedAt := Sessions.updatedAt session |}.

(** The message that [addMessage] appends. *)
Definition messageOf (env : Sessions.Env) (r : Sessions.role) (text : str)
    : Sessions.Message :=
  {| Sessions.msgRole := r;
     Sessions.content := text;
     Sessions.tokens := Tokens.estimateTokens text;
     Sessions.timestamp := Sessions.now env |}.

(** Whether the ratio of a summary of [s] tokens, in a session whose
    total is its summary and its messages, rounds to 50. *)
Definition roundsToHalf (s : Z) : bool :=
  match Math_round ((1 - num s / num (s + s)) * 100)%float with
  | Fin z => z =? 50
  | _ => false
  end.

(** [check] on the [count] integers from [from] on. *)
Fixpoint allFrom (check : Z -> bool) (from : Z) (count : nat) : bool :=
  match count with
  | O => true
  | S k => check from && allFrom check (from + 1) k
  end.

(** A configuration that keeps one message under a ceiling of 100
    tokens. *)
Definition roomy : Sessions.Config :=
  {| Sessions.cfgMaxTokens := 100;
     Sessions.cfgKeepRecentMessages := 1;
     Sessions.cfgAutoSave := false |}.

(** The entity that stands for a character in XML text, or the
    character itself. *)
Definition escapeChar (c : ascii) : str :=
  if Ascii.eqb c "&" then lit "&amp;"
  else if Ascii.eqb c "<" then lit "&lt;"
  else if Ascii.eqb c ">" then lit "&gt;"
  else if Ascii.eqb c Injector.quote then lit "&quot;"
  else if Ascii.eqb c "'" then lit "&apos;"
  else [c].

(** The characters that XML markup is made of. *)
Definition isMarkup (c : ascii) : bool :=
  Ascii.eqb c "<" || Ascii.eqb c ">" || Ascii.eqb c Injector.quote || Ascii.eqb c "'".
(** * Properties *)

(** ** Slices, lengths and integer division *)

Section JSFacts.

Context {A : Type}.

Lemma len_nonneg (s : list A) : 0 <= len s.
Proof. unfold len; lia. Qed.

Lemma len_app (s t : list A) : len (s ++ t) = len s + len t.
Proof. unfold len; rewrite length_app; lia. Qed.

Lemma len_firstn_le (k : nat) (s : list A) : len (firstn k s) <= Z.of_nat k.
Proof. unfold len; rewrite length_firstn; lia. Qed.

Lemma len_slice_le (s : list A) (b e : Z) : len (slice s b e) <= len s.
Proof.
  unfold slice, len.
  rewrite length_firstn, length_skipn; lia.
Qed.

Lemma slice_prefix (s : list A) (e : Z) :
  0 <= e -> slice s 0 e = firstn (Z.to_nat e) s.
Proof.
  intros He; unfold slice.
  assert (H0 : clampIndex (len s) 0 = 0).
  { unfold clampIndex; simpl. pose proof (len_nonneg s); lia. }
  rewrite H0; simpl.
  unfold clampIndex.
  destruct (Z.ltb_spec e 0); [lia|].
  rewrite Z.sub_0_r.
  destruct (Z.le_ge_cases e (len s)) as [Hle | Hge].
  - now rewrite Z.min_l.
  - rewrite Z.min_r by assumption.
    unfold len in *.
    rewrite Nat2Z.id.
    rewrite firstn_all.
    symmetry; apply firstn_all2; lia.
Qed.

Lemma len_slice_prefix_le (s : list A) (e : Z) :
  0 <= e -> len (slice s 0 e) <= e.
Proof.
  intros He; rewrite slice_prefix by assumption.
  pose proof (len_firstn_le (Z.to_nat e) s); lia.
Qed.

(** [slice(0, e)] always returns an initial segment. *)
Lemma slice_from_0_is_prefix (s : list A) (e : Z) :
  exists k, slice s 0 e = firstn k s.
Proof.
  unfold slice.
  assert (H0 : clampIndex (len s) 0 = 0).
  { unfold clampIndex; simpl. pose proof (len_nonneg s); lia. }
  rewrite H0; simpl; eauto.
Qed.

End JSFacts.

Lemma ceilDiv_le (a k : Z) : a <= 4 * k -> ceilDiv a 4 <= k.
Proof.
  intros H; unfold ceilDiv.
  pose proof (Z.div_mod (- a) 4 ltac:(lia)).
  pose proof (Z.mod_pos_bound (- a) 4 ltac:(lia)).
  lia.
Qed.

Lemma ceilDiv_gt (a k : Z) : 4 * k < a -> k < ceilDiv a 4.
Proof.
  intros H; unfold ceilDiv.
  pose proof (Z.div_mod (- a) 4 ltac:(lia)).
  pose proof (Z.mod_pos_bound (- a) 4 ltac:(lia)).
  lia.
Qed.

(** ** Token estimation *)

Lemma estimateTokens_ceilDiv (text : str) :
  Tokens.estimateTokens text = ceilDiv (len text) 4.
Proof. destruct text; reflexivity. Qed.

Lemma estimateTokens_le (text : str) (k : Z) :
  len text <= 4 * k -> Tokens.estimateTokens text <= k.
Proof. rewrite estimateTokens_ceilDiv; apply ceilDiv_le. Qed.

(** C8: the estimate of a text is the ceiling of a quarter of its length,
    and the estimate of the empty text is 0. *)
Theorem estimateTokens_is_ceiling :
  (forall text : str,
      Tokens.estimateTokens text = Qceiling (inject_Z (len text) / 4))
  /\ Tokens.estimateTokens [] = 0.
Proof.
  split; [| reflexivity].
  intros text; rewrite estimateTokens_ceilDiv.
  unfold ceilDiv, Qceiling, Qfloor, Qdiv, Qinv, Qmult, Qopp, inject_Z; simpl.
  rewrite Z.mul_1_r; reflexivity.
Qed.

(** ** Truncation to a budget *)

(** The marker costs 4 tokens, with the two newlines before it or
    without. *)
Lemma estimate_truncationMarker :
  Tokens.estimateTokens Tokens.truncationMarker = 4
  /\ Tokens.estimateTokens (lit "[...truncated]") = 4.
Proof. split; reflexivity. Qed.

(** Whatever boundary is chosen, what is kept of the text is no longer
    than the character budget. *)
Lemma truncateForAgent_shape (text : str) (agent : string) (usedTokens : Z) :
  let maxChars := Tokens.getAvailableTokens agent usedTokens * 4 in
  maxChars < len text ->
  exists kept,
    Tokens.truncateForAgent text agent usedTokens = kept ++ Tokens.truncationMarker
    /\ len kept <= len (slice text 0 maxChars).
Proof.
  intros maxChars Hlong.
  unfold Tokens.truncateForAgent, Tokens.CHARS_PER_TOKEN.
  fold maxChars.
  destruct (Z.leb_spec (len text) maxChars) as [Hle | _]; [lia|].
  destruct (Tokens.exceedsShare _ maxChars 0.7).
  - eexists; split; [reflexivity | apply len_slice_le].
  - destruct (Tokens.exceedsShare _ maxChars 0.8).
    + eexists; split; [reflexivity | apply len_slice_le].
    + eexists; split; [reflexivity | lia].
Qed.

(** C1, as amended: when the budget is not negative, the estimate of the
    result exceeds the budget by at most the estimate of one marker; and
    for every budget, a text within the character budget comes back as
    it is. *)
Theorem truncateForAgent_within_budget (text : str) (agent : string) (usedTokens : Z) :
  (len text <= Tokens.getAvailableTokens agent usedTokens * 4 ->
   Tokens.truncateForAgent text agent usedTokens = text)
  /\ (0 <= Tokens.getAvailableTokens agent usedTokens ->
      Tokens.estimateTokens (Tokens.truncateForAgent text agent usedTokens)
      <= Tokens.getAvailableTokens agent usedTokens
         + Tokens.estimateTokens Tokens.truncationMarker).
Proof.
  set (available := Tokens.getAvailableTokens agent usedTokens); split.
  - intros Hfit.
    unfold Tokens.truncateForAgent, Tokens.CHARS_PER_TOKEN.
    fold available.
    destruct (Z.leb_spec (len text) (available * 4)); [reflexivity | lia].
  - intros Hpos.
    rewrite (proj1 estimate_truncationMarker).
    destruct (Z.le_gt_cases (len text) (available * 4)) as [Hfit | Hlong].
    + unfold Tokens.truncateForAgent, Tokens.CHARS_PER_TOKEN.
      fold available.
      destruct (Z.leb_spec (len text) (available * 4)); [| lia].
      pose proof (estimateTokens_le text available ltac:(lia)); lia.
    + destruct (truncateForAgent_shape text agent usedTokens Hlong)
        as (kept & -> & Hkept).
      fold available in Hkept.
      pose proof (len_slice_prefix_le text (available * 4) ltac:(lia)).
      apply estimateTokens_le.
      rewrite len_app.
      change (len Tokens.truncationMarker) with 16; lia.
Qed.

(** The two halves of [truncateForAgent_within_budget] at work: a short
    text under a generous budget, a long text under a budget of two
    tokens. *)
Lemma truncateForAgent_within_budget_witness :
  Tokens.truncateForAgent (lit "short text") "claude" 0 = lit "short text"
  /\ Tokens.estimateTokens
       (Tokens.truncateForAgent (lit "one. two. three. four") "ollama" 6998)
     <= 2 + 4.
Proof.
  split.
  - apply (truncateForAgent_within_budget (lit "short text") "claude" 0).
    vm_compute; discriminate.
  - apply (truncateForAgent_within_budget (lit "one. two. three. four") "ollama" 6998).
    vm_compute; discriminate.
Defined.

(** C1 fails under a negative budget: with two tokens over the budget of
    [ollama], [slice] counts the cut from the end of the text, and 91 of
    100 characters come back before the marker. *)
Lemma truncateForAgent_negative_budget :
  Tokens.getAvailableTokens "ollama" 7002 = -2
  /\ ~ (Tokens.estimateTokens
          (Tokens.truncateForAgent (repeat "a"%char 100) "ollama" 7002)
        <= Tokens.getAvailableTokens "ollama" 7002
           + Tokens.estimateTokens Tokens.truncationMarker).
Proof.
  split; [reflexivity |].
  vm_compute; intros H; apply H; reflexivity.
Qed.

(** ** Chunking *)

Lemma length_trimStart_le (s : str) : (List.length (trimStart s) <= List.length s)%nat.
Proof.
  induction s as [| c t IH]; simpl; [lia |].
  destruct (isWhiteSpace c); simpl; lia.
Qed.

Lemma length_trimEnd_le (s : str) : (List.length (trimEnd s) <= List.length s)%nat.
Proof.
  unfold trimEnd; rewrite length_rev.
  pose proof (length_trimStart_le (rev s)) as H.
  now rewrite length_rev in H.
Qed.

Lemma len_trim_le (s : str) : len (trim s) <= len s.
Proof.
  unfold trim, len.
  pose proof (length_trimEnd_le (trimStart s)).
  pose proof (length_trimStart_le s).
  lia.
Qed.

Lemma trimStart_blank_app (w s : str) :
  forallb isWhiteSpace w = true -> trimStart (w ++ s) = trimStart s.
Proof.
  induction w as [| c w IH]; simpl; [reflexivity |].
  intros H; apply andb_prop in H as [Hc Hw].
  now rewrite Hc, IH.
Qed.

(** Trailing white space does not survive [trim]. *)
Lemma len_trim_app_blank (s w : str) :
  forallb isWhiteSpace w = true -> len (trim (s ++ w)) <= len s.
Proof.
  intros Hw; induction s as [| c t IH].
  - simpl. unfold trim.
    replace (trimStart w) with (@nil ascii).
    + unfold len; simpl; lia.
    + rewrite <- (app_nil_r w) at 1.
      now rewrite trimStart_blank_app.
  - unfold trim in *; simpl.
    destruct (isWhiteSpace c) eqn:Hc.
    + unfold len in *; simpl; lia.
    + unfold trimEnd.
      change (c :: t ++ w) with ((c :: t) ++ w).
      rewrite rev_app_distr, trimStart_blank_app.
      * unfold len; rewrite length_rev.
        pose proof (length_trimStart_le (rev (c :: t))) as H.
        rewrite length_rev in H; lia.
      * rewrite forallb_forall in *.
        intros x Hx; apply Hw; now apply in_rev.
Qed.

(** What the scan of [lastIndexOf] returns: the value it was entered
    with, or an index of the suffix at which the pattern occurs. *)
Lemma lastIndexOf_scan_spec (p s : str) (i bound acc : Z) :
  let r := lastIndexOf_scan p s i bound acc in
  r = acc
  \/ (i <= r <= bound /\ prefixb p (skipn (Z.to_nat (r - i)) s) = true).
Proof.
  revert i acc; induction s as [| c t IH]; intros i acc; simpl.
  - destruct (Z.leb_spec i bound); simpl; [| now left].
    destruct p; simpl; [| now left].
    right; split; [lia | reflexivity].
  - set (acc' := if (i <=? bound) && prefixb p (c :: t) then i else acc).
    destruct (IH (i + 1) acc') as [Heq | (Hr & Hp)].
    + rewrite Heq; subst acc'.
      destruct (Z.leb_spec i bound); simpl; [| now left].
      destruct (prefixb p (c :: t)) eqn:Hp; [| now left].
      right; rewrite Z.sub_diag; simpl; split; [lia | exact Hp].
    + right; split; [lia |].
      replace (Z.to_nat (lastIndexOf_scan p t (i + 1) bound acc' - i))
        with (S (Z.to_nat (lastIndexOf_scan p t (i + 1) bound acc' - (i + 1))))
        by lia.
      exact Hp.
Qed.

Lemma prefixb_app (p s : str) : prefixb p s = true -> exists t, s = p ++ t.
Proof.
  revert s; induction p as [| a p IH]; intros s H; simpl in *.
  - now exists s.
  - destruct s as [| b s]; [discriminate |].
    apply andb_prop in H as [Hab Hp].
    apply Ascii.eqb_eq in Hab; subst b.
    destruct (IH s Hp) as [t ->]; now exists t.
Qed.

(** A slice that ends just after an occurrence of [p] ends with [p]. *)
Lemma slice_through_occurrence (s p : str) (r : Z) :
  0 <= r -> prefixb p (skipn (Z.to_nat r) s) = true ->
  exists front, slice s 0 (r + len p) = front ++ p /\ len front <= r.
Proof.
  intros Hr Hp.
  destruct (prefixb_app _ _ Hp) as [t Ht].
  rewrite slice_prefix by (pose proof (len_nonneg p); lia).
  exists (firstn (Z.to_nat r) s); split.
  - rewrite <- (firstn_skipn (Z.to_nat r) s) at 1.
    rewrite Ht.
    replace (Z.to_nat (r + len p))
      with (List.length (firstn (Z.to_nat r) s)
            + (Z.to_nat (r + len p) - List.length (firstn (Z.to_nat r) s)))%nat.
    2:{ pose proof (len_nonneg p). rewrite length_firstn. lia. }
    rewrite firstn_app_2.
    f_equal.
    destruct (Nat.le_gt_cases (Z.to_nat r) (List.length s)) as [Hin | Hout].
    + rewrite length_firstn, Nat.min_l by assumption.
      replace (Z.to_nat (r + len p) - Z.to_nat r)%nat with (List.length p)
        by (unfold len; lia).
      rewrite firstn_app, Nat.sub_diag, firstn_all; simpl.
      now rewrite app_nil_r.
    + rewrite skipn_all2 in Ht by lia.
      destruct p; [| discriminate].
      simpl in Ht; subst t; apply firstn_nil.
  - pose proof (len_firstn_le (Z.to_nat r) s); lia.
Qed.

Lemma chunkSize_positive (agent : string) :
  0 < Tokens.chunkSize (Tokens.getTokenConfig agent).
Proof.
  unfold Tokens.getTokenConfig, Tokens.ADAPTER_LIMITS.
  destruct (Tokens.adapterOfName agent) as [[]|]; simpl; lia.
Qed.

(** The break point of a turn is at least 1. *)
Lemma splitStep_progress (chunkChars : Z) (remaining : str) :
  0 < chunkChars -> chunkChars < len remaining ->
  len (snd (Tokens.splitStep chunkChars remaining)) < len remaining.
Proof.
  intros Hc Hlong; unfold Tokens.splitStep; simpl.
  match goal with |- len (trim (sliceFrom _ ?bp)) < _ => set (breakPoint := bp) end.
  assert (Hbp : 1 <= breakPoint).
  { subst breakPoint; unfold lastIndexOfFrom.
    destruct (Tokens.exceedsShare _ _ _).
    - pose proof (lastIndexOf_scan_spec [nl; nl] remaining 0 (Z.max chunkChars 0) (-1)).
      simpl in *; lia.
    - destruct (Tokens.exceedsShare _ _ _); [| lia].
      pose proof (lastIndexOf_scan_spec (lit ". ") remaining 0 (Z.max chunkChars 0) (-1)).
      simpl in *; lia. }
  pose proof (len_trim_le (sliceFrom remaining breakPoint)) as Ht.
  assert (len (sliceFrom remaining breakPoint) < len remaining); [| lia].
  unfold sliceFrom, clampIndex.
  destruct (Z.ltb_spec breakPoint 0); [lia |].
  unfold len in *; rewrite length_skipn; lia.
Qed.

Lemma splitLoop_turn (fuel : nat) (chunkChars : Z) (remaining : str) :
  Tokens.splitLoop (S fuel) chunkChars remaining =
  if len remaining >? 0 then
    if len remaining <=? chunkChars then Some [remaining]
    else
      option_map (cons (fst (Tokens.splitStep chunkChars remaining)))
        (Tokens.splitLoop fuel chunkChars (snd (Tokens.splitStep chunkChars remaining)))
  else Some [].
Proof. reflexivity. Qed.

(** The loop exits within one turn per character of the remainder. *)
Lemma splitLoop_terminates (fuel : nat) (chunkChars : Z) (remaining : str) :
  0 < chunkChars -> (List.length remaining < fuel)%nat ->
  exists chunks, Tokens.splitLoop fuel chunkChars remaining = Some chunks.
Proof.
  intros Hc; revert remaining; induction fuel as [| fuel IH]; intros remaining Hf.
  - lia.
  - rewrite splitLoop_turn.
    destruct (len remaining >? 0); [| eauto].
    destruct (Z.leb_spec (len remaining) chunkChars) as [| Hlong]; [eauto |].
    pose proof (splitStep_progress chunkChars remaining Hc Hlong) as Hp.
    destruct (IH (snd (Tokens.splitStep chunkChars remaining))) as [chunks ->];
      [unfold len in Hp; lia |].
    simpl; eauto.
Qed.

(** A larger bound on the turns does not change the chunks. *)
Lemma splitLoop_fuel_mono (fuel extra : nat) (chunkChars : Z) (remaining : str)
    (chunks : list str) :
  Tokens.splitLoop fuel chunkChars remaining = Some chunks ->
  Tokens.splitLoop (fuel + extra) chunkChars remaining = Some chunks.
Proof.
  revert remaining chunks; induction fuel as [| fuel IH]; intros remaining chunks;
    [discriminate |].
  change (S fuel + extra)%nat with (S (fuel + extra)).
  rewrite !splitLoop_turn.
  destruct (len remaining >? 0); [| trivial].
  destruct (len remaining <=? chunkChars); [trivial |].
  destruct (Tokens.splitLoop fuel chunkChars _) as [tail |] eqn:Htail;
    cbn [option_map]; [| discriminate].
  intros H; now rewrite (IH _ _ Htail).
Qed.

(** [splitIntoChunks] returns, for every text and every target whose
    name is not an inherited one. *)
Theorem splitIntoChunks_terminates (text : str) (agent : string) :
  inheritedName agent = false ->
  exists chunks, Tokens.splitIntoChunks text agent = Some chunks.
Proof.
  intros _.
  unfold Tokens.splitIntoChunks, Tokens.splitIntoChunks_fuel.
  destruct (_ <=? _); [eauto |].
  apply splitLoop_terminates; [| lia].
  pose proof (chunkSize_positive agent); unfold Tokens.CHARS_PER_TOKEN; lia.
Qed.

(** A piece is at most one character longer than a chunk: the sentence
    break may sit at index [chunkChars] itself, and its full stop is
    kept. *)
Lemma splitStep_piece_bound (chunkChars : Z) (remaining : str) :
  0 < chunkChars ->
  len (fst (Tokens.splitStep chunkChars remaining)) <= chunkChars + 1.
Proof.
  intros Hc; unfold Tokens.splitStep; cbn [fst].
  unfold lastIndexOfFrom.
  destruct (Tokens.exceedsShare _ _ _).
  - destruct (lastIndexOf_scan_spec [nl; nl] remaining 0 (Z.max chunkChars 0) (-1))
      as [-> | (Hr & Hp)].
    + pose proof (len_trim_le (slice remaining 0 (-1 + 2))).
      pose proof (len_slice_prefix_le remaining (-1 + 2) ltac:(lia)).
      lia.
    + rewrite Z.sub_0_r in Hp.
      destruct (slice_through_occurrence remaining [nl; nl] _ (proj1 Hr) Hp)
        as (front & Hs & Hf).
      change (len [nl; nl]) with 2 in Hs; rewrite Hs.
      pose proof (len_trim_app_blank front [nl; nl] eq_refl).
      lia.
  - destruct (Tokens.exceedsShare _ _ _).
    + destruct (lastIndexOf_scan_spec (lit ". ") remaining 0 (Z.max chunkChars 0) (-1))
        as [-> | (Hr & Hp)].
      * pose proof (len_trim_le (slice remaining 0 (-1 + 2))).
        pose proof (len_slice_prefix_le remaining (-1 + 2) ltac:(lia)).
        lia.
      * rewrite Z.sub_0_r in Hp.
        destruct (slice_through_occurrence remaining (lit ". ") _ (proj1 Hr) Hp)
          as (front & Hs & Hf).
        change (len (lit ". ")) with 2 in Hs; rewrite Hs.
        change (lit ". ") with (["."%char] ++ [" "%char]).
        rewrite app_assoc.
        pose proof (len_trim_app_blank (front ++ ["."%char]) [" "%char] eq_refl) as Ht.
        rewrite len_app in Ht; change (len ["."%char]) with 1 in Ht.
        lia.
    + pose proof (len_trim_le (slice remaining 0 chunkChars)).
      pose proof (len_slice_prefix_le remaining chunkChars ltac:(lia)).
      lia.
Qed.

Lemma splitLoop_pieces_bound (fuel : nat) (chunkChars : Z) (remaining : str)
    (chunks : list str) :
  0 < chunkChars ->
  Tokens.splitLoop fuel chunkChars remaining = Some chunks ->
  Forall (fun piece => len piece <= chunkChars + 1) chunks.
Proof.
  intros Hc; revert remaining chunks; induction fuel as [| fuel IH];
    intros remaining chunks; [discriminate |].
  rewrite splitLoop_turn.
  destruct (len remaining >? 0).
  - destruct (Z.leb_spec (len remaining) chunkChars).
    + intros [= <-]; constructor; [lia | constructor].
    + destruct (Tokens.splitLoop fuel chunkChars _) as [tail |] eqn:Htail;
        cbn [option_map]; [| discriminate].
      intros [= <-]; constructor.
      * now apply splitStep_piece_bound.
      * eapply IH, Htail.
  - intros [= <-]; constructor.
Qed.

(** What does hold of every piece: its estimate is at most one token
    above the chunk size of the target. *)
Theorem splitIntoChunks_pieces_bound (text : str) (agent : string) (chunks : list str) :
  Tokens.splitIntoChunks text agent = Some chunks ->
  Forall
    (fun piece =>
       Tokens.estimateTokens piece
       <= Tokens.chunkSize (Tokens.getTokenConfig agent) + 1)
    chunks.
Proof.
  unfold Tokens.splitIntoChunks, Tokens.splitIntoChunks_fuel, Tokens.CHARS_PER_TOKEN.
  pose proof (chunkSize_positive agent) as Hc.
  set (size := Tokens.chunkSize (Tokens.getTokenConfig agent)) in *.
  destruct (Z.leb_spec (len text) (size * 4)).
  - intros [= <-]; constructor; [| constructor].
    apply estimateTokens_le; lia.
  - intros Hloop.
    apply splitLoop_pieces_bound in Hloop; [| lia].
    eapply Forall_impl; [| exact Hloop].
    intros piece Hp; cbv beta in Hp; apply estimateTokens_le; lia.
Qed.

(** C7 at its failing input: 8000 letters, a full stop, a space and one
    more letter, for [ollama] (chunks of 2000 tokens, 8000 characters).
    The sentence break found is at index 8000, the first piece keeps the
    full stop, and its estimate is 2001 tokens. *)
Theorem splitIntoChunks_oversized_piece :
  Tokens.splitIntoChunks (repeat "a"%char (Z.to_nat 8000) ++ lit ". b") "ollama"
  = Some [repeat "a"%char (Z.to_nat 8000) ++ lit "."; lit "b"]
  /\ Tokens.estimateTokens (repeat "a"%char (Z.to_nat 8000) ++ lit ".") = 2001
  /\ Tokens.chunkSize (Tokens.getTokenConfig "ollama") = 2000.
Proof. vm_compute; repeat split. Qed.

(** ** Summarization: the fallback and the ratio *)

Section Summarize.

Import Summarizer.

Variable generate : str -> outcome str.

Lemma summarize_long (text : str) (options : SummaryOptions) :
  effectiveMaxLength options < Tokens.estimateTokens text ->
  summarize generate text options =
  match generate (promptFor text options) with
  | Returned response =>
      let restored :=
        if effectivePreserveCode options && (0 <? len (fst (prepare text options)))
        then restoreCodeBlocks (trim response) (fst (prepare text options))
        else trim response in
      {| summary := restored;
         originalTokens := Tokens.estimateTokens text;
         summaryTokens := Tokens.estimateTokens restored;
         compressionRatio :=
           (num (Tokens.estimateTokens text) / num (Tokens.estimateTokens restored))%float |}
  | Thrown =>
      {| summary := slice text 0 (effectiveMaxLength options * 4) ++ failureTag;
         originalTokens := Tokens.estimateTokens text;
         summaryTokens :=
           Tokens.estimateTokens
             (slice text 0 (effectiveMaxLength options * 4) ++ failureTag);
         compressionRatio := 1 |}
  end.
Proof.
  intros Hlong; unfold summarize.
  destruct (Z.leb_spec (Tokens.estimateTokens text) (effectiveMaxLength options));
    [lia | reflexivity].
Qed.

(** C5, as amended: when the text is above [maxLength] and the service
    fails, the summary is the original text cut by
    [slice(0, maxLength * 4)], which is its first [maxLength * 4]
    characters for a [maxLength] that is not negative, followed by the
    failure tag; the ratio is 1.  The function has no other way to end:
    the failure does not reach the caller. *)
Theorem summarize_failure_fallback (text : str) (options : SummaryOptions) :
  effectiveMaxLength options < Tokens.estimateTokens text ->
  generate (promptFor text options) = Thrown ->
  summary (summarize generate text options)
  = slice text 0 (effectiveMaxLength options * 4) ++ failureTag
  /\ (0 <= effectiveMaxLength options ->
      slice text 0 (effectiveMaxLength options * 4)
      = firstn (Z.to_nat (effectiveMaxLength options * 4)) text)
  /\ compressionRatio (summarize generate text options) = 1%float
  /\ originalTokens (summarize generate text options) = Tokens.estimateTokens text
  /\ summaryTokens (summarize generate text options)
     = Tokens.estimateTokens (summary (summarize generate text options)).
Proof.
  intros Hlong Hfail.
  rewrite (summarize_long _ _ Hlong), Hfail; cbn.
  repeat split.
  intros Hm; apply slice_prefix; lia.
Qed.

(** On the success path the ratio is the quotient of the two estimates,
    whatever the divisor. *)
Lemma summarize_success_ratio (text : str) (options : SummaryOptions) (response : str) :
  effectiveMaxLength options < Tokens.estimateTokens text ->
  generate (promptFor text options) = Returned response ->
  compressionRatio (summarize generate text options)
  = (num (originalTokens (summarize generate text options))
     / num (summaryTokens (summarize generate text options)))%float
  /\ originalTokens (summarize generate text options) = Tokens.estimateTokens text
  /\ summaryTokens (summarize generate text options)
     = Tokens.estimateTokens (summary (summarize generate text options))
  /\ (summary (summarize generate text options) = [] ->
      summaryTokens (summarize generate text options) = 0).
Proof.
  intros Hlong Hok.
  rewrite (summarize_long _ _ Hlong), Hok; cbn.
  repeat split.
  intros ->; reflexivity.
Qed.

End Summarize.

Lemma summarize_failure_fallback_witness :
  Summarizer.summary
    (Summarizer.summarize failingService (lit "0123456789abcdef") (optionsWithMaxLength 2))
  = lit "01234567" ++ Summarizer.failureTag
  /\ Summarizer.compressionRatio
       (Summarizer.summarize failingService (lit "0123456789abcdef") (optionsWithMaxLength 2))
     = 1%float.
Proof.
  pose proof (summarize_failure_fallback failingService (lit "0123456789abcdef")
                (optionsWithMaxLength 2)) as H.
  destruct H as (Hs & _ & Hr & _).
  - vm_compute; reflexivity.
  - reflexivity.
  - split; [exact Hs | exact Hr].
Defined.

(** C5 as stated fails for a negative [maxLength] (which
    [compressSession] passes on when the messages it keeps are above its
    ceiling): the cut is counted from the end of the text, and 12 of 16
    characters come back, not the first [maxLength * 4]. *)
Lemma summarize_negative_maxLength :
  Summarizer.effectiveMaxLength (optionsWithMaxLength (-1))
  < Tokens.estimateTokens (lit "0123456789abcdef")
  /\ Summarizer.summary
       (Summarizer.summarize failingService (lit "0123456789abcdef")
          (optionsWithMaxLength (-1)))
     = lit "0123456789ab" ++ Summarizer.failureTag
  /\ Summarizer.summary
       (Summarizer.summarize failingService (lit "0123456789abcdef")
          (optionsWithMaxLength (-1)))
     <> firstn (Z.to_nat (Summarizer.effectiveMaxLength (optionsWithMaxLength (-1)) * 4))
          (lit "0123456789abcdef")
        ++ Summarizer.failureTag.
Proof. vm_compute; repeat split; discriminate. Qed.

(** C9: on the success path the ratio is [originalTokens / summaryTokens]
    with no test of the divisor, and an empty summary makes the divisor
    0; a response that is blank leaves an empty summary, an estimate of 0
    and a ratio that is no ratio of token counts: infinity. *)
Theorem summarize_ratio_unguarded :
  (forall generate text options response,
      Summarizer.effectiveMaxLength options < Tokens.estimateTokens text ->
      generate (Summarizer.promptFor text options) = Returned response ->
      Summarizer.compressionRatio (Summarizer.summarize generate text options)
      = (num (Summarizer.originalTokens (Summarizer.summarize generate text options))
         / num (Summarizer.summaryTokens (Summarizer.summarize generate text options)))%float
      /\ (Summarizer.summary (Summarizer.summarize generate text options) = [] ->
          Summarizer.summaryTokens (Summarizer.summarize generate text options) = 0))
  /\ (Summarizer.effectiveMaxLength (optionsWithMaxLength 1)
      < Tokens.estimateTokens (lit "abcdefgh")
      /\ Summarizer.summary
           (Summarizer.summarize (constantService (lit "  ")) (lit "abcdefgh")
              (optionsWithMaxLength 1)) = []
      /\ Summarizer.summaryTokens
           (Summarizer.summarize (constantService (lit "  ")) (lit "abcdefgh")
              (optionsWithMaxLength 1)) = 0
      /\ Summarizer.compressionRatio
           (Summarizer.summarize (constantService (lit "  ")) (lit "abcdefgh")
              (optionsWithMaxLength 1)) = infinity).
Proof.
  split.
  - intros generate text options response Hlong Hok.
    destruct (summarize_success_ratio generate text options response Hlong Hok)
      as (Hratio & _ & _ & Hzero).
    split; assumption.
  - vm_compute; repeat split.
Qed.

(** With a summary that is not empty the same quotient is an ordinary
    number: 9 tokens summarized in 3. *)
Lemma summarize_ratio_unguarded_witness :
  Summarizer.compressionRatio
    (Summarizer.summarize (constantService (lit "short note"))
       (lit "a text of thirty-three characters") (optionsWithMaxLength 1))
  = (num 9 / num 3)%float.
Proof.
  apply (proj1 (proj1 summarize_ratio_unguarded
                  (constantService (lit "short note"))
                  (lit "a text of thirty-three characters") (optionsWithMaxLength 1)
                  (lit "short note") eq_refl eq_refl)).
Defined.

(** ** Occurrences and replacement *)

Lemma app_prefixb (p t : str) : prefixb p (p ++ t) = true.
Proof.
  induction p as [| a p IH]; simpl; [reflexivity |].
  now rewrite Ascii.eqb_refl, IH.
Qed.

Lemma indexOf_Some (p s : str) (n : nat) :
  indexOf p s = Some n ->
  s = firstn n s ++ p ++ skipn (n + List.length p) s.
Proof.
  revert n; induction s as [| c t IH]; intros n; simpl.
  - destruct (prefixb p []) eqn:Hp; [| discriminate].
    intros [= <-]; destruct p; [reflexivity | discriminate].
  - destruct (prefixb p (c :: t)) eqn:Hp.
    + intros [= <-].
      destruct (prefixb_app _ _ Hp) as [rest Hrest].
      rewrite Hrest; simpl.
      now rewrite skipn_app, skipn_all, Nat.sub_diag.
    + destruct (indexOf p t) as [k |] eqn:Hk; simpl; [| discriminate].
      intros [= <-]; simpl.
      f_equal; now apply IH.
Qed.

Lemma indexOf_None (p s : str) : indexOf p s = None -> ~ occurs p s.
Proof.
  induction s as [| c t IH]; simpl.
  - destruct (prefixb p []) eqn:Hp; [discriminate |].
    intros _ (u & v & H).
    destruct u; [| discriminate].
    destruct p; [discriminate | discriminate].
  - destruct (prefixb p (c :: t)) eqn:Hp; [discriminate |].
    destruct (indexOf p t) as [k |]; simpl; [discriminate |].
    intros _ (u & v & H).
    destruct u as [| a u].
    + simpl in H; rewrite H, app_prefixb in Hp; discriminate.
    + injection H as _ H.
      apply IH; [reflexivity | now exists u, v].
Qed.

Lemma includes_occurs (s p : str) : includes s p = true <-> occurs p s.
Proof.
  unfold includes; split.
  - destruct (indexOf p s) as [n |] eqn:Hn; [| discriminate].
    intros _; apply indexOf_Some in Hn; eauto.
    eexists _, _; exact Hn.
  - intros H; destruct (indexOf p s) eqn:Hn; [reflexivity |].
    now apply indexOf_None in Hn.
Qed.

(** [replace] either finds nothing and returns its subject, or rewrites
    one occurrence. *)
Lemma getSubstitution_patternless (matched before after r : str) :
  hasPattern r = false -> getSubstitution matched before after r = r.
Proof.
  induction r as [| c t IH]; [reflexivity |].
  cbn [hasPattern getSubstitution]; intros Hr.
  apply orb_false_iff in Hr as [Hhere Hrest].
  destruct (Ascii.eqb c "$").
  - destruct t as [| d u]; [reflexivity |].
    cbn [andb] in Hhere.
    apply orb_false_iff in Hhere as [Hhere Hquote].
    apply orb_false_iff in Hhere as [Hhere Hback].
    apply orb_false_iff in Hhere as [Hdollar Hamp].
    rewrite Hdollar, Hamp, Hback, Hquote; f_equal; now apply IH.
  - f_equal; now apply IH.
Qed.

Lemma replace_cases (s p r : str) :
  (~ occurs p s /\ replace s p r = s)
  \/ exists before after,
       s = before ++ p ++ after
       /\ replace s p r = before ++ getSubstitution p before after r ++ after.
Proof.
  unfold replace.
  destruct (indexOf p s) as [n |] eqn:Hn.
  - right; exists (firstn n s), (skipn (n + List.length p) s); split;
      [now apply indexOf_Some | reflexivity].
  - left; split; [now apply indexOf_None | reflexivity].
Qed.

(** A replacement text without [$] stands for itself. *)
Lemma getSubstitution_plain (matched before after r : str) :
  ~ In "$"%char r -> getSubstitution matched before after r = r.
Proof.
  induction r as [| c t IH]; [reflexivity |].
  intros Hr; simpl.
  destruct (Ascii.eqb_spec c "$") as [-> | _].
  - exfalso; apply Hr; now left.
  - f_equal; apply IH; intros Hin; apply Hr; now right.
Qed.

(** Two occurrences in one text: the first lies before the second, or
    after it, or they overlap; then the head of one is inside the
    other. *)
Lemma two_occurrences (u q v before p after : str) :
  p <> [] ->
  u ++ q ++ v = before ++ p ++ after ->
  (exists l, before = u ++ q ++ l)
  \/ (exists l, after = l ++ q ++ v)
  \/ (exists l l', p = l ++ l' /\ l' <> [] /\ q ++ v = l' ++ after)
  \/ (exists l l', q = l ++ l' /\ l <> [] /\ l' <> [] /\ p ++ after = l' ++ v).
Proof.
  intros Hp H.
  apply app_eq_app in H as [l [[Hu H] | [Hb H]]].
  - apply app_eq_app in H as [l2 [[Hpl H] | [Hl H]]].
    + destruct l2 as [| c l2].
      * right; left; exists []; simpl in *; congruence.
      * right; right; left; exists l, (c :: l2); repeat split; auto; discriminate.
    + right; left; now exists l2.
  - apply app_eq_app in H as [l2 [[Hq H] | [Hl H]]].
    + destruct l2 as [| c l2].
      * left; exists []; rewrite app_nil_r in *; congruence.
      * destruct l as [| d l].
        -- right; right; left; exists [], p; simpl in *; subst.
           repeat split; auto.
        -- right; right; right; exists (d :: l), (c :: l2).
           repeat split; auto; discriminate.
    + left; exists l2; subst; reflexivity.
Qed.

(** ** Placeholders and fenced blocks *)

Lemma String_of_nat_digits (n : nat) :
  Forall (fun c => isDigit c = true) (String_of_nat n).
Proof.
  unfold String_of_nat, lit.
  generalize (Nat.to_uint n) as d.
  induction d; simpl; constructor; auto.
Qed.

Lemma String_of_nat_inj (i j : nat) : String_of_nat i = String_of_nat j -> i = j.
Proof.
  unfold String_of_nat, lit; intros H.
  apply (f_equal string_of_list_ascii) in H.
  rewrite !string_of_list_ascii_of_string in H.
  apply (f_equal NilEmpty.uint_of_string) in H.
  rewrite !NilEmpty.usu in H.
  injection H as H; now apply DecimalNat.Unsigned.to_uint_inj.
Qed.

Lemma not_digit_not_in (c : ascii) (n : nat) :
  isDigit c = false -> ~ In c (String_of_nat n).
Proof.
  intros Hc Hin.
  pose proof (String_of_nat_digits n) as Hd.
  rewrite Forall_forall in Hd.
  rewrite (Hd _ Hin) in Hc; discriminate.
Qed.

Lemma placeholder_head (i : nat) :
  Summarizer.placeholder i = "["%char :: placeholderTail i.
Proof. reflexivity. Qed.

Lemma placeholderTail_no_bracket (i : nat) : ~ In "["%char (placeholderTail i).
Proof.
  unfold placeholderTail; intros H.
  apply in_app_or in H as [H | H].
  - simpl in H; repeat (destruct H as [H | H]; [discriminate |]); exact H.
  - apply in_app_or in H as [H | H].
    + now apply not_digit_not_in in H.
    + simpl in H; destruct H as [H | []]; discriminate.
Qed.

Lemma placeholder_no_backtick (i : nat) : ~ In "`"%char (Summarizer.placeholder i).
Proof.
  rewrite placeholder_head; unfold placeholderTail; intros [H | H]; [discriminate |].
  apply in_app_or in H as [H | H].
  - simpl in H; repeat (destruct H as [H | H]; [discriminate |]); exact H.
  - apply in_app_or in H as [H | H].
    + now apply not_digit_not_in in H.
    + simpl in H; destruct H as [H | []]; discriminate.
Qed.

Lemma placeholder_not_nil (i : nat) : Summarizer.placeholder i <> [].
Proof. rewrite placeholder_head; discriminate. Qed.

(** Two texts that agree up to a mark that neither has before it. *)
Lemma same_up_to_mark (c : ascii) (a b x y : str) :
  ~ In c a -> ~ In c b -> a ++ c :: x = b ++ c :: y -> a = b.
Proof.
  revert b; induction a as [| d a IH]; intros b Ha Hb H.
  - destruct b as [| e b]; [reflexivity |].
    injection H as -> _; exfalso; apply Hb; now left.
  - destruct b as [| e b].
    + injection H as -> _; exfalso; apply Ha; now left.
    + injection H as -> H; f_equal.
      apply IH; auto; intros Hin; [apply Ha | apply Hb]; now right.
Qed.

(** Placeholders are told apart by any text that starts with one. *)
Lemma placeholder_prefix_inj (i j : nat) (x y : str) :
  Summarizer.placeholder i ++ x = Summarizer.placeholder j ++ y -> i = j.
Proof.
  unfold Summarizer.placeholder; rewrite <- !app_assoc; intros H.
  apply app_inv_head in H.
  apply String_of_nat_inj.
  eapply (same_up_to_mark "]"%char); [| | exact H];
    now apply not_digit_not_in.
Qed.

Lemma indexOf_Some_bound (p s : str) (n : nat) :
  indexOf p s = Some n -> (n + List.length p <= List.length s)%nat.
Proof.
  revert n; induction s as [| c t IH]; intros n; simpl.
  - destruct (prefixb p []) eqn:Hp; [| discriminate].
    intros [= <-]; destruct p; [simpl; lia | discriminate].
  - destruct (prefixb p (c :: t)) eqn:Hp.
    + intros [= <-].
      destruct (prefixb_app _ _ Hp) as [rest Hrest].
      apply (f_equal (@List.length _)) in Hrest.
      rewrite length_app in Hrest; simpl in *; lia.
    + destruct (indexOf p t) as [k |] eqn:Hk; simpl; [| discriminate].
      intros [= <-]; specialize (IH _ eq_refl); lia.
Qed.

Lemma fencedAt_fenced (s : str) (n : nat) :
  Summarizer.fencedAt s = Some n -> fenced (firstn n s).
Proof.
  unfold Summarizer.fencedAt.
  destruct (prefixb Summarizer.fence s) eqn:Hp; [| discriminate].
  destruct (prefixb_app _ _ Hp) as [t ->].
  change (skipn 3 (Summarizer.fence ++ t)) with t.
  destruct (indexOf Summarizer.fence t) as [k |] eqn:Hk; [| discriminate].
  intros [= <-].
  pose proof (indexOf_Some_bound _ _ _ Hk) as Hb.
  apply indexOf_Some in Hk.
  exists (firstn k t).
  replace (k + 6)%nat with (List.length Summarizer.fence + (k + 3))%nat by (simpl; lia).
  rewrite firstn_app_2; f_equal.
  rewrite Hk at 1.
  replace (k + 3)%nat with (List.length (firstn k t) + 3)%nat
    by (rewrite length_firstn; simpl in Hb; lia).
  rewrite firstn_app_2; reflexivity.
Qed.

Lemma extractScan_fenced (s : str) (skip count : nat) :
  Forall fenced (fst (Summarizer.extractScan s skip count)).
Proof.
  revert skip count; induction s as [| c t IH]; intros skip count; simpl.
  - constructor.
  - destruct skip as [| k]; [| apply IH].
    destruct (Summarizer.fencedAt (c :: t)) as [n |] eqn:Hf.
    + specialize (IH (n - 1)%nat (S count)).
      destruct (Summarizer.extractScan t (n - 1) (S count)) as [code out].
      simpl in *; constructor; [| exact IH].
      now apply fencedAt_fenced.
    + specialize (IH 0%nat count).
      now destruct (Summarizer.extractScan t 0 count) as [code out].
Qed.

Lemma fenced_head (b : str) : fenced b -> exists t, b = "`"%char :: t.
Proof. intros [mid ->]; simpl; eauto. Qed.

(** Every non-empty end of a fenced block holds a backtick. *)
Lemma fenced_end (b l l' : str) :
  fenced b -> b = l ++ l' -> l' <> [] -> In "`"%char l'.
Proof.
  intros [mid ->] H Hl'.
  destruct (exists_last Hl') as (front & z & ->).
  replace (Summarizer.fence ++ mid ++ Summarizer.fence)
    with ((Summarizer.fence ++ mid ++ lit "``") ++ ["`"%char]) in H
    by (now rewrite <- !app_assoc).
  rewrite (app_assoc l front [z]) in H.
  apply app_inj_tail in H as [_ <-].
  apply in_or_app; right; now left.
Qed.

(** ** Restoring code blocks *)

Lemma occurs_in_before (b u l x : str) : occurs b ((u ++ b ++ l) ++ x).
Proof. exists u, (l ++ x); now rewrite <- !app_assoc. Qed.

Lemma occurs_in_after (b l v x : str) : occurs b (x ++ l ++ b ++ v).
Proof. exists (x ++ l), v; now rewrite <- !app_assoc. Qed.

(** A replacement of a placeholder that the block does not contain
    leaves the block where it is. *)
Lemma replace_keeps_fenced (s r b : str) (j : nat) :
  occurs b s -> fenced b -> ~ occurs (Summarizer.placeholder j) b ->
  occurs b (replace s (Summarizer.placeholder j) r).
Proof.
  intros (u & v & Hs) Hf Hnot.
  destruct (replace_cases s (Summarizer.placeholder j) r)
    as [[_ ->] | (before & after & Hs' & ->)]; [now exists u, v |].
  set (X := getSubstitution _ _ _ _).
  rewrite Hs in Hs'.
  destruct (two_occurrences _ _ _ _ _ _ (placeholder_not_nil j) Hs')
    as [[l ->] | [[l ->] | [(l & l' & Hp & Hl' & H) | (l & l' & Hb & Hl & Hl' & H)]]].
  - apply occurs_in_before.
  - rewrite app_assoc; apply occurs_in_after.
  - exfalso; apply (placeholder_no_backtick j).
    destruct (fenced_head _ Hf) as [t ->].
    destruct l' as [| c l']; [congruence |].
    injection H as <- _.
    rewrite Hp; apply in_or_app; right; now left.
  - exfalso.
    apply app_eq_app in H as [l3 [[Hp _] | [Hl3 _]]].
    + apply (placeholder_no_backtick j).
      rewrite Hp; apply in_or_app; left.
      eapply fenced_end; eauto.
    + apply Hnot; exists l, l3; now rewrite Hb, Hl3.
Qed.

(** A replacement of one placeholder leaves the others where they
    are. *)
Lemma replace_keeps_placeholder (s r : str) (i j : nat) :
  i <> j -> occurs (Summarizer.placeholder i) s ->
  occurs (Summarizer.placeholder i) (replace s (Summarizer.placeholder j) r).
Proof.
  intros Hij (u & v & Hs).
  destruct (replace_cases s (Summarizer.placeholder j) r)
    as [[_ ->] | (before & after & Hs' & ->)]; [now exists u, v |].
  set (X := getSubstitution _ _ _ _).
  rewrite Hs in Hs'.
  destruct (two_occurrences _ _ _ _ _ _ (placeholder_not_nil j) Hs')
    as [[l ->] | [[l ->] | [(l & l' & Hp & Hl' & H) | (l & l' & Hq & Hl & Hl' & H)]]].
  - apply occurs_in_before.
  - rewrite app_assoc; apply occurs_in_after.
  - exfalso.
    destruct l as [| d l].
    + simpl in Hp; subst l'; now apply placeholder_prefix_inj in H.
    + destruct l' as [| c l']; [congruence |].
      rewrite placeholder_head in H; injection H as <- _.
      rewrite placeholder_head in Hp; injection Hp as _ Hp.
      apply (placeholderTail_no_bracket j).
      rewrite Hp; apply in_or_app; right; now left.
  - exfalso.
    destruct l as [| d l]; [congruence |].
    destruct l' as [| c l']; [congruence |].
    rewrite placeholder_head in H; injection H as <- _.
    rewrite placeholder_head in Hq; injection Hq as _ Hq.
    apply (placeholderTail_no_bracket i).
    rewrite Hq; apply in_or_app; right; now left.
Qed.

(** Once restored, a block stays through the later replacements. *)
Lemma restoreFrom_keeps (code : list str) (k : nat) (result b : str) :
  occurs b result -> fenced b ->
  (forall j, (k <= j)%nat -> ~ occurs (Summarizer.placeholder j) b) ->
  occurs b (Summarizer.restoreFrom k code result).
Proof.
  revert k result; induction code as [| c rest IH]; intros k result Hb Hf Hfree;
    simpl; [exact Hb |].
  apply IH; auto.
  - apply replace_keeps_fenced; auto.
  - intros j Hj; apply Hfree; lia.
Qed.

(** The block at index [i] is restored when its placeholder is there,
    and stays. *)
Lemma restoreFrom_restores (code : list str) (k i : nat) (result b : str) :
  nth_error code i = Some b ->
  occurs (Summarizer.placeholder (k + i)) result ->
  hasPattern b = false -> fenced b ->
  (forall j, (k + i < j)%nat -> ~ occurs (Summarizer.placeholder j) b) ->
  occurs b (Summarizer.restoreFrom k code result).
Proof.
  revert k i result; induction code as [| c rest IH]; intros k i result Hnth Hocc Hplain Hf Hfree.
  - destruct i; discriminate.
  - destruct i as [| i]; simpl in *.
    + injection Hnth as ->.
      rewrite Nat.add_0_r in *.
      apply restoreFrom_keeps;
        [| assumption | intros j Hj; apply Hfree; lia].
      destruct (replace_cases result (Summarizer.placeholder k) b)
        as [[Hno _] | (before & after & _ & ->)]; [contradiction |].
      rewrite getSubstitution_patternless by assumption.
      now exists before, after.
    + apply (IH (S k) i);
        [assumption | | assumption | assumption | intros j Hj; apply Hfree; lia].
      replace (S k + i)%nat with (k + S i)%nat by lia.
      apply replace_keeps_placeholder; [lia | assumption].
Qed.

(** A block without an opening bracket contains no placeholder. *)
Lemma no_bracket_no_placeholder (b : str) (j : nat) :
  ~ In "["%char b -> includes b (Summarizer.placeholder j) = false.
Proof.
  intros Hb.
  destruct (includes b (Summarizer.placeholder j)) eqn:Hi; [| reflexivity].
  apply includes_occurs in Hi as (u & v & ->).
  exfalso; apply Hb, in_or_app; right; now left.
Qed.

(** C2, as amended: with [preserveCode] on and a text above [maxLength],
    whatever the service returns, the code block at index [i] is in the
    summary byte for byte when the trimmed response still holds its
    placeholder, the block holds none of the substitution patterns [$$],
    [$&], [$`] and [$'], and the block does not spell the placeholder of
    a later block. *)
Theorem summarize_preserves_code (generate : str -> outcome str) (text : str)
    (options : Summarizer.SummaryOptions) (response : str) (i : nat) (block : str) :
  Summarizer.effectivePreserveCode options = true ->
  Summarizer.effectiveMaxLength options < Tokens.estimateTokens text ->
  generate (Summarizer.promptFor text options) = Returned response ->
  nth_error (fst (Summarizer.extractCodeBlocks text)) i = Some block ->
  includes (trim response) (Summarizer.placeholder i) = true ->
  hasPattern block = false ->
  (forall j, (i < j)%nat -> includes block (Summarizer.placeholder j) = false) ->
  includes (Summarizer.summary (Summarizer.summarize generate text options)) block = true.
Proof.
  intros Hpreserve Hlong Hok Hnth Hkept Hplain Hfree.
  rewrite (summarize_long _ _ _ Hlong), Hok; cbn [Summarizer.summary].
  unfold Summarizer.prepare; rewrite Hpreserve.
  set (code := fst (Summarizer.extractCodeBlocks text)) in *.
  assert (Hlen : (0 <? len code) = true).
  { apply Z.ltb_lt; unfold len.
    destruct code; [destruct i; discriminate | simpl; lia]. }
  rewrite Hlen; cbn [andb].
  apply includes_occurs.
  unfold Summarizer.restoreCodeBlocks.
  apply (restoreFrom_restores code 0 i); auto.
  - now apply includes_occurs.
  - pose proof (extractScan_fenced text 0 0) as Hall.
    rewrite Forall_forall in Hall; apply Hall.
    eapply nth_error_In; exact Hnth.
  - intros j Hj Hocc; apply includes_occurs in Hocc.
    rewrite Hfree in Hocc by exact Hj; discriminate.
Qed.

Lemma summarize_preserves_code_witness :
  includes
    (Summarizer.summary
       (Summarizer.summarize (constantService (lit " Kept: [CODE_BLOCK_0] (one line). "))
          (lit "run ```echo $HOME $1``` now") (optionsWithMaxLength 1)))
    (lit "```echo $HOME $1```") = true.
Proof.
  apply (summarize_preserves_code
           (constantService (lit " Kept: [CODE_BLOCK_0] (one line). "))
           (lit "run ```echo $HOME $1``` now") (optionsWithMaxLength 1)
           (lit " Kept: [CODE_BLOCK_0] (one line). ") 0 (lit "```echo $HOME $1```")).
  - reflexivity.
  - vm_compute; reflexivity.
  - reflexivity.
  - reflexivity.
  - reflexivity.
  - reflexivity.
  - intros j _; apply no_bracket_no_placeholder.
    simpl; intuition discriminate.
Defined.

(** C2 as stated fails: a response that does not repeat the placeholder
    leaves the code block out of the summary. *)
Lemma summarize_drops_code :
  Summarizer.effectivePreserveCode (optionsWithMaxLength 1) = true
  /\ Summarizer.effectiveMaxLength (optionsWithMaxLength 1)
     < Tokens.estimateTokens (lit "see ```x=1``` here")
  /\ fst (Summarizer.extractCodeBlocks (lit "see ```x=1``` here")) = [lit "```x=1```"]
  /\ Summarizer.summary
       (Summarizer.summarize (constantService (lit "It sets x."))
          (lit "see ```x=1``` here") (optionsWithMaxLength 1))
     = lit "It sets x."
  /\ includes (lit "It sets x.") (lit "```x=1```") = false.
Proof. vm_compute; repeat split. Qed.

(** The restoration reads the block as a replacement text: a block with
    [$$] in it comes back with one [$], even when the response kept its
    placeholder. *)
Lemma summarize_rewrites_dollar :
  fst (Summarizer.extractCodeBlocks (lit "run ```echo $$``` now")) = [lit "```echo $$```"]
  /\ Summarizer.summary
       (Summarizer.summarize (constantService (lit "[CODE_BLOCK_0]"))
          (lit "run ```echo $$``` now") (optionsWithMaxLength 1))
     = lit "```echo $```".
Proof. vm_compute; repeat split. Qed.

(** A block that spells the placeholder of a later block is taken for
    it: the later block lands inside, and the first block is not in the
    summary as it was. *)
Lemma summarize_placeholder_inside_block :
  fst (Summarizer.extractCodeBlocks (lit "```[CODE_BLOCK_1]``` and ```y```"))
  = [lit "```[CODE_BLOCK_1]```"; lit "```y```"]
  /\ Summarizer.summary
       (Summarizer.summarize (constantService (lit "[CODE_BLOCK_0] and [CODE_BLOCK_1]"))
          (lit "```[CODE_BLOCK_1]``` and ```y```") (optionsWithMaxLength 1))
     = lit "``````y`````` and [CODE_BLOCK_1]"
  /\ includes (lit "``````y`````` and [CODE_BLOCK_1]") (lit "```[CODE_BLOCK_1]```") = false.
Proof. vm_compute; repeat split. Qed.

(** ** The output of a step under a budget *)

Section StepOutputForBudget.

Import PipelineMemory.

Lemma keyPointsString_tokens (mem : StepOutput) :
  (0 <? Tokens.estimateTokens (keyPointsString mem)) = true <-> keyPoints mem <> [].
Proof.
  unfold keyPointsString.
  destruct (keyPoints mem) as [| k ks].
  - cbn; split; [discriminate | congruence].
  - replace (0 <? len (k :: ks)) with true by (unfold len; reflexivity).
    split; [discriminate | intros _].
    apply Z.ltb_lt.
    rewrite estimateTokens_ceilDiv.
    apply (ceilDiv_gt _ 0).
    rewrite len_app; change (len (lit "- ")) with 2.
    pose proof (len_nonneg (join (nl :: lit "- ") (k :: ks))); lia.
Qed.

Lemma keyPointsChosen_iff (mem : StepOutput) (tokenBudget : Z) :
  keyPointsChosen mem tokenBudget = true
  <-> keyPoints mem <> []
      /\ underHalf mem tokenBudget = true
      /\ Tokens.estimateTokens (keyPointsString mem) <= tokenBudget.
Proof.
  unfold keyPointsChosen, underHalf.
  rewrite !andb_true_iff, keyPointsString_tokens, Z.leb_le; tauto.
Qed.

Lemma sliceTo_prefix (s : str) (e : integral) : exists k, sliceTo s e = firstn k s.
Proof.
  destruct e; simpl.
  - apply slice_from_0_is_prefix.
  - exists (List.length s); now rewrite firstn_all.
  - now exists 0%nat.
  - now exists 0%nat.
Qed.

(** C6, as amended: for a step with a memory record, the key points
    when there are some, the budget is under half the summary's tokens
    and they fit the budget; else the summary when its tokens fit; else
    [summary.slice(0, n)] followed by the truncation marker, for
    [n = floor(summary.length * ratio * 0.9)] and
    [ratio = tokenBudget / summaryTokens]: the first [n] characters of
    the summary when [n] is not negative, the summary without its last
    [-n] characters when [n] is negative, the whole summary when [n] is
    infinite, and nothing of it when [n] is minus infinity or not a
    number. *)
Theorem getStepOutputForBudget_tiers (ctx : MemoryContext) (stepId : string)
    (tokenBudget : Z) (mem : StepOutput) :
  lookup (memory ctx) stepId = Some mem ->
  let n :=
    Math_floor
      (num (len (summary mem)) * (num tokenBudget / num (summaryTokens mem)) * 0.9)%float in
  (keyPoints mem <> [] /\ underHalf mem tokenBudget = true
   /\ Tokens.estimateTokens (keyPointsString mem) <= tokenBudget ->
   getStepOutputForBudget ctx stepId tokenBudget = keyPointsString mem)
  /\ (~ (keyPoints mem <> [] /\ underHalf mem tokenBudget = true
         /\ Tokens.estimateTokens (keyPointsString mem) <= tokenBudget) ->
      (summaryTokens mem <= tokenBudget ->
       getStepOutputForBudget ctx stepId tokenBudget = summary mem)
      /\ (tokenBudget < summaryTokens mem ->
          getStepOutputForBudget ctx stepId tokenBudget
          = sliceTo (summary mem) n ++ Tokens.truncationMarker
          /\ (forall z, n = Fin z ->
                getStepOutputForBudget ctx stepId tokenBudget
                = slice (summary mem) 0 z ++ Tokens.truncationMarker
                /\ (0 <= z ->
                    getStepOutputForBudget ctx stepId tokenBudget
                    = firstn (Z.to_nat z) (summary mem) ++ Tokens.truncationMarker)
                /\ (z < 0 ->
                    getStepOutputForBudget ctx stepId tokenBudget
                    = firstn (Z.to_nat (len (summary mem) + z)) (summary mem)
                      ++ Tokens.truncationMarker))
          /\ (n = PosInf ->
              getStepOutputForBudget ctx stepId tokenBudget
              = summary mem ++ Tokens.truncationMarker)
          /\ (n = NegInf \/ n = NotANumber ->
              getStepOutputForBudget ctx stepId tokenBudget = Tokens.truncationMarker))).
Proof.
  intros Hmem n; unfold getStepOutputForBudget; rewrite Hmem.
  split.
  - intros Hkp; apply keyPointsChosen_iff in Hkp; now rewrite Hkp.
  - intros Hkp.
    destruct (keyPointsChosen mem tokenBudget) eqn:Hc;
      [apply keyPointsChosen_iff in Hc; contradiction |].
    split; intros Hcmp.
    + destruct (Z.leb_spec (summaryTokens mem) tokenBudget); [reflexivity | lia].
    + destruct (Z.leb_spec (summaryTokens mem) tokenBudget); [lia |].
      change (targetChars mem tokenBudget) with n.
      split; [reflexivity |].
      split; [| split].
      * intros z ->; cbn [sliceTo].
        split; [reflexivity |].
        split; intros Hz.
        -- now rewrite slice_prefix by assumption.
        -- unfold slice, clampIndex.
           pose proof (len_nonneg (summary mem)) as Hlen.
           destruct (Z.ltb_spec 0 0); [lia |].
           destruct (Z.ltb_spec z 0); [| lia].
           rewrite Z.min_l by lia; cbn [Z.to_nat skipn].
           do 2 f_equal; lia.
      * intros ->; reflexivity.
      * intros [-> | ->]; reflexivity.
Qed.

End StepOutputForBudget.

Lemma getStepOutputForBudget_tiers_witness :
  PipelineMemory.getStepOutputForBudget sampleContext "s1" 50
  = repeat "s"%char 180 ++ Tokens.truncationMarker.
Proof.
  destruct (getStepOutputForBudget_tiers sampleContext "s1" 50 sampleStep eq_refl)
    as [_ Hrest].
  destruct Hrest as [_ Hcut].
  - intros (Hkp & _); now apply Hkp.
  - destruct (Hcut ltac:(reflexivity)) as [-> _].
    vm_compute; reflexivity.
Defined.

(** C6 as stated fails: with a budget of 50 tokens for a summary of 400
    characters and 100 tokens, the ratio is 0.5; the cut is at
    [400 * 0.5 * 0.9 = 180] characters, not at [50 * 0.5 * 0.9 = 22.5]. *)
Lemma getStepOutputForBudget_scales_length :
  PipelineMemory.keyPointsChosen sampleStep 50 = false
  /\ (PipelineMemory.summaryTokens sampleStep <=? 50) = false
  /\ specTargetChars sampleStep 50 = Fin 22
  /\ PipelineMemory.getStepOutputForBudget sampleContext "s1" 50
     = repeat "s"%char 180 ++ Tokens.truncationMarker
  /\ PipelineMemory.getStepOutputForBudget sampleContext "s1" 50
     <> sliceTo (PipelineMemory.summary sampleStep) (specTargetChars sampleStep 50)
        ++ Tokens.truncationMarker.
Proof. vm_compute; repeat split; discriminate. Qed.

(** Under a budget of -1 the ratio is negative, the number of
    characters is -3, and the cut is counted from the end: the summary
    without its last three characters. *)
Lemma getStepOutputForBudget_negative_budget :
  PipelineMemory.targetChars shortStep (-1) = Fin (-3)
  /\ PipelineMemory.getStepOutputForBudget shortContext "s2" (-1)
     = lit "abcdefg" ++ Tokens.truncationMarker.
Proof. vm_compute; repeat split. Qed.

(** ** Session compaction *)

Section Compaction.

Import Sessions.

Variable env : Env.

Lemma compressSession_noop (session : AgentSession) (config : Config) :
  len (messages session) <= cfgKeepRecentMessages config ->
  compressSession env session config = session.
Proof.
  intros Hfew; unfold compressSession.
  rewrite Z.max_l by lia.
  replace (slice (messages session) 0 0) with (@nil Message)
    by (now rewrite slice_prefix by lia).
  reflexivity.
Qed.

Lemma compressSession_folds (session : AgentSession) (config : Config) :
  0 <= cfgKeepRecentMessages config ->
  cfgKeepRecentMessages config < len (messages session) ->
  messages (compressSession env session config)
  = skipn (Z.to_nat (len (messages session) - cfgKeepRecentMessages config))
      (messages session)
  /\ totalTokens (compressSession env session config)
     = summaryTokens (compressSession env session config)
       + sumTokens (messages (compressSession env session config))
  /\ summaryTokens (compressSession env session config)
     = Tokens.estimateTokens (summary (compressSession env session config)).
Proof.
  intros Hkeep Hmany; unfold compressSession.
  set (msgs := messages session) in *.
  set (keep := cfgKeepRecentMessages config) in *.
  rewrite Z.max_r by lia.
  assert (Hold : len (slice msgs 0 (len msgs - keep)) = len msgs - keep).
  { rewrite slice_prefix by lia.
    unfold len; rewrite length_firstn; unfold len in Hmany; lia. }
  destruct (Z.eqb_spec (len (slice msgs 0 (len msgs - keep))) 0) as [H0 | _];
    [lia |].
  cbn [messages totalTokens summaryTokens summary].
  assert (Hrecent : sliceFrom msgs (len msgs - keep)
                    = skipn (Z.to_nat (len msgs - keep)) msgs).
  { unfold sliceFrom, clampIndex.
    destruct (Z.ltb_spec (len msgs - keep) 0); [lia |].
    now rewrite Z.min_l by lia. }
  rewrite Hrecent; repeat split.
Qed.

(** C3, as amended: with [keepRecentMessages] not negative, compaction
    returns the session as it is when it holds at most that many
    messages, hence also when [messageCount] is at most that many and
    the counter is not behind the messages held; when the session holds
    more messages, it keeps exactly the last [keepRecentMessages] of
    them, which is the least of that number and of the number of
    messages held (and of [messageCount] too, the counter not being
    behind), and the new total is the tokens of the summary plus those
    of the messages kept.  What is compared is the number of messages
    held, not the counter. *)
Theorem compressSession_compaction (session : AgentSession) (config : Config) :
  0 <= cfgKeepRecentMessages config ->
  (len (messages session) <= cfgKeepRecentMessages config ->
   compressSession env session config = session)
  /\ (counted session -> messageCount session <= cfgKeepRecentMessages config ->
      compressSession env session config = session)
  /\ (cfgKeepRecentMessages config < len (messages session) ->
      len (messages (compressSession env session config))
      = Z.min (cfgKeepRecentMessages config) (len (messages session))
      /\ (counted session ->
          len (messages (compressSession env session config))
          = Z.min (cfgKeepRecentMessages config) (messageCount session))
      /\ messages (compressSession env session config)
         = skipn (Z.to_nat (len (messages session) - cfgKeepRecentMessages config))
             (messages session)
      /\ totalTokens (compressSession env session config)
         = summaryTokens (compressSession env session config)
           + sumTokens (messages (compressSession env session config))).
Proof.
  intros Hkeep; split; [apply compressSession_noop |].
  split.
  - unfold counted; intros Hc Hfew; apply compressSession_noop; lia.
  - intros Hmany.
    destruct (compressSession_folds session config Hkeep Hmany) as (Hm & Ht & _).
    assert (Hlen : len (messages (compressSession env session config))
                   = cfgKeepRecentMessages config).
    { rewrite Hm; unfold len in *; rewrite length_skipn; lia. }
    repeat split; auto.
    + lia.
    + unfold counted; intros Hc; lia.
Qed.

(** The counter stays ahead of the messages. *)
Lemma compressSession_counted (session : AgentSession) (config : Config) :
  counted session -> counted (compressSession env session config).
Proof.
  unfold counted, compressSession; intros Hc.
  destruct (_ =? 0); [exact Hc |].
  cbn [messages messageCount].
  unfold sliceFrom, len in *; rewrite length_skipn; lia.
Qed.

Lemma addMessage_counted (disk : Disk) (session : AgentSession) (r : role)
    (text : str) (config : SessionConfig) :
  counted session -> counted (fst (addMessage env disk session r text config)).
Proof.
  intros Hc; unfold addMessage; cbn [fst].
  assert (Hnew : counted
            {| id := id session; agent := agent session;
               messages := messages session
                 ++ [{| msgRole := r; content := text;
                        tokens := Tokens.estimateTokens text;
                        timestamp := now env |}];
               summary := summary session;
               summaryTokens := summaryTokens session;
               totalTokens := totalTokens session + Tokens.estimateTokens text;
               messageCount := messageCount session + 1;
               createdAt := createdAt session;
               updatedAt := now env |}).
  { unfold counted in *; cbn [messages messageCount].
    rewrite len_app; change (len [_]) with 1; lia. }
  destruct (_ >? _); [now apply compressSession_counted | exact Hnew].
Qed.

End Compaction.

Lemma newSession_counted (sessionId agentName : string) (time : Z) :
  Sessions.counted (Sessions.newSession sessionId agentName time).
Proof. unfold Sessions.counted; simpl; unfold len; simpl; lia. Qed.

Lemma compressSession_compaction_witness :
  len (Sessions.messages (Sessions.compressSession offlineEnv sampleSession (keeping 2))) = 2
  /\ Sessions.totalTokens (Sessions.compressSession offlineEnv sampleSession (keeping 2))
     = Sessions.summaryTokens (Sessions.compressSession offlineEnv sampleSession (keeping 2))
       + Sessions.sumTokens
           (Sessions.messages (Sessions.compressSession offlineEnv sampleSession (keeping 2))).
Proof.
  destruct (compressSession_compaction offlineEnv sampleSession (keeping 2)) as (_ & _ & H).
  - vm_compute; discriminate.
  - destruct H as (Hlen & _ & _ & Htotal).
    + vm_compute; reflexivity.
    + split; [exact Hlen | exact Htotal].
Defined.

(** C3 as stated fails in two ways.  For a negative
    [keepRecentMessages] the split index passes the end of the list,
    every message is folded, none is kept, and the least of -1 and 3 is
    not 0.  And the counter is not what compaction reads: a session that
    three calls of [addMessage] have built holds one message under a
    counter of 3; with two messages to keep its compaction changes
    nothing, and one message is not the least of 2 and 3. *)
Lemma compressSession_count_mismatch :
  (Sessions.cfgKeepRecentMessages (keeping (-1)) < Sessions.messageCount sampleSession
   /\ Sessions.cfgKeepRecentMessages (keeping (-1)) < len (Sessions.messages sampleSession)
   /\ Sessions.messages (Sessions.compressSession offlineEnv sampleSession (keeping (-1)))
      = []
   /\ len (Sessions.messages
             (Sessions.compressSession offlineEnv sampleSession (keeping (-1))))
      <> Z.min (Sessions.cfgKeepRecentMessages (keeping (-1)))
           (Sessions.messageCount sampleSession))
  /\ (len (Sessions.messages builtSession) = 1
      /\ Sessions.messageCount builtSession = 3
      /\ Sessions.cfgKeepRecentMessages (keeping 2) < Sessions.messageCount builtSession
      /\ Sessions.compressSession offlineEnv builtSession (keeping 2) = builtSession
      /\ len (Sessions.messages
                (Sessions.compressSession offlineEnv builtSession (keeping 2)))
         <> Z.min (Sessions.cfgKeepRecentMessages (keeping 2))
              (Sessions.messageCount builtSession)).
Proof. vm_compute; repeat split; discriminate. Qed.

(** The counter is not what compaction reads: a session whose counter is
    behind its list of messages is compacted all the same. *)
Lemma compressSession_reads_messages :
  Sessions.messageCount uncountedSession <= Sessions.cfgKeepRecentMessages (keeping 2)
  /\ len (Sessions.messages (Sessions.compressSession offlineEnv uncountedSession (keeping 2)))
     = 2
  /\ Sessions.compressSession offlineEnv uncountedSession (keeping 2) <> uncountedSession.
Proof. vm_compute; repeat split; discriminate. Qed.

(** ** The store behind a search *)

Lemma initVectorStore_state (w : VectorStore.World) (s : VectorStore.Store) :
  VectorStore.initialized (snd (VectorStore.initVectorStore w s)) = true
  /\ (VectorStore.initialized s = true -> snd (VectorStore.initVectorStore w s) = s)
  /\ (VectorStore.isOllama (VectorStore.getProvider w) = false ->
      VectorStore.lanceDb (snd (VectorStore.initVectorStore w s)) = VectorStore.lanceDb s
      /\ VectorStore.lanceTable (snd (VectorStore.initVectorStore w s))
         = VectorStore.lanceTable s).
Proof.
  unfold VectorStore.initVectorStore, VectorStore.initLanceDB.
  destruct (VectorStore.initialized s) eqn:Hinit.
  - cbn [snd]; repeat split; assumption.
  - destruct (VectorStore.isOllama (VectorStore.getProvider w)).
    + destruct (VectorStore.lanceConnect w); cbn; repeat split; discriminate.
    + cbn; repeat split; discriminate.
Qed.

Lemma search_unfold (w : VectorStore.World) (query : str)
    (ty : option VectorStore.MemoryType) (limit : option Z) (s : VectorStore.Store) :
  VectorStore.search w query ty limit s
  = let s1 := snd (VectorStore.initVectorStore w s) in
    if VectorStore.lanceTable s1 && VectorStore.isOllama (VectorStore.getProvider w)
    then VectorStore.searchVector w query ty limit s1
    else (VectorStore.searchFTS w query ty limit, s1).
Proof.
  unfold VectorStore.search, VectorStore.bind.
  now destruct (VectorStore.initVectorStore w s) as [[] s1].
Qed.

Lemma searchVector_state (w : VectorStore.World) (query : str)
    (ty : option VectorStore.MemoryType) (limit : option Z) (s : VectorStore.Store) :
  snd (VectorStore.searchVector w query ty limit s) = s.
Proof.
  unfold VectorStore.searchVector.
  destruct (_ || _); [reflexivity |].
  destruct (VectorStore.embed w query); [| reflexivity].
  now destruct (VectorStore.lanceSearch w _ _).
Qed.

(** With no vector table open after the initialization, or with a query
    that cannot be embedded, a search is the full-text search. *)
Lemma search_closed (w : VectorStore.World) (query : str)
    (ty : option VectorStore.MemoryType) (limit : option Z) (s : VectorStore.Store) :
  VectorStore.lanceTable (snd (VectorStore.initVectorStore w s)) = false
  \/ VectorStore.embed w query = None ->
  VectorStore.search w query ty limit s
  = (VectorStore.searchFTS w query ty limit, snd (VectorStore.initVectorStore w s)).
Proof.
  intros Hclosed; rewrite search_unfold; cbv zeta.
  destruct (VectorStore.lanceTable (snd (VectorStore.initVectorStore w s))) eqn:Htable;
    [| reflexivity].
  destruct Hclosed as [Hclosed | Hembed]; [discriminate |].
  destruct (VectorStore.isOllama (VectorStore.getProvider w)) eqn:Hprov;
    [| reflexivity].
  cbn [andb]; unfold VectorStore.searchVector.
  now rewrite Htable, Hprov, Hembed.
Qed.

Lemma searchTypes_closed (w : VectorStore.World) (query : str) (perType : Z)
    (ts : list VectorStore.MemoryType) :
  forall s,
    VectorStore.lanceTable (snd (VectorStore.initVectorStore w s)) = false
    \/ VectorStore.embed w query = None ->
    Retriever.searchTypes w query ts perType s
    = (flat_map (fun t => VectorStore.searchFTS w query (Some t) (Some perType)) ts,
       match ts with
       | [] => s
       | _ => snd (VectorStore.initVectorStore w s)
       end).
Proof.
  induction ts as [| t rest IH]; intros s Hclosed; [reflexivity |].
  cbn [Retriever.searchTypes flat_map]; unfold VectorStore.bind, VectorStore.ret.
  rewrite (search_closed w query (Some t) (Some perType) s Hclosed).
  destruct (initVectorStore_state w s) as (Hinit & _).
  destruct (initVectorStore_state w (snd (VectorStore.initVectorStore w s)))
    as (_ & Hsame & _).
  specialize (Hsame Hinit).
  rewrite IH by (rewrite Hsame; exact Hclosed).
  rewrite Hsame; now destruct rest.
Qed.

Lemma searchAll_closed (w : VectorStore.World) (query : str)
    (o : Retriever.RetrievalOptions) (s : VectorStore.Store) :
  VectorStore.lanceTable (snd (VectorStore.initVectorStore w s)) = false
  \/ VectorStore.embed w query = None ->
  fst (Retriever.searchAll w query o s) = searchAllFullText w query o.
Proof.
  intros Hclosed; unfold Retriever.searchAll, searchAllFullText.
  destruct (Retriever.optTypes o) as [| t ts].
  - now rewrite search_closed.
  - now rewrite searchTypes_closed.
Qed.

(** ** Retrieval *)

Section Retrieval.

Import VectorStore Retriever.

(** The loop accepts a prefix of its input and stops at the first result
    that does not fit. *)
Lemma pack_prefix (maxTokens : Z) (rs : list SearchResult) (items0 : list MemoryItem)
    (total0 : Z) :
  exists k,
    pack maxTokens rs items0 total0
    = (items0 ++ map item (firstn k rs), total0 + sumZ (map itemTokens (firstn k rs)))
    /\ (total0 <= maxTokens ->
        total0 + sumZ (map itemTokens (firstn k rs)) <= maxTokens)
    /\ (forall r, nth_error rs k = Some r ->
        maxTokens < total0 + sumZ (map itemTokens (firstn k rs)) + itemTokens r).
Proof.
  revert items0 total0; induction rs as [| r rest IH]; intros items0 total0; simpl.
  - exists 0%nat; simpl; rewrite app_nil_r, Z.add_0_r.
    repeat split; [lia | discriminate].
  - fold (itemTokens r).
    destruct (Z.gtb_spec (total0 + itemTokens r) maxTokens) as [Hover | Hfits].
    + exists 0%nat; simpl; rewrite app_nil_r, Z.add_0_r.
      repeat split; [lia |].
      intros r' [= <-]; lia.
    + destruct (IH (items0 ++ [item r]) (total0 + itemTokens r)) as (k & -> & Hle & Hstop).
      exists (S k); simpl.
      rewrite <- app_assoc; simpl.
      repeat split.
      * f_equal; lia.
      * intros _; specialize (Hle Hfits); lia.
      * intros r' Hr'; specialize (Hstop r' Hr'); lia.
Qed.

Lemma insertByScore_sorted (x : SearchResult) (l : list SearchResult) :
  StronglySorted (fun a b => (score b <= score a)%Q) l ->
  StronglySorted (fun a b => (score b <= score a)%Q) (insertByScore x l)
  /\ (forall c : Q, (score x <= c)%Q -> Forall (fun b => (score b <= c)%Q) l ->
      Forall (fun b => (score b <= c)%Q) (insertByScore x l)).
Proof.
  induction l as [| y rest IH]; intros Hs; simpl.
  - split; [repeat constructor | intros c Hc _; repeat constructor; exact Hc].
  - apply StronglySorted_inv in Hs as [Hrest Hy].
    destruct (Qle_bool (score y) (score x)) eqn:Hcmp.
    + apply Qle_bool_iff in Hcmp.
      split.
      * constructor; [constructor; assumption |].
        constructor; [exact Hcmp |].
        eapply Forall_impl; [| exact Hy].
        intros b Hb; cbv beta in Hb; eapply Qle_trans; eauto.
      * intros c Hc Hall; constructor; assumption.
    + assert (Hlt : (score x < score y)%Q).
      { apply Qnot_le_lt; intros Hle; apply Qle_bool_iff in Hle; congruence. }
      destruct (IH Hrest) as [Hsorted Hbound].
      split.
      * constructor; [exact Hsorted |].
        apply Hbound; [now apply Qlt_le_weak | exact Hy].
      * intros c Hc Hall.
        apply Forall_cons_iff in Hall as [Hyc Hrestc].
        constructor; [exact Hyc | now apply Hbound].
Qed.

(** The matches are in the order of falling score. *)
Lemma ranked_sorted (o : RetrievalOptions) (results : list SearchResult) :
  StronglySorted (fun a b => (score b <= score a)%Q) (ranked o results).
Proof.
  unfold ranked, sortByScore.
  induction (filter _ results) as [| x l IH]; simpl; [constructor |].
  now apply insertByScore_sorted.
Qed.

(** Ranking keeps every match once, and adds none. *)
Lemma insertByScore_perm (x : SearchResult) (l : list SearchResult) :
  Permutation (insertByScore x l) (x :: l).
Proof.
  induction l as [| y rest IH]; simpl; [apply Permutation_refl |].
  destruct (Qle_bool (score y) (score x)); [apply Permutation_refl |].
  eapply Permutation_trans; [apply perm_skip, IH | apply perm_swap].
Qed.

Lemma ranked_perm (o : RetrievalOptions) (results : list SearchResult) :
  Permutation (ranked o results)
    (filter (fun r => Qle_bool (optMinScore o) (score r)) results).
Proof.
  unfold ranked, sortByScore.
  induction (filter _ results) as [| x l IH]; simpl; [apply Permutation_refl |].
  eapply Permutation_trans; [apply insertByScore_perm | now apply perm_skip].
Qed.

Lemma itemTokens_nonneg (r : SearchResult) : 0 <= itemTokens r.
Proof.
  unfold itemTokens, Retriever.estimateTokens, ceilDiv.
  pose proof (len_nonneg (content (item r))) as Hlen.
  pose proof (Z.div_mod (- len (content (item r))) 4 ltac:(lia)).
  pose proof (Z.mod_pos_bound (- len (content (item r))) 4 ltac:(lia)).
  lia.
Qed.

(** Under a negative ceiling the loop accepts nothing. *)
Lemma pack_negative (maxTokens : Z) (rs : list SearchResult) :
  maxTokens < 0 -> pack maxTokens rs [] 0 = ([], 0).
Proof.
  intros Hneg; destruct rs as [| r rest]; [reflexivity |].
  cbn [pack]; fold (itemTokens r).
  pose proof (itemTokens_nonneg r).
  destruct (Z.gtb_spec (0 + itemTokens r) maxTokens); [reflexivity | lia].
Qed.

(** Every match kept has at least the minimum score, and every entry of
    the backfill has the score 0.05. *)
Lemma insertByScore_In (x y : SearchResult) (l : list SearchResult) :
  In y (insertByScore x l) -> y = x \/ In y l.
Proof.
  induction l as [| z rest IH]; simpl; [intuition |].
  destruct (Qle_bool (score z) (score x)); simpl; intuition.
Qed.

Lemma ranked_min_score (o : RetrievalOptions) (results : list SearchResult) :
  Forall (fun r => (optMinScore o <= score r)%Q) (ranked o results).
Proof.
  unfold ranked, sortByScore; apply Forall_forall; intros y.
  assert (Hf : forall z, In z (filter (fun r => Qle_bool (optMinScore o) (score r)) results) ->
                         (optMinScore o <= score z)%Q).
  { intros z Hz; apply filter_In in Hz as [_ Hz]; now apply Qle_bool_iff. }
  induction (filter _ results) as [| x l IH]; simpl; [contradiction |].
  intros Hy; apply insertByScore_In in Hy as [-> | Hy].
  - apply Hf; now left.
  - apply IH; [| exact Hy]. intros z Hz; apply Hf; now right.
Qed.

Lemma backfill_score (w : World) (o : RetrievalOptions) (filtered : list SearchResult) :
  Forall (fun r => score r = 1 # 20) (backfill w o filtered).
Proof.
  unfold backfill.
  destruct (_ && _); [| constructor].
  apply Forall_forall; intros r Hr.
  apply in_map_iff in Hr as (it & <- & _); reflexivity.
Qed.

Lemma StronglySorted_app {A} (R : A -> A -> Prop) (l1 l2 : list A) :
  StronglySorted R l1 -> StronglySorted R l2 ->
  (forall a b, In a l1 -> In b l2 -> R a b) ->
  StronglySorted R (l1 ++ l2).
Proof.
  intros H1 H2 Hcross; induction l1 as [| x l1 IH]; simpl; [exact H2 |].
  apply StronglySorted_inv in H1 as [Hs Hx].
  constructor.
  - apply IH; [exact Hs |]. intros a b Ha; apply Hcross; now right.
  - apply Forall_app; split; [exact Hx |].
    apply Forall_forall; intros b Hb; apply Hcross; [now left | exact Hb].
Qed.

Lemma StronglySorted_firstn {A} (R : A -> A -> Prop) (k : nat) (l : list A) :
  StronglySorted R l -> StronglySorted R (firstn k l).
Proof.
  revert k; induction l as [| x l IH]; intros k Hs; destruct k; simpl;
    try constructor.
  - apply IH; now apply StronglySorted_inv in Hs.
  - apply StronglySorted_inv in Hs as [_ Hx].
    rewrite Forall_forall in *; intros y Hy; apply Hx.
    rewrite <- (firstn_skipn k l); apply in_or_app; now left.
Qed.

(** Above a minimum score of 0.05 (the default is 0.1) the candidates
    are in the order of falling score from end to end. *)
Lemma candidates_sorted (w : World) (o : RetrievalOptions) (results : list SearchResult) :
  (1 # 20 < optMinScore o)%Q ->
  StronglySorted (fun a b => (score b <= score a)%Q) (candidates w o results).
Proof.
  intros Hmin; unfold candidates.
  destruct (slice_from_0_is_prefix
              (ranked o results ++ backfill w o (ranked o results)) (optLimit o))
    as [k ->].
  apply StronglySorted_firstn, StronglySorted_app.
  - apply ranked_sorted.
  - pose proof (backfill_score w o (ranked o results)) as Hb.
    induction Hb as [| x l Hx Hl IH]; constructor; [exact IH |].
    eapply Forall_impl; [| exact Hl].
    intros b Hbs; cbv beta in Hbs; rewrite Hx, Hbs; apply Qle_refl.
  - intros a b Ha Hb.
    pose proof (ranked_min_score o results) as Hr.
    pose proof (backfill_score w o (ranked o results)) as Hbf.
    rewrite Forall_forall in Hr, Hbf.
    rewrite (Hbf _ Hb).
    apply Qlt_le_weak; eapply Qlt_le_trans; [exact Hmin | now apply Hr].
Qed.

Variable w : World.

(** C4, as amended: the estimates of the items returned add up to
    [totalTokens]; under a ceiling that is not negative the total is at
    most [maxTokens], and under a negative ceiling nothing is returned
    and the total is 0.  The items are a prefix of the candidates, and
    the candidate after the last item accepted, when there is one, would
    have exceeded the ceiling.  The candidates are
    [slice(0, limit)] (the first [limit] entries when [limit] is not
    negative) of the matches followed by the backfill: the matches are
    the results that reach the minimum score, all of them and no other
    (a permutation of them), in the order of falling score; the entries
    of the backfill have the score 0.05; and the whole is one list of
    falling scores when the minimum score is above 0.05. *)
Theorem retrieve_within_ceiling (store : Store) (query : str) (o : RetrievalOptions) :
  let results := fst (searchAll w query o store) in
  let matches := ranked o results in
  let r := fst (retrieve w query o store) in
  totalTokens r = sumZ (map tokensOf (items r))
  /\ (0 <= optMaxTokens o -> sumZ (map tokensOf (items r)) <= optMaxTokens o)
  /\ (optMaxTokens o < 0 -> items r = [] /\ totalTokens r = 0)
  /\ (exists k,
        items r = map item (firstn k (candidates w o results))
        /\ forall next, nth_error (candidates w o results) k = Some next ->
                        optMaxTokens o < totalTokens r + tokensOf (item next))
  /\ candidates w o results = slice (matches ++ backfill w o matches) 0 (optLimit o)
  /\ (0 <= optLimit o ->
      candidates w o results
      = firstn (Z.to_nat (optLimit o)) (matches ++ backfill w o matches))
  /\ Permutation matches
       (filter (fun result => Qle_bool (optMinScore o) (score result)) results)
  /\ StronglySorted (fun a b => (score b <= score a)%Q) matches
  /\ Forall (fun recent => score recent = 1 # 20) (backfill w o matches)
  /\ ((1 # 20 < optMinScore o)%Q ->
      StronglySorted (fun a b => (score b <= score a)%Q) (candidates w o results)).
Proof.
  intros results matches r.
  subst r matches results; unfold retrieve, bind, ret.
  destruct (searchAll w query o store) as [results store'] eqn:Hsearch; cbn [fst].
  destruct (pack_prefix (optMaxTokens o) (candidates w o results) [] 0)
    as (k & Hpack & Hle & Hstop).
  pose proof (pack_negative (optMaxTokens o) (candidates w o results)) as Hneg.
  destruct (pack (optMaxTokens o) (candidates w o results) [] 0) as [its total].
  cbn [fst items totalTokens].
  injection Hpack as -> ->; cbn [app].
  assert (Hsum : sumZ (map tokensOf (map item (firstn k (candidates w o results))))
                 = sumZ (map itemTokens (firstn k (candidates w o results)))).
  { now rewrite map_map. }
  rewrite Hsum, Z.add_0_l in *.
  split; [reflexivity |].
  split; [exact Hle |].
  split.
  { intros Hbelow; specialize (Hneg Hbelow); injection Hneg as Hits Htotal.
    now rewrite Hits, Htotal. }
  split; [exists k; split; [reflexivity | exact Hstop] |].
  split; [reflexivity |].
  split; [intros Hlimit; unfold candidates; now apply slice_prefix |].
  split; [apply ranked_perm |].
  split; [apply ranked_sorted |].
  split; [apply backfill_score | apply candidates_sorted].
Qed.

(** C10: the method reported follows the provider flag of the embedding
    module alone: it is [vector] exactly when the flag is [ollama],
    [fts5] otherwise, and never [recency]; two calls under the same flag
    report the same method, whatever the store, the query, the options
    and the searches give; and this is so also when no vector table is
    open or the query cannot be embedded, and every search made was the
    full-text search. *)
Theorem retrieve_method_is_provider_flag (store : Store) (query : str)
    (o : RetrievalOptions) :
  let method := searchMethod (fst (retrieve w query o store)) in
  (method = vector <-> currentProvider w = ProviderOllama)
  /\ (method = fts5 <-> currentProvider w <> ProviderOllama)
  /\ method <> recency
  /\ (forall other store' query' o',
        currentProvider other = currentProvider w ->
        searchMethod (fst (retrieve other query' o' store')) = method)
  /\ (lanceTable (snd (initVectorStore w store)) = false \/ embed w query = None ->
      fst (searchAll w query o store) = searchAllFullText w query o
      /\ (currentProvider w = ProviderOllama -> method = vector)).
Proof.
  assert (Hmethod : forall world s q opts,
             searchMethod (fst (retrieve world q opts s))
             = match currentProvider world with
               | ProviderOllama => vector
               | ProviderFts5 => fts5
               end).
  { intros world s q opts; unfold retrieve, bind, ret.
    destruct (searchAll world q opts s) as [results s'].
    destruct (pack _ _ _ _) as [its total]; cbn [fst searchMethod].
    unfold getProvider; now destruct (currentProvider world). }
  cbv zeta; rewrite Hmethod.
  split; [destruct (currentProvider w); split; congruence |].
  split; [destruct (currentProvider w); split; congruence |].
  split; [destruct (currentProvider w); discriminate |].
  split; [intros other store' query' o' Hflag; now rewrite Hmethod, Hflag |].
  intros Hclosed; split; [now apply searchAll_closed | now intros ->].
Qed.

End Retrieval.

(** ** Retrieval at work *)

(** Under a ceiling of 8 tokens the best match (5 tokens) is taken, the
    next (5 tokens) does not fit, and the loop stops there: the last
    (1 token) is not looked at. *)
Lemma retrieve_within_ceiling_witness :
  Retriever.items
    (fst (Retriever.retrieve worldWithoutIndex (lit "sort") (optionsWithCeiling 8) freshStore))
  = [VectorStore.itemOfRow rowB]
  /\ Retriever.totalTokens
       (fst (Retriever.retrieve worldWithoutIndex (lit "sort") (optionsWithCeiling 8) freshStore))
     <= 8.
Proof.
  destruct (retrieve_within_ceiling worldWithoutIndex freshStore (lit "sort")
              (optionsWithCeiling 8))
    as (Htotal & Hsum & _).
  split; [vm_compute; reflexivity |].
  rewrite Htotal; apply Hsum.
  vm_compute; discriminate.
Defined.

(** The three ways in which the method reported says nothing of the
    search made: no vector table, a vector search that fell back on the
    full-text search, and a result made of recent items only. *)
Lemma retrieve_method_examples :
  (Retriever.searchMethod
     (fst (Retriever.retrieve worldWithoutIndex (lit "sort") (optionsWithCeiling 100) freshStore))
   = Retriever.vector
   /\ VectorStore.lanceTable
        (snd (Retriever.retrieve worldWithoutIndex (lit "sort") (optionsWithCeiling 100) freshStore))
      = false)
  /\ (Retriever.searchMethod
        (fst (Retriever.retrieve worldWithoutEmbedding (lit "sort") (optionsWithCeiling 100)
                freshStore))
      = Retriever.vector
      /\ VectorStore.lanceTable
           (snd (Retriever.retrieve worldWithoutEmbedding (lit "sort") (optionsWithCeiling 100)
                   freshStore))
         = true
      /\ Retriever.items
           (fst (Retriever.retrieve worldWithoutEmbedding (lit "sort") (optionsWithCeiling 100)
                   freshStore))
         = map VectorStore.itemOfRow [rowB; rowA; rowC])
  /\ (Retriever.searchMethod
        (fst (Retriever.retrieve worldWithRecentOnly (lit "sort") (optionsWithCeiling 100)
                freshStore))
      = Retriever.fts5
      /\ Retriever.items
           (fst (Retriever.retrieve worldWithRecentOnly (lit "sort") (optionsWithCeiling 100)
                   freshStore))
         = map VectorStore.itemOfRow [rowC; rowA]).
Proof. vm_compute; repeat split. Qed.

(** C4 as stated fails in two ways.  For a negative ceiling nothing is
    accepted, and the total of nothing, 0, is above the ceiling.  And
    with no minimum score (the options of [retrievePatternContext]) a
    match of score 0.01 is accepted before a recent item of score 0.05:
    the order is that of the candidates, not that of the scores. *)
Lemma retrieve_ceiling_and_order :
  (Retriever.items
     (fst (Retriever.retrieve worldWithoutIndex (lit "sort") (optionsWithCeiling (-1))
             freshStore))
   = []
   /\ Retriever.totalTokens
        (fst (Retriever.retrieve worldWithoutIndex (lit "sort") (optionsWithCeiling (-1))
                freshStore))
      = 0
   /\ ~ (sumZ (map tokensOf
                (Retriever.items
                   (fst (Retriever.retrieve worldWithoutIndex (lit "sort")
                           (optionsWithCeiling (-1)) freshStore))))
         <= Retriever.optMaxTokens (optionsWithCeiling (-1))))
  /\ (map VectorStore.score
        (Retriever.candidates worldWithFaintMatch patternOptions
           (fst (Retriever.searchAll worldWithFaintMatch (lit "indent") patternOptions
                   freshStore)))
      = [1 # 100; 1 # 20]
      /\ Retriever.items
           (fst (Retriever.retrieve worldWithFaintMatch (lit "indent") patternOptions
                   freshStore))
         = map VectorStore.itemOfRow [rowFaint; rowUnmatched]
      /\ (1 # 100 < 1 # 20)%Q).
Proof.
  vm_compute; repeat split; try discriminate.
  intros H; apply H; reflexivity.
Qed.

(** * Further properties *)

(** ** Budgets and cuts *)

(** X1: every agent name that is not one an object literal inherits has
    a configuration: its own when the name is a key of the table, that
    of ollama when it is not; and none is tighter than the one unknown
    names fall back on: at least 8000 tokens, chunks of at least 2000,
    and at least [7000 - usedTokens] tokens available. *)
Theorem getTokenConfig_floor (agent : string) (usedTokens : Z) :
  inheritedName agent = false ->
  8000 <= Tokens.maxTokens (Tokens.getTokenConfig agent)
  /\ 2000 <= Tokens.chunkSize (Tokens.getTokenConfig agent)
  /\ 7000 - usedTokens <= Tokens.getAvailableTokens agent usedTokens
  /\ (forall own,
        Tokens.ADAPTER_LIMITS agent = Some own ->
        Tokens.getTokenConfig agent = own
        /\ Tokens.getAvailableTokens agent usedTokens
           = Tokens.maxTokens own - Tokens.reserveTokens own - usedTokens)
  /\ (Tokens.ADAPTER_LIMITS agent = None ->
      Tokens.getTokenConfig agent = Tokens.limits Tokens.ollama
      /\ Tokens.getAvailableTokens agent usedTokens = 7000 - usedTokens).
Proof.
  intros _.
  unfold Tokens.getAvailableTokens, Tokens.getTokenConfig, Tokens.ADAPTER_LIMITS.
  destruct (Tokens.adapterOfName agent) as [[]|];
    cbn [option_map Tokens.limits Tokens.maxTokens Tokens.reserveTokens Tokens.chunkSize];
    repeat split; try lia; try congruence;
    match goal with
    | H : Some _ = Some _ |- _ => injection H as <-; cbn; lia
    end.
Qed.

Lemma getTokenConfig_floor_witness :
  Tokens.getTokenConfig "mistral" = Tokens.limits Tokens.ollama
  /\ Tokens.getAvailableTokens "mistral" 7002 = -2.
Proof.
  destruct (getTokenConfig_floor "mistral" 7002 eq_refl) as (_ & _ & _ & _ & Hunknown).
  now apply Hunknown.
Defined.

Lemma firstn_of_prefix {A} (l : list A) (k : nat) (e : Z) :
  exists j, slice (firstn k l) 0 e = firstn j l.
Proof.
  destruct (slice_from_0_is_prefix (firstn k l) e) as [j ->].
  exists (Nat.min j k); apply firstn_firstn.
Qed.

(** X2: for an agent name that is not an inherited one, a text that
    fits the context comes back from [truncateForAgent] as it is, and
    one that does not comes back as one of its own prefixes followed by
    the marker. *)
Theorem truncateForAgent_cuts (text : str) (agent : string) (usedTokens : Z) :
  inheritedName agent = false ->
  (Tokens.fitsInContext text agent usedTokens = true ->
   Tokens.truncateForAgent text agent usedTokens = text)
  /\ (Tokens.fitsInContext text agent usedTokens = false ->
      exists k,
        Tokens.truncateForAgent text agent usedTokens
        = firstn k text ++ Tokens.truncationMarker).
Proof.
  intros _.
  unfold Tokens.fitsInContext.
  set (available := Tokens.getAvailableTokens agent usedTokens).
  assert (Hfit : Tokens.estimateTokens text <= available <-> len text <= available * 4).
  { rewrite estimateTokens_ceilDiv; split; intros H.
    - destruct (Z.le_gt_cases (len text) (available * 4)) as [|Hgt]; [assumption |].
      pose proof (ceilDiv_gt (len text) available ltac:(lia)); lia.
    - apply ceilDiv_le; lia. }
  split; intros H.
  - apply Z.leb_le, Hfit in H.
    unfold Tokens.truncateForAgent, Tokens.CHARS_PER_TOKEN; fold available.
    destruct (Z.leb_spec (len text) (available * 4)); [reflexivity | lia].
  - apply Z.leb_gt in H.
    assert (Hlong : available * 4 < len text).
    { destruct (Z.le_gt_cases (len text) (available * 4)) as [Hle |]; [| lia].
      apply Hfit in Hle; lia. }
    unfold Tokens.truncateForAgent, Tokens.CHARS_PER_TOKEN; fold available.
    destruct (Z.leb_spec (len text) (available * 4)); [lia |].
    destruct (slice_from_0_is_prefix text (available * 4)) as [k ->].
    destruct (Tokens.exceedsShare _ _ 0.7).
    + destruct (firstn_of_prefix text k (lastIndexOf (firstn k text) [nl; nl]))
        as [j ->]; eauto.
    + destruct (Tokens.exceedsShare _ _ 0.8).
      * destruct (firstn_of_prefix text k (lastIndexOf (firstn k text) (lit ". ") + 1))
          as [j ->]; eauto.
      * eauto.
Qed.

Lemma truncateForAgent_cuts_witness :
  Tokens.truncateForAgent (lit "abcd") "ollama" 6999 = lit "abcd"
  /\ exists k,
       Tokens.truncateForAgent (lit "abcdefgh") "ollama" 6999
       = firstn k (lit "abcdefgh") ++ Tokens.truncationMarker.
Proof.
  split.
  - now apply (truncateForAgent_cuts (lit "abcd") "ollama" 6999 eq_refl).
  - now apply (truncateForAgent_cuts (lit "abcdefgh") "ollama" 6999 eq_refl).
Defined.

(** ** Chunks are parts of the text *)

Lemma occurs_refl (s : str) : occurs s s.
Proof. exists [], []; now rewrite app_nil_r. Qed.

Lemma occurs_trans (a b c : str) : occurs a b -> occurs b c -> occurs a c.
Proof.
  intros (u & v & ->) (u' & v' & ->).
  exists (u' ++ u), (v ++ v'); now rewrite <- !app_assoc.
Qed.

Lemma occurs_firstn (k : nat) (s : str) : occurs (firstn k s) s.
Proof. exists [], (skipn k s); simpl; now rewrite firstn_skipn. Qed.







(** X3: [splitIntoChunks] returns a list of chunks for every text and
    every agent name that is not an inherited one, and a larger bound on
    the turns of its loop gives the same list. *)
Theorem splitIntoChunks_returns (text : str) (agent : string) :
  inheritedName agent = false ->
  exists chunks,
    Tokens.splitIntoChunks text agent = Some chunks
    /\ forall extra,
         Tokens.splitIntoChunks_fuel (S (List.length text) + extra) text agent
         = Some chunks.
Proof.
  intros _.
  unfold Tokens.splitIntoChunks, Tokens.splitIntoChunks_fuel.
  destruct (_ <=? _); [eauto |].
  destruct (splitLoop_terminates (S (List.length text))
              (Tokens.chunkSize (Tokens.getTokenConfig agent) * Tokens.CHARS_PER_TOKEN)
              text) as [chunks Hchunks].
  - pose proof (chunkSize_positive agent); unfold Tokens.CHARS_PER_TOKEN; lia.
  - lia.
  - exists chunks; split; [exact Hchunks |].
    intros extra; now apply splitLoop_fuel_mono.
Qed.

Lemma splitIntoChunks_returns_witness :
  exists chunks,
    Tokens.splitIntoChunks longSentence "ollama" = Some chunks
    /\ forall extra,
         Tokens.splitIntoChunks_fuel (S (List.length longSentence) + extra)
           longSentence "ollama"
         = Some chunks.
Proof. exact (splitIntoChunks_returns longSentence "ollama" eq_refl). Defined.



(** ** Code blocks: what is taken out and put back *)

Lemma indexOf_least (p u v : str) :
  exists n, indexOf p (u ++ p ++ v) = Some n /\ (n <= List.length u)%nat.
Proof.
  induction u as [| x u (n & Hn & Hle)]; simpl.
  - exists 0%nat; split; [| lia].
    destruct (p ++ v) eqn:Hpv.
    + destruct p; [reflexivity | discriminate].
    + rewrite <- Hpv; simpl.
      pose proof (app_prefixb p v) as Hp; rewrite Hpv in *.
      unfold indexOf; now rewrite Hp.
  - destruct (prefixb p (x :: u ++ p ++ v)).
    + exists 0%nat; split; [reflexivity | lia].
    + exists (S n); rewrite Hn; split; [reflexivity | lia].
Qed.

(** In a text that has no placeholder before it, the placeholder found
    first is the one written. *)
Lemma replace_at_first (a b r : str) (i : nat) :
  ~ occurs (Summarizer.placeholder i) a -> ~ In "$"%char b ->
  replace (a ++ Summarizer.placeholder i ++ r) (Summarizer.placeholder i) b
  = a ++ b ++ r.
Proof.
  intros Hclean Hplain.
  pose proof (placeholder_not_nil i) as Hnil.
  pose proof (placeholder_head i) as Hhead.
  pose proof (placeholderTail_no_bracket i) as Htail.
  remember (Summarizer.placeholder i) as p eqn:Hp; clear Hp.
  unfold replace.
  destruct (indexOf_least p a r) as (n & Hn & Hle).
  rewrite Hn.
  pose proof (indexOf_Some _ _ _ Hn) as Hs.
  remember (firstn n (a ++ p ++ r)) as pre eqn:Hpre.
  remember (skipn (n + List.length p) (a ++ p ++ r)) as post eqn:Hpost.
  rewrite (getSubstitution_plain _ _ _ _ Hplain).
  assert (Hlen : (List.length pre <= List.length a)%nat).
  { subst pre; rewrite length_firstn; lia. }
  clear Hpre Hpost Hn.
  assert (Hsame : pre = a /\ post = r); [| now destruct Hsame as [-> ->]].
  destruct (two_occurrences a p r pre p post Hnil Hs)
    as [[l ->] | [[l ->] | [(l & l' & Hp & Hl' & Hq) | (l & l' & Hp & Hl & Hl' & Hq)]]].
  - exfalso; rewrite !length_app in Hlen.
    destruct p; [congruence | simpl in Hlen; lia].
  - exfalso; apply Hclean; exists pre, l.
    replace (pre ++ p ++ l ++ p ++ r) with ((pre ++ p ++ l) ++ p ++ r) in Hs
      by now rewrite <- !app_assoc.
    now apply app_inv_tail in Hs.
  - destruct l as [| c l].
    + simpl in Hp; subst l'; apply app_inv_head in Hq; subst post.
      split; [| reflexivity].
      replace (a ++ p ++ r) with ((a ++ p) ++ r) in Hs by now rewrite <- app_assoc.
      replace (pre ++ p ++ r) with ((pre ++ p) ++ r) in Hs by now rewrite <- app_assoc.
      apply app_inv_tail, app_inv_tail in Hs; congruence.
    + exfalso; destruct l' as [| d l']; [congruence |].
      rewrite Hhead in Hq; injection Hq as <- _.
      rewrite Hhead in Hp; injection Hp as _ Hp.
      apply Htail; rewrite Hp; apply in_or_app; right; now left.
  - exfalso; destruct l as [| c l]; [congruence |].
    destruct l' as [| d l']; [congruence |].
    rewrite Hhead in Hq; injection Hq as <- _.
    rewrite Hhead in Hp; injection Hp as _ Hp.
    apply Htail; rewrite Hp; apply in_or_app; right; now left.
Qed.

Lemma fencedAt_positive (s : str) (n : nat) :
  Summarizer.fencedAt s = Some n -> (1 <= n)%nat.
Proof.
  unfold Summarizer.fencedAt.
  destruct (prefixb _ _); [| discriminate].
  destruct (indexOf _ _); [| discriminate].
  intros [= <-]; lia.
Qed.

Lemma occurs_app_l (p a b : str) : occurs p a -> occurs p (a ++ b).
Proof.
  intros (u & v & ->); exists u, (v ++ b); now rewrite <- !app_assoc.
Qed.

Lemma occurs_cons (p s : str) (c : ascii) : occurs p s -> occurs p (c :: s).
Proof. intros (u & v & ->); now exists (c :: u), v. Qed.

Lemma extractScan_restore (s : str) :
  forall (skip count : nat) (done : str),
    (forall i, ~ occurs (Summarizer.placeholder i) (done ++ skipn skip s)) ->
    Forall (fun b => ~ In "$"%char b) (fst (Summarizer.extractScan s skip count)) ->
    Summarizer.restoreFrom count (fst (Summarizer.extractScan s skip count))
      (done ++ snd (Summarizer.extractScan s skip count))
    = done ++ skipn skip s.
Proof.
  induction s as [| c t IH]; intros skip count done Hclean Hplain.
  - now destruct skip.
  - destruct skip as [| k]; [| exact (IH k count done Hclean Hplain)].
    cbn [Summarizer.extractScan] in *.
    destruct (Summarizer.fencedAt (c :: t)) as [n |] eqn:Hf.
    + pose proof (fencedAt_positive _ _ Hf) as Hn.
      destruct n as [| m]; [lia |].
      replace (S m - 1)%nat with m in * by lia.
      specialize (IH m (S count) (done ++ firstn (S m) (c :: t))).
      destruct (Summarizer.extractScan t m (S count)) as [code out].
      cbn [fst snd Summarizer.restoreFrom skipn] in *.
      inversion Hplain as [| ? ? Hb Hrest]; subst.
      rewrite replace_at_first; [| | exact Hb].
      * rewrite app_assoc, IH; [| | exact Hrest].
        -- rewrite <- app_assoc; f_equal.
           cbn [firstn app]; now rewrite firstn_skipn.
        -- intros i; rewrite <- app_assoc.
           cbn [firstn app]; rewrite firstn_skipn; apply Hclean.
      * intros H; apply (Hclean count); now apply occurs_app_l.
    + specialize (IH 0%nat count (done ++ [c])).
      destruct (Summarizer.extractScan t 0 count) as [code out].
      cbn [fst snd skipn] in *.
      replace (done ++ c :: out) with ((done ++ [c]) ++ out)
        by now rewrite <- app_assoc.
      rewrite IH; [now rewrite <- app_assoc | | exact Hplain].
      intros i; rewrite <- app_assoc; apply Hclean.
Qed.

(** X5: taking the code blocks out of a text and putting them back gives
    the text again, provided the text does not itself spell the opening
    of a placeholder and no block holds a dollar sign. *)
Theorem extractCodeBlocks_round_trip (text : str) :
  includes text (lit "[CODE_BLOCK_") = false ->
  Forall (fun block => ~ In "$"%char block)
    (fst (Summarizer.extractCodeBlocks text)) ->
  Summarizer.restoreCodeBlocks
    (snd (Summarizer.extractCodeBlocks text))
    (fst (Summarizer.extractCodeBlocks text))
  = text.
Proof.
  intros Hclean Hplain.
  unfold Summarizer.restoreCodeBlocks, Summarizer.extractCodeBlocks.
  apply (extractScan_restore text 0 0 []); [| exact Hplain].
  intros i (u & v & H).
  assert (Hin : includes text (lit "[CODE_BLOCK_") = true); [| congruence].
  apply includes_occurs.
  exists u, (String_of_nat i ++ lit "]" ++ v).
  cbn [skipn app] in H; rewrite H.
  unfold Summarizer.placeholder; now rewrite <- !app_assoc.
Qed.

Lemma extractCodeBlocks_round_trip_witness :
  Summarizer.restoreCodeBlocks
    (snd (Summarizer.extractCodeBlocks twoBlocks))
    (fst (Summarizer.extractCodeBlocks twoBlocks))
  = twoBlocks.
Proof.
  apply (extractCodeBlocks_round_trip twoBlocks).
  - reflexivity.
  - vm_compute; repeat constructor; intros H; simpl in H; intuition discriminate.
Defined.

Lemma prefixb_occurs (p s : str) : prefixb p s = true -> occurs p s.
Proof. intros H; apply prefixb_app in H as [t ->]; now exists [], t. Qed.

Lemma extractScan_parts (s : str) (skip count : nat) :
  Forall (fun b => occurs b s) (fst (Summarizer.extractScan s skip count)).
Proof.
  revert skip count; induction s as [| c t IH]; intros skip count.
  - constructor.
  - assert (Hup : forall l, Forall (fun b => occurs b t) l ->
                            Forall (fun b => occurs b (c :: t)) l).
    { intros l; apply Forall_impl; intros b; apply occurs_cons. }
    cbn [Summarizer.extractScan].
    destruct skip as [| k]; [| apply Hup, IH].
    destruct (Summarizer.fencedAt (c :: t)) as [n |].
    + specialize (IH (n - 1)%nat (S count)).
      destruct (Summarizer.extractScan t (n - 1) (S count)) as [code out].
      constructor; [apply occurs_firstn | now apply Hup].
    + specialize (IH 0%nat count).
      destruct (Summarizer.extractScan t 0 count) as [code out].
      now apply Hup.
Qed.

Lemma extractScan_no_fence (s : str) (count : nat) :
  ~ occurs Summarizer.fence s -> Summarizer.extractScan s 0 count = ([], s).
Proof.
  induction s as [| c t IH]; intros Hno; [reflexivity |].
  cbn [Summarizer.extractScan].
  assert (Hf : Summarizer.fencedAt (c :: t) = None).
  { unfold Summarizer.fencedAt.
    destruct (prefixb Summarizer.fence (c :: t)) eqn:Hp; [| reflexivity].
    exfalso; now apply Hno, prefixb_occurs. }
  rewrite Hf, IH; [reflexivity |].
  intros H; now apply Hno, occurs_cons.
Qed.

(** X6: every block that [extractCodeBlocks] takes out is a fenced part
    of the text, and a text without a fence is returned as it is, with
    no block. *)
Theorem extractCodeBlocks_blocks (text : str) :
  Forall (fun block => fenced block /\ occurs block text)
    (fst (Summarizer.extractCodeBlocks text))
  /\ (includes text Summarizer.fence = false ->
      Summarizer.extractCodeBlocks text = ([], text)).
Proof.
  split.
  - pose proof (extractScan_fenced text 0 0) as Hf.
    pose proof (extractScan_parts text 0 0) as Hp.
    unfold Summarizer.extractCodeBlocks.
    rewrite Forall_forall in *; intros b Hin; split; auto.
  - intros Hno; apply extractScan_no_fence.
    intros H; apply includes_occurs in H; congruence.
Qed.

(** ** The summary and its counts *)

(** X7: whatever the service does, the result of [summarize] reports the
    estimate of the text as [originalTokens] and the estimate of its own
    summary as [summaryTokens]; a text within the length limit comes back
    as it is with ratio 1, the service not being consulted; and when the
    service fails under a limit that is not negative, the summary is at
    most ten tokens above the limit. *)
Theorem summarize_accounts (generate : str -> outcome str) (text : str)
    (options : Summarizer.SummaryOptions) :
  let result := Summarizer.summarize generate text options in
  Summarizer.originalTokens result = Tokens.estimateTokens text
  /\ Summarizer.summaryTokens result = Tokens.estimateTokens (Summarizer.summary result)
  /\ (Tokens.estimateTokens text <= Summarizer.effectiveMaxLength options ->
      Summarizer.summary result = text
      /\ Summarizer.compressionRatio result = 1%float
      /\ forall other, Summarizer.summarize other text options = result)
  /\ (0 <= Summarizer.effectiveMaxLength options ->
      generate (Summarizer.promptFor text options) = Thrown ->
      Summarizer.summaryTokens result <= Summarizer.effectiveMaxLength options + 10).
Proof.
  unfold Summarizer.summarize.
  destruct (Z.leb_spec (Tokens.estimateTokens text)
              (Summarizer.effectiveMaxLength options)) as [Hshort | Hlong].
  - cbn; repeat split; try reflexivity; lia.
  - destruct (generate (Summarizer.promptFor text options)) as [response |];
      cbn -[Summarizer.failureTag]; repeat split; try reflexivity; try lia;
      try discriminate.
    intros Hm _.
    apply estimateTokens_le.
    rewrite len_app.
    pose proof (len_slice_prefix_le text (Summarizer.effectiveMaxLength options * 4)
                  ltac:(lia)).
    change (len Summarizer.failureTag) with 38; lia.
Qed.

(** X8: [summarizeIfNeeded] returns a text within the limit as it is; and
    since a limit of 0 or 1 gives a length limit of 0, which [summarize]
    reads as no limit given, a text of up to 500 tokens comes back as it
    is under such a limit too. *)
Theorem summarizeIfNeeded_small_limit (generate : str -> outcome str) (text : str)
    (tokenLimit : Z) :
  (Tokens.estimateTokens text <= tokenLimit ->
   Summarizer.summarizeIfNeeded generate text tokenLimit = text)
  /\ (0 <= tokenLimit <= 1 -> Tokens.estimateTokens text <= 500 ->
      Summarizer.summarizeIfNeeded generate text tokenLimit = text).
Proof.
  unfold Summarizer.summarizeIfNeeded.
  destruct (Z.leb_spec (Tokens.estimateTokens text) tokenLimit) as [Hfit | Hover].
  - split; reflexivity.
  - split; [lia |].
    intros Hlimit Hshort.
    assert (Hmax : floorZ (num tokenLimit * 0.8) = 0).
    { assert (Hcases : tokenLimit = 0 \/ tokenLimit = 1) by lia.
      destruct Hcases as [-> | ->]; vm_compute; reflexivity. }
    rewrite Hmax.
    unfold Summarizer.summarize.
    change (Summarizer.effectiveMaxLength _) with 500.
    destruct (Z.leb_spec (Tokens.estimateTokens text) 500); [reflexivity | lia].
Qed.

(** ** Key points *)











(** ** Recording and clearing steps *)

Section Dict.

Context {A : Type}.

Lemma lookup_insert_same (d : PipelineMemory.dict A) (k : string) (v : A) :
  PipelineMemory.lookup (PipelineSteps.insert d k v) k = Some v.
Proof.
  induction d as [| [k' v'] d IH]; simpl.
  - now rewrite String.eqb_refl.
  - destruct (String.eqb_spec k k') as [-> | Hk]; simpl.
    + now rewrite String.eqb_refl.
    + destruct (String.eqb_spec k k'); [congruence | exact IH].
Qed.

Lemma lookup_insert_other (d : PipelineMemory.dict A) (k other : string) (v : A) :
  other <> k ->
  PipelineMemory.lookup (PipelineSteps.insert d k v) other = PipelineMemory.lookup d other.
Proof.
  intros Hother; induction d as [| [k' v'] d IH]; simpl.
  - destruct (String.eqb_spec other k); [congruence | reflexivity].
  - destruct (String.eqb_spec k k') as [<- | Hk]; simpl.
    + destruct (String.eqb_spec other k); [congruence | reflexivity].
    + now rewrite IH.
Qed.

Lemma lookup_remove (d : PipelineMemory.dict A) (k id : string) :
  PipelineMemory.lookup (PipelineSteps.remove d k) id
  = if String.eqb id k then None else PipelineMemory.lookup d id.
Proof.
  induction d as [| [k' v'] d IH]; simpl.
  - now destruct (String.eqb id k).
  - destruct (String.eqb_spec k k') as [<- | Hk]; simpl.
    + rewrite IH; now destruct (String.eqb_spec id k).
    + rewrite IH.
      destruct (String.eqb_spec id k) as [Hid | Hid]; [| reflexivity].
      destruct (String.eqb_spec id k'); [congruence | reflexivity].
Qed.

Lemma lookup_fold_remove (ids : list string) (d : PipelineMemory.dict A) (id : string) :
  PipelineMemory.lookup (fold_left PipelineSteps.remove ids d) id
  = if existsb (String.eqb id) ids then None else PipelineMemory.lookup d id.
Proof.
  revert d; induction ids as [| k ids IH]; intros d; simpl; [reflexivity |].
  rewrite IH, lookup_remove.
  destruct (String.eqb id k); simpl; [| reflexivity].
  now destruct (existsb (String.eqb id) ids).
Qed.

End Dict.

Lemma memoryEntry_counted (env : PipelineSteps.Env) (cfg : PipelineSteps.MemoryConfig)
    (text : str) :
  let entry := PipelineSteps.memoryEntry env cfg text in
  PipelineMemory.raw entry = text
  /\ PipelineMemory.tokens entry = Tokens.estimateTokens text
  /\ PipelineMemory.summaryTokens entry
     = Tokens.estimateTokens (PipelineMemory.summary entry)
  /\ PipelineMemory.timestamp entry = PipelineSteps.now env.
Proof.
  unfold PipelineSteps.memoryEntry.
  destruct (_ && _); cbn; repeat split.
Qed.

(** X10: after [addStepResultWithMemory] the step id gives back the
    result and a memory entry that holds the content as [raw], its
    estimate as [tokens], the estimate of its summary as
    [summaryTokens] and the time of the call; the entry is the content
    itself, with no key points, when the content is within the threshold
    or the summarizer is out of reach; every other step id reads as
    before. *)
Theorem addStepResultWithMemory_records (env : PipelineSteps.Env)
    (ctx : PipelineSteps.RunContext) (result : PipelineMemory.StepResult)
    (outputAs : option string) :
  let after := PipelineSteps.core
                 (PipelineSteps.addStepResultWithMemory env ctx result outputAs) in
  PipelineMemory.lookup (PipelineMemory.steps after) (PipelineMemory.stepId result)
  = Some result
  /\ (exists entry,
        PipelineMemory.lookup (PipelineMemory.memory after) (PipelineMemory.stepId result)
        = Some entry
        /\ PipelineMemory.raw entry = contentOf result
        /\ PipelineMemory.tokens entry = Tokens.estimateTokens (contentOf result)
        /\ PipelineMemory.summaryTokens entry
           = Tokens.estimateTokens (PipelineMemory.summary entry)
        /\ PipelineMemory.timestamp entry = PipelineSteps.now env
        /\ (Tokens.estimateTokens (contentOf result)
              <= PipelineSteps.summarizeThreshold (PipelineSteps.config ctx)
            \/ PipelineSteps.summarizerAvailable env = false ->
            PipelineMemory.summary entry = contentOf result
            /\ PipelineMemory.keyPoints entry = []))
  /\ (forall other,
        other <> PipelineMemory.stepId result ->
        PipelineMemory.lookup (PipelineMemory.steps after) other
        = PipelineMemory.lookup (PipelineMemory.steps (PipelineSteps.core ctx)) other
        /\ PipelineMemory.lookup (PipelineMemory.memory after) other
           = PipelineMemory.lookup (PipelineMemory.memory (PipelineSteps.core ctx)) other).
Proof.
  cbn [PipelineSteps.addStepResultWithMemory PipelineSteps.core
       PipelineMemory.steps PipelineMemory.memory].
  fold (contentOf result).
  split; [apply lookup_insert_same |].
  split.
  - eexists; split; [apply lookup_insert_same |].
    destruct (memoryEntry_counted env (PipelineSteps.config ctx) (contentOf result))
      as (Hraw & Htokens & Hsummary & Htime).
    repeat (split; [assumption |]).
    intros Hplain; unfold PipelineSteps.memoryEntry.
    destruct (Z.gtb_spec (Tokens.estimateTokens (contentOf result))
                (PipelineSteps.summarizeThreshold (PipelineSteps.config ctx)))
      as [Hover | Hfit]; [| now split].
    destruct Hplain as [Hfit | Hoff]; [lia |].
    rewrite Hoff; now split.
  - intros other Hother; split; now apply lookup_insert_other.
Qed.

(** X11: the memory entries carry the estimates of their own texts in a
    new context and after every recording and clearing; and in such a
    context a step whose summary is counted within the budget is given
    out within the budget. *)
Theorem memory_counted_within_budget :
  (forall cfg, counted (PipelineSteps.core (PipelineSteps.createMemoryContext cfg)))
  /\ (forall env ctx result outputAs,
        counted (PipelineSteps.core ctx) ->
        counted (PipelineSteps.core
                   (PipelineSteps.addStepResultWithMemory env ctx result outputAs)))
  /\ (forall ctx stepIds,
        counted (PipelineSteps.core ctx) ->
        counted (PipelineSteps.core (PipelineSteps.clearMemory ctx stepIds)))
  /\ (forall ctx stepId mem tokenBudget,
        counted ctx ->
        PipelineMemory.lookup (PipelineMemory.memory ctx) stepId = Some mem ->
        PipelineMemory.summaryTokens mem <= tokenBudget ->
        Tokens.estimateTokens (PipelineMemory.getStepOutputForBudget ctx stepId tokenBudget)
        <= tokenBudget).
Proof.
  split; [intros cfg id mem; discriminate |].
  split.
  { intros env ctx result outputAs Hctx id mem.
    cbn [PipelineSteps.addStepResultWithMemory PipelineSteps.core PipelineMemory.memory].
    destruct (String.eqb_spec id (PipelineMemory.stepId result)) as [Hid | Hid].
    - rewrite Hid, lookup_insert_same; intros [= <-].
      destruct (memoryEntry_counted env (PipelineSteps.config ctx) (contentOf result))
        as (Hraw & Htokens & Hsummary & _).
      fold (contentOf result); rewrite Hraw; now split.
    - rewrite lookup_insert_other by assumption; apply Hctx. }
  split.
  { intros ctx stepIds Hctx id mem.
    cbn [PipelineSteps.clearMemory PipelineSteps.core PipelineMemory.memory].
    destruct stepIds as [ids |]; [| discriminate].
    rewrite lookup_fold_remove.
    destruct (existsb _ ids); [discriminate | apply Hctx]. }
  intros ctx stepId mem tokenBudget Hctx Hmem Hfits.
  unfold PipelineMemory.getStepOutputForBudget; rewrite Hmem.
  destruct (PipelineMemory.keyPointsChosen mem tokenBudget) eqn:Hchosen.
  - now apply keyPointsChosen_iff in Hchosen.
  - destruct (Z.leb_spec (PipelineMemory.summaryTokens mem) tokenBudget); [| lia].
    destruct (Hctx stepId mem Hmem) as [_ <-]; assumption.
Qed.

(** X12: [clearMemory] without a list leaves no memory entry, with a
    list it removes the entries of the listed ids and no other; the step
    results stay, and a step whose memory entry was cleared, its id not
    being an inherited name, is given out as its full content whatever
    the budget. *)
Theorem clearMemory_forgets (ctx : PipelineSteps.RunContext) :
  (forall id,
     PipelineMemory.lookup
       (PipelineMemory.memory (PipelineSteps.core (PipelineSteps.clearMemory ctx None))) id
     = None)
  /\ (forall ids id,
        PipelineMemory.lookup
          (PipelineMemory.memory
             (PipelineSteps.core (PipelineSteps.clearMemory ctx (Some ids)))) id
        = if existsb (String.eqb id) ids then None
          else PipelineMemory.lookup (PipelineMemory.memory (PipelineSteps.core ctx)) id)
  /\ (forall stepIds,
        PipelineMemory.steps (PipelineSteps.core (PipelineSteps.clearMemory ctx stepIds))
        = PipelineMemory.steps (PipelineSteps.core ctx))
  /\ (forall ids id result tokenBudget,
        inheritedName id = false ->
        In id ids ->
        PipelineMemory.lookup (PipelineMemory.steps (PipelineSteps.core ctx)) id
        = Some result ->
        PipelineMemory.getStepOutputForBudget
          (PipelineSteps.core (PipelineSteps.clearMemory ctx (Some ids))) id tokenBudget
        = contentOf result).
Proof.
  repeat split.
  - intros ids id; apply lookup_fold_remove.
  - intros ids id result tokenBudget _ Hin Hstep.
    unfold PipelineMemory.getStepOutputForBudget.
    cbn [PipelineSteps.clearMemory PipelineSteps.core PipelineMemory.memory
         PipelineMemory.steps].
    rewrite lookup_fold_remove, Hstep.
    assert (Hex : existsb (String.eqb id) ids = true).
    { apply existsb_exists; exists id; split; [assumption | apply String.eqb_refl]. }
    now rewrite Hex.
Qed.

(** ** Sessions: totals, files and views *)

Lemma sumTokens_app (a b : list Sessions.Message) :
  Sessions.sumTokens (a ++ b) = Sessions.sumTokens a + Sessions.sumTokens b.
Proof.
  unfold Sessions.sumTokens.
  rewrite fold_left_app.
  generalize (fold_left (fun sum m => sum + Sessions.tokens m) a 0); intros z.
  revert z; induction b as [| m b IH]; intros z; simpl; [lia |].
  rewrite IH, (IH (Sessions.tokens m)); lia.
Qed.

Lemma compressSession_balanced (env : Sessions.Env) (session : Sessions.AgentSession)
    (config : Sessions.Config) :
  SessionViews.balanced session ->
  SessionViews.balanced (Sessions.compressSession env session config).
Proof.
  unfold SessionViews.balanced, Sessions.compressSession; intros Hb.
  destruct (_ =? 0); [exact Hb | reflexivity].
Qed.

(** X13: the total of a session is the tokens of its summary plus the
    tokens of its messages when the session is new, and stays so under
    [addMessage], [compressSession] and [clearSessionHistory], for every
    configuration and whatever the summarizer does. *)
Theorem session_total_balanced :
  (forall sessionId agentName time,
     SessionViews.balanced (Sessions.newSession sessionId agentName time))
  /\ (forall env disk session r text config,
        SessionViews.balanced session ->
        SessionViews.balanced (fst (Sessions.addMessage env disk session r text config)))
  /\ (forall env session config,
        SessionViews.balanced session ->
        SessionViews.balanced (Sessions.compressSession env session config))
  /\ (forall time disk session,
        SessionViews.balanced (fst (SessionViews.clearSessionHistory time disk session))).
Proof.
  split; [reflexivity |].
  split; [| split; [apply compressSession_balanced | reflexivity]].
  intros env disk session r text config Hb.
  unfold Sessions.addMessage; cbn [fst].
  match goal with
  | |- SessionViews.balanced (if _ then Sessions.compressSession _ ?s _ else _) =>
      assert (Hnew : SessionViews.balanced s)
  end.
  { unfold SessionViews.balanced in *.
    cbn [Sessions.totalTokens Sessions.summaryTokens Sessions.messages].
    rewrite sumTokens_app, Hb.
    change (Sessions.sumTokens [_]) with (0 + Tokens.estimateTokens text); lia. }
  destruct (_ >? _); [now apply compressSession_balanced | exact Hnew].
Qed.

Lemma allFrom_spec (check : Z -> bool) (count : nat) :
  forall from z,
    allFrom check from count = true ->
    from <= z < from + Z.of_nat count -> check z = true.
Proof.
  induction count as [| k IH]; intros from z Hall Hz; [lia |].
  cbn [allFrom] in Hall; apply andb_prop in Hall as [Hhere Hrest].
  destruct (Z.eq_dec z from) as [-> | Hne]; [exact Hhere |].
  apply (IH (from + 1)); [exact Hrest | lia].
Qed.

Lemma roundsToHalf_range : allFrom roundsToHalf 1 (Z.to_nat 20000) = true.
Proof. vm_compute; reflexivity. Qed.

Lemma roundsToHalf_spec (s : Z) :
  0 < s <= 20000 ->
  Math_round ((1 - num s / num (s + s)) * 100)%float = Fin 50.
Proof.
  intros Hs.
  pose proof (allFrom_spec _ _ 1 s roundsToHalf_range ltac:(lia)) as Hin.
  unfold roundsToHalf in Hin.
  destruct (Math_round _) as [z | | |]; try discriminate.
  apply Z.eqb_eq in Hin; now subst z.
Qed.

(** X14: in a session whose total is its summary plus its messages, the
    compression ratio that [getSessionStats] reports does not depend on
    the messages: it is 0 without a summary and, the divisor being twice
    the summary, 50 for every summary of up to 20000 tokens; and the
    recent tokens are the total less the summary. *)
Theorem getSessionStats_ratio (session : Sessions.AgentSession) :
  SessionViews.balanced session ->
  SessionViews.statRecentTokens (SessionViews.getSessionStats session)
  = Sessions.totalTokens session - Sessions.summaryTokens session
  /\ (Sessions.summaryTokens session <= 0 ->
      SessionViews.statCompressionRatio (SessionViews.getSessionStats session) = Fin 0)
  /\ (0 < Sessions.summaryTokens session <= 20000 ->
      SessionViews.statCompressionRatio (SessionViews.getSessionStats session) = Fin 50).
Proof.
  unfold SessionViews.balanced; intros Hb.
  cbn [SessionViews.getSessionStats SessionViews.statRecentTokens
       SessionViews.statCompressionRatio].
  split; [lia |].
  destruct (Z.gtb_spec (Sessions.summaryTokens session) 0) as [Hpos | Hnone].
  - split; [lia |].
    intros Hs.
    replace (Sessions.totalTokens session - Sessions.sumTokens (Sessions.messages session)
             + Sessions.summaryTokens session)
      with (Sessions.summaryTokens session + Sessions.summaryTokens session) by lia.
    now apply roundsToHalf_spec.
  - split; [reflexivity | lia].
Qed.

Lemma getSessionStats_ratio_witness :
  SessionViews.statCompressionRatio
    (SessionViews.getSessionStats
       (Sessions.compressSession offlineEnv sampleSession roomy))
  = Fin 50.
Proof.
  apply (getSessionStats_ratio
           (Sessions.compressSession offlineEnv sampleSession roomy)).
  - reflexivity.
  - vm_compute; split; [reflexivity | discriminate].
Defined.

Lemma minOf_spec (rest : list Z) :
  forall x, In (minOf x rest) (x :: rest)
            /\ forall y, In y (x :: rest) -> minOf x rest <= y.
Proof.
  unfold minOf; induction rest as [| z rest IH]; intros x; simpl.
  - split; [now left | intros y [<- | []]; lia].
  - destruct (IH (Z.min x z)) as [Hin Hle]; split.
    + destruct Hin as [Hin | Hin]; [| now right; right].
      rewrite <- Hin; destruct (Z.min_spec x z) as [[_ ->] | [_ ->]]; auto.
    + intros y [<- | [<- | Hy]].
      * specialize (Hle (Z.min x z) (or_introl eq_refl)); lia.
      * specialize (Hle (Z.min x z) (or_introl eq_refl)); lia.
      * apply Hle; now right.
Qed.

Lemma maxOf_spec (rest : list Z) :
  forall x, In (maxOf x rest) (x :: rest)
            /\ forall y, In y (x :: rest) -> y <= maxOf x rest.
Proof.
  unfold maxOf; induction rest as [| z rest IH]; intros x; simpl.
  - split; [now left | intros y [<- | []]; lia].
  - destruct (IH (Z.max x z)) as [Hin Hle]; split.
    + destruct Hin as [Hin | Hin]; [| now right; right].
      rewrite <- Hin; destruct (Z.max_spec x z) as [[_ ->] | [_ ->]]; auto.
    + intros y [<- | [<- | Hy]].
      * specialize (Hle (Z.max x z) (or_introl eq_refl)); lia.
      * specialize (Hle (Z.max x z) (or_introl eq_refl)); lia.
      * apply Hle; now right.
Qed.

(** X15: [getSessionStats] reports no oldest and no newest message for a
    session without messages; otherwise both are time stamps of messages
    of the session, and every message lies between them. *)
Theorem getSessionStats_span (session : Sessions.AgentSession) :
  (Sessions.messages session = [] ->
   SessionViews.statOldestMessage (SessionViews.getSessionStats session) = None
   /\ SessionViews.statNewestMessage (SessionViews.getSessionStats session) = None)
  /\ (Sessions.messages session <> [] ->
      exists oldest newest,
        SessionViews.statOldestMessage (SessionViews.getSessionStats session) = Some oldest
        /\ SessionViews.statNewestMessage (SessionViews.getSessionStats session)
           = Some newest
        /\ In oldest (map Sessions.timestamp (Sessions.messages session))
        /\ In newest (map Sessions.timestamp (Sessions.messages session))
        /\ forall m, In m (Sessions.messages session) ->
                     oldest <= Sessions.timestamp m <= newest).
Proof.
  cbn [SessionViews.getSessionStats SessionViews.statOldestMessage
       SessionViews.statNewestMessage].
  destruct (Sessions.messages session) as [| m0 ms]; split; try congruence.
  - now split.
  - intros _; cbn [map].
    destruct (minOf_spec (map Sessions.timestamp ms) (Sessions.timestamp m0))
      as [Hmin Hle].
    destruct (maxOf_spec (map Sessions.timestamp ms) (Sessions.timestamp m0))
      as [Hmax Hge].
    eexists _, _; repeat split; try assumption.
    + apply Hle; change (In (Sessions.timestamp m) (map Sessions.timestamp (m0 :: ms)));
        now apply in_map.
    + apply Hge; change (In (Sessions.timestamp m) (map Sessions.timestamp (m0 :: ms)));
        now apply in_map.
Qed.

Lemma compressSession_keeps_identity (env : Sessions.Env)
    (session : Sessions.AgentSession) (config : Sessions.Config) :
  Sessions.id (Sessions.compressSession env session config) = Sessions.id session
  /\ Sessions.agent (Sessions.compressSession env session config) = Sessions.agent session
  /\ Sessions.createdAt (Sessions.compressSession env session config)
     = Sessions.createdAt session
  /\ Sessions.messageCount (Sessions.compressSession env session config)
     = Sessions.messageCount session.
Proof.
  unfold Sessions.compressSession; destruct (_ =? 0); now repeat split.
Qed.

Lemma compressSession_keeps_last (env : Sessions.Env) (session : Sessions.AgentSession)
    (config : Sessions.Config) (front : list Sessions.Message) (m : Sessions.Message) :
  1 <= Sessions.cfgKeepRecentMessages config ->
  Sessions.messages session = front ++ [m] ->
  exists kept,
    Sessions.messages (Sessions.compressSession env session config) = kept ++ [m].
Proof.
  intros Hkeep Hm; unfold Sessions.compressSession.
  destruct (_ =? 0); [now exists front |].
  cbn [Sessions.messages]; rewrite Hm.
  unfold sliceFrom, clampIndex.
  assert (Hlen : len (front ++ [m]) = len front + 1)
    by (rewrite len_app; reflexivity).
  rewrite Hlen.
  pose proof (len_nonneg front) as Hfront.
  destruct (Z.ltb_spec (Z.max 0 (len front + 1 - Sessions.cfgKeepRecentMessages config)) 0);
    [lia |].
  rewrite skipn_app.
  replace (Z.to_nat _ - List.length front)%nat with 0%nat by (unfold len in *; lia).
  now eexists.
Qed.

(** X16: [addMessage] keeps the identity of the session and advances
    [messageCount] by one; under the ceiling the message is appended and
    nothing else about the conversation changes; when at least one
    message is kept the new message is the last of the session,
    compaction or not; and over the ceiling, with a number of messages
    to keep that is not negative, no more than [keepRecentMessages]
    messages remain. *)
Theorem addMessage_bookkeeping (env : Sessions.Env) (disk : Sessions.Disk)
    (session : Sessions.AgentSession) (r : Sessions.role) (text : str)
    (config : Sessions.SessionConfig) :
  let cfg := Sessions.withDefaults config in
  let after := fst (Sessions.addMessage env disk session r text config) in
  Sessions.id after = Sessions.id session
  /\ Sessions.agent after = Sessions.agent session
  /\ Sessions.createdAt after = Sessions.createdAt session
  /\ Sessions.messageCount after = Sessions.messageCount session + 1
  /\ (Sessions.totalTokens session + Tokens.estimateTokens text
        <= Sessions.cfgMaxTokens cfg ->
      Sessions.messages after = Sessions.messages session ++ [messageOf env r text]
      /\ Sessions.summary after = Sessions.summary session
      /\ Sessions.totalTokens after
         = Sessions.totalTokens session + Tokens.estimateTokens text)
  /\ (1 <= Sessions.cfgKeepRecentMessages cfg ->
      exists kept, Sessions.messages after = kept ++ [messageOf env r text])
  /\ (0 <= Sessions.cfgKeepRecentMessages cfg ->
      Sessions.cfgMaxTokens cfg
        < Sessions.totalTokens session + Tokens.estimateTokens text ->
      len (Sessions.messages after) <= Sessions.cfgKeepRecentMessages cfg).
Proof.
  intros cfg after; subst after; unfold Sessions.addMessage; cbn [fst].
  fold cfg; fold (messageOf env r text).
  set (updated := {| Sessions.id := Sessions.id session;
                     Sessions.messages := Sessions.messages session ++ [messageOf env r text] |}).
  destruct (compressSession_keeps_identity env updated cfg) as (Hid & Hagent & Hcreated & Hcount).
  destruct (Z.gtb_spec (Sessions.totalTokens session + Tokens.estimateTokens text)
              (Sessions.cfgMaxTokens cfg)) as [Hover | Hfit].
  - rewrite Hid, Hagent, Hcreated, Hcount.
    repeat (split; [reflexivity |]).
    split; [lia |].
    split.
    + intros Hkeep.
      now apply (compressSession_keeps_last env updated cfg (Sessions.messages session)).
    + intros Hkeep _.
      destruct (Z.le_gt_cases (len (Sessions.messages updated))
                  (Sessions.cfgKeepRecentMessages cfg)) as [Hfew | Hmany].
      * now rewrite compressSession_noop.
      * destruct (compressSession_folds env updated cfg Hkeep ltac:(lia)) as (-> & _).
        unfold len in *; rewrite length_skipn; lia.
  - repeat (split; [reflexivity |]).
    split; [now repeat split |].
    split; [intros _; now eexists | lia].
Qed.






Lemma occurs_join (sep x : str) (parts : list str) :
  In x parts -> occurs x (join sep parts).
Proof.
  induction parts as [| y parts IH]; intros Hin; [destruct Hin |].
  cbn [join].
  destruct parts as [| z parts].
  - destruct Hin as [<- | []]; apply occurs_refl.
  - destruct Hin as [<- | Hin].
    + exists [], (sep ++ join sep (z :: parts)); reflexivity.
    + destruct (IH Hin) as (u & v & Hj).
      exists (y ++ sep ++ u), v; rewrite Hj; now rewrite <- !app_assoc.
Qed.

Lemma join_head (sep x : str) (parts : list str) :
  exists rest, join sep (x :: parts) = x ++ rest.
Proof.
  destruct parts as [| y parts]; cbn [join].
  - exists []; now rewrite app_nil_r.
  - now eexists.
Qed.

(** X18: the history of a session holds the text of every message whose
    role is not [system], and of the system messages too when they are
    asked for; it opens with the summary block when there is a summary;
    leaving the system messages out is the same as removing them from
    the session; and a session with no summary and no message has the
    empty history. *)
Theorem getConversationHistory_parts (session : Sessions.AgentSession)
    (includeSystem : bool) :
  (forall m,
     In m (Sessions.messages session) ->
     SessionViews.isSystem m = false \/ includeSystem = true ->
     occurs (Sessions.renderMessage m)
       (SessionViews.getConversationHistory session includeSystem))
  /\ (Sessions.summary session <> [] ->
      exists rest,
        SessionViews.getConversationHistory session includeSystem
        = SessionViews.summaryBlock (Sessions.summary session) ++ rest)
  /\ SessionViews.getConversationHistory session false
     = SessionViews.getConversationHistory
         (withMessages session
            (filter (fun m => negb (SessionViews.isSystem m)) (Sessions.messages session)))
         true
  /\ (Sessions.summary session = [] -> Sessions.messages session = [] ->
      SessionViews.getConversationHistory session includeSystem = []).
Proof.
  unfold SessionViews.getConversationHistory, SessionViews.historyParts.
  repeat split.
  - intros m Hin Hshown.
    apply occurs_join, in_or_app; right.
    apply in_map, filter_In; split; [exact Hin |].
    destruct Hshown as [-> | ->]; [reflexivity |].
    now destruct (SessionViews.isSystem m).
  - intros Hsummary.
    destruct (Sessions.summary session) as [| c s]; [congruence |].
    apply join_head.
  - cbn [withMessages Sessions.summary Sessions.messages].
    do 3 f_equal.

    induction (Sessions.messages session) as [| m ms IH]; [reflexivity |].
    cbn [filter].
    destruct (SessionViews.isSystem m); cbn [negb andb filter].
    + exact IH.
    + destruct (SessionViews.isSystem m); cbn [negb andb]; now f_equal.
  - intros -> ->; reflexivity.
Qed.

Lemma slice_100 (s : str) :
  slice s 0 100 = firstn 100 s
  /\ len (slice s 0 100) = Z.min 100 (len s).
Proof.
  rewrite slice_prefix by lia.
  change (Z.to_nat 100) with 100%nat; split; [reflexivity |].
  unfold len; rewrite length_firstn; lia.
Qed.

(** X19: the preview that [listSessions] shows is never empty and has at
    most 103 characters; it is the first user message when that has
    fewer than 100 characters and is not empty, and the first 100
    characters followed by three dots when it has 100 or more, so that a
    message of exactly 100 characters is shown whole and with the dots;
    without a user message and without a summary it reads "(empty)". *)
Theorem previewOf_shape (session : Sessions.AgentSession) :
  SessionViews.previewOf session <> []
  /\ len (SessionViews.previewOf session) <= 103
  /\ (forall m,
        find SessionViews.isUser (Sessions.messages session) = Some m ->
        (0 < len (Sessions.content m) < 100 ->
         SessionViews.previewOf session = Sessions.content m)
        /\ (100 <= len (Sessions.content m) ->
            SessionViews.previewOf session
            = firstn 100 (Sessions.content m) ++ lit "..."))
  /\ (find SessionViews.isUser (Sessions.messages session) = None ->
      Sessions.summary session = [] ->
      SessionViews.previewOf session = lit "(empty)").
Proof.
  unfold SessionViews.previewOf.
  set (fromMessage := match find SessionViews.isUser (Sessions.messages session) with
                      | Some m => slice (Sessions.content m) 0 100
                      | None => []
                      end).
  match goal with
  | |- context [len ?p =? 100] => set (preview := p)
  end.
  assert (Hpreview : preview <> [] /\ len preview <= 100).
  { subst preview.
    assert (Hm : len fromMessage <= 100).
    { subst fromMessage; destruct (find _ _) as [m |].
      - destruct (slice_100 (Sessions.content m)) as [_ ->]; lia.
      - unfold len; simpl; lia. }
    destruct fromMessage as [| c s]; [| split; [discriminate | exact Hm]].
    destruct (slice_100 (Sessions.summary session)) as [_ Hs].
    destruct (slice (Sessions.summary session) 0 100) as [| c s].
    - split; [discriminate | unfold len; simpl; lia].
    - split; [discriminate | lia]. }
  destruct Hpreview as [Hnonempty Hshort].
  split; [| split; [| split]].
  - destruct (len preview =? 100); [| exact Hnonempty].
    intros H; apply app_eq_nil in H as [_ H]; discriminate.
  - destruct (len preview =? 100); [| lia].
    rewrite len_app; change (len (lit "...")) with 3; lia.
  - intros m Hm; subst preview fromMessage; rewrite Hm.
    destruct (slice_100 (Sessions.content m)) as [Hslice Hlen].
    rewrite Hslice in Hlen; rewrite Hslice; clear Hslice Hnonempty Hshort.
    split; intros Hsize.
    + assert (Hall : firstn 100 (Sessions.content m) = Sessions.content m).
      { apply firstn_all2; unfold len in Hsize; lia. }
      rewrite Hall.
      destruct (Sessions.content m) as [| c s];
        [unfold len in Hsize; simpl in Hsize; lia |].
      destruct (Z.eqb_spec (len (c :: s)) 100); [lia | reflexivity].
    + remember (firstn 100 (Sessions.content m)) as shown eqn:Hshown.
      destruct shown as [| c s]; [unfold len in *; simpl in Hlen; lia |].
      destruct (Z.eqb_spec (len (c :: s)) 100); [reflexivity | lia].
  - intros Hnone Hsummary; subst preview fromMessage.
    rewrite Hnone, Hsummary; reflexivity.
Qed.

(** ** The store: searching *)

(** X20: [search] answers with the results of the full-text search
    whenever the provider is not ollama, the vector table could not be
    opened, the query could not be embedded or the vector search failed;
    otherwise its results carry no id and, when a type is asked for,
    are of that type. *)
Theorem search_falls_back (w : VectorStore.World) (query : str)
    (ty : option VectorStore.MemoryType) (limit : option Z) (s : VectorStore.Store) :
  let results := fst (VectorStore.search w query ty limit s) in
  let after := snd (VectorStore.search w query ty limit s) in
  let fullText := VectorStore.searchFTS w query ty limit in
  (VectorStore.isOllama (VectorStore.getProvider w) = false -> results = fullText)
  /\ (VectorStore.lanceTable after = false -> results = fullText)
  /\ (VectorStore.embed w query = None -> results = fullText)
  /\ (forall v, VectorStore.embed w query = Some v ->
                VectorStore.lanceSearch w v (VectorStore.limitOr10 limit) = Thrown ->
                results = fullText)
  /\ (results = fullText
      \/ Forall (fun r => VectorStore.id (VectorStore.item r) = None
                          /\ forall t, ty = Some t ->
                                       VectorStore.type (VectorStore.item r) = t)
           results).
Proof.
  cbv zeta; rewrite search_unfold; cbv zeta.
  set (s1 := snd (VectorStore.initVectorStore w s)).
  destruct (VectorStore.lanceTable s1) eqn:Htable;
    destruct (VectorStore.isOllama (VectorStore.getProvider w)) eqn:Hprov;
    cbn [andb fst snd]; try (repeat split; auto; fail).
  rewrite searchVector_state, Htable.
  unfold VectorStore.searchVector; rewrite Htable, Hprov; cbn [negb orb].
  destruct (VectorStore.embed w query) as [v |]; [| repeat split; auto].
  destruct (VectorStore.lanceSearch w v (VectorStore.limitOr10 limit)) as [rows |] eqn:Hrows;
    [| repeat split; auto].
  cbn [fst].
  repeat split; try discriminate.
  - intros v' [= <-]; congruence.
  - right; apply Forall_forall; intros r Hr.
    apply in_map_iff in Hr as (row & <- & Hrow); cbn; split; [reflexivity |].
    intros t ->; apply filter_In in Hrow as [_ Hrow].
    now destruct (VectorStore.lanceType row), t.
Qed.

(** X21: after [initVectorStore] the store is marked as initialized, and
    a second call changes nothing, in whatever world it is made; with
    another provider than ollama the vector handles are left as they
    were; and a search changes the store in no other way than the
    initialization does. *)
Theorem initVectorStore_once (w : VectorStore.World) (s : VectorStore.Store) :
  let after := snd (VectorStore.initVectorStore w s) in
  VectorStore.initialized after = true
  /\ (forall later, snd (VectorStore.initVectorStore later after) = after)
  /\ (VectorStore.isOllama (VectorStore.getProvider w) = false ->
      VectorStore.lanceDb after = VectorStore.lanceDb s
      /\ VectorStore.lanceTable after = VectorStore.lanceTable s)
  /\ (forall query ty limit,
        snd (VectorStore.search w query ty limit s) = after).
Proof.
  cbv zeta.
  destruct (initVectorStore_state w s) as (Hinit & _ & Hother).
  repeat split; try (now apply Hother).
  - exact Hinit.
  - intros later; now apply initVectorStore_state.
  - intros query ty limit; rewrite search_unfold; cbv zeta.
    destruct (_ && _); [apply searchVector_state | reflexivity].
Qed.



(** X23: no item of the backfill has the id of a match; and since the
    results of a vector search carry no id, after such a search every
    recent item is appended, one that the search returned too. *)
Theorem backfill_by_id (w : VectorStore.World) (o : Retriever.RetrievalOptions)
    (filtered : list VectorStore.SearchResult) :
  Forall (fun r => forall f, In f filtered ->
                             VectorStore.id (VectorStore.item f)
                             <> VectorStore.id (VectorStore.item r))
    (Retriever.backfill w o filtered)
  /\ ((forall f, In f filtered -> VectorStore.id (VectorStore.item f) = None) ->
      Retriever.backfill w o filtered
      = if Retriever.optIncludeRecent o && (len filtered <? Retriever.optLimit o)
        then map (fun it => {| VectorStore.item := it; VectorStore.score := 1 # 20 |})
               (VectorStore.getRecent w
                  match Retriever.optTypes o with [] => None | t :: _ => Some t end
                  (Some (Retriever.optLimit o - len filtered)))
        else []).
Proof.
  unfold Retriever.backfill; split.
  - destruct (_ && _); [| constructor].
    apply Forall_forall; intros r Hr f Hf Heq.
    apply in_map_iff in Hr as (it & <- & Hit).
    apply filter_In in Hit as [_ Hit]; cbn in Heq.
    apply negb_true_iff in Hit.
    assert (Hex : existsb (Retriever.option_Z_eqb (VectorStore.id it))
                    (map (fun r => VectorStore.id (VectorStore.item r)) filtered) = true);
      [| congruence].
    apply existsb_exists; exists (VectorStore.id (VectorStore.item f)); split.
    + exact (in_map (fun x => VectorStore.id (VectorStore.item x)) filtered f Hf).
    + rewrite Heq; destruct (VectorStore.id it); cbn; [apply Z.eqb_refl | reflexivity].
  - intros Hnone.
    destruct (_ && _); [| reflexivity].
    f_equal.
    unfold VectorStore.getRecent.
    induction (VectorStore.recentQuery w _ _) as [| row rows IH]; [reflexivity |].
    cbn [map filter].
    assert (Hfresh : existsb
                       (Retriever.option_Z_eqb (VectorStore.id (VectorStore.itemOfRow row)))
                       (map (fun r => VectorStore.id (VectorStore.item r)) filtered)
                     = false).
    { destruct (existsb _ _) eqn:Hex; [| reflexivity].
      apply existsb_exists in Hex as (i & Hi & Heq).
      apply in_map_iff in Hi as (f & <- & Hf).
      rewrite (Hnone f Hf) in Heq; discriminate. }
    rewrite Hfresh; cbn [negb]; now f_equal.
Qed.

(** ** Retrieval: limits and kinds *)

Lemma retrieve_unfold (w : VectorStore.World) (query : str)
    (o : Retriever.RetrievalOptions) (s : VectorStore.Store) :
  let results := fst (Retriever.searchAll w query o s) in
  let packed := Retriever.pack (Retriever.optMaxTokens o)
                  (Retriever.candidates w o results) [] 0 in
  Retriever.items (fst (Retriever.retrieve w query o s)) = fst packed
  /\ Retriever.totalTokens (fst (Retriever.retrieve w query o s)) = snd packed.
Proof.
  cbv zeta; unfold Retriever.retrieve, VectorStore.bind.
  destruct (Retriever.searchAll w query o s) as [results s1]; cbn [fst].
  destruct (Retriever.pack _ _ _ _) as [items total]; now split.
Qed.

Lemma ranked_In (o : Retriever.RetrievalOptions) (results : list VectorStore.SearchResult)
    (r : VectorStore.SearchResult) :
  In r (Retriever.ranked o results) -> In r results.
Proof.
  unfold Retriever.ranked, Retriever.sortByScore.
  assert (Hf : forall z, In z (filter (fun r => Qle_bool (Retriever.optMinScore o)
                                                   (VectorStore.score r)) results) ->
                         In z results).
  { intros z Hz; now apply filter_In in Hz as [Hz _]. }
  induction (filter _ results) as [| x l IH]; simpl; [contradiction |].
  intros Hr; apply insertByScore_In in Hr as [-> | Hr].
  - apply Hf; now left.
  - apply IH; [| exact Hr]. intros z Hz; apply Hf; now right.
Qed.

Lemma In_firstn {A} (k : nat) (l : list A) (x : A) : In x (firstn k l) -> In x l.
Proof.
  intros H; rewrite <- (firstn_skipn k l); apply in_or_app; now left.
Qed.

Lemma retrieve_bounds (w : VectorStore.World) (query : str)
    (o : Retriever.RetrievalOptions) (s : VectorStore.Store) :
  (0 <= Retriever.optLimit o ->
   len (Retriever.items (fst (Retriever.retrieve w query o s))) <= Retriever.optLimit o)
  /\ (0 <= Retriever.optMaxTokens o ->
      Retriever.totalTokens (fst (Retriever.retrieve w query o s))
      <= Retriever.optMaxTokens o).
Proof.
  destruct (retrieve_unfold w query o s) as [-> ->].
  set (results := fst (Retriever.searchAll w query o s)).
  destruct (pack_prefix (Retriever.optMaxTokens o) (Retriever.candidates w o results) [] 0)
    as (k & -> & Hfit & _).
  cbn [fst snd app]; split.
  - intros Hlimit.
    unfold len; rewrite length_map, length_firstn.
    pose proof (len_slice_prefix_le
                  (Retriever.ranked o results
                   ++ Retriever.backfill w o (Retriever.ranked o results))
                  (Retriever.optLimit o) Hlimit) as Hcut.
    unfold Retriever.candidates, len in *; lia.
  - exact Hfit.
Qed.

(** X24: with a limit that is not negative, [retrieve] returns at most
    [limit] items, and each of them is either the item of a search
    result whose score reaches the minimum or one of the recent items. *)
Theorem retrieve_within_limit (w : VectorStore.World) (query : str)
    (o : Retriever.RetrievalOptions) (s : VectorStore.Store) :
  0 <= Retriever.optLimit o ->
  len (Retriever.items (fst (Retriever.retrieve w query o s))) <= Retriever.optLimit o
  /\ forall it,
       In it (Retriever.items (fst (Retriever.retrieve w query o s))) ->
       (exists r,
          In r (fst (Retriever.searchAll w query o s))
          /\ VectorStore.item r = it
          /\ (Retriever.optMinScore o <= VectorStore.score r)%Q)
       \/ exists recentType limit, In it (VectorStore.getRecent w recentType limit).
Proof.
  intros Hlimit.
  destruct (retrieve_unfold w query o s) as [-> _].
  set (results := fst (Retriever.searchAll w query o s)).
  destruct (pack_prefix (Retriever.optMaxTokens o) (Retriever.candidates w o results) [] 0)
    as (k & -> & _).
  cbn [fst app].
  split.
  - unfold len; rewrite length_map, length_firstn.
    pose proof (len_slice_prefix_le
                  (Retriever.ranked o results
                   ++ Retriever.backfill w o (Retriever.ranked o results))
                  (Retriever.optLimit o) Hlimit) as Hcut.
    unfold Retriever.candidates, len in *; lia.
  - intros it Hit.
    apply in_map_iff in Hit as (r & <- & Hr).
    apply In_firstn in Hr.
    unfold Retriever.candidates in Hr.
    destruct (slice_from_0_is_prefix
                (Retriever.ranked o results
                 ++ Retriever.backfill w o (Retriever.ranked o results))
                (Retriever.optLimit o)) as [j Hj].
    rewrite Hj in Hr; apply In_firstn in Hr.
    apply in_app_or in Hr as [Hr | Hr].
    + left; exists r; repeat split.
      * now apply ranked_In in Hr.
      * pose proof (ranked_min_score o results) as Hmin.
        rewrite Forall_forall in Hmin; now apply Hmin.
    + right; unfold Retriever.backfill in Hr.
      destruct (_ && _); [| destruct Hr].
      apply in_map_iff in Hr as (it & <- & Hit).
      apply filter_In in Hit as [Hit _]; cbn; eauto.
Qed.

Lemma retrieve_within_limit_witness :
  len (Retriever.items
         (fst (Retriever.retrieve worldWithFaintMatch (lit "tabs") patternOptions freshStore)))
  <= 10.
Proof.
  apply (retrieve_within_limit worldWithFaintMatch (lit "tabs") patternOptions freshStore).
  vm_compute; discriminate.
Defined.

Lemma countTypes_spec (items : list VectorStore.MemoryItem) :
  forall (start : VectorStore.MemoryType -> Z) (t : VectorStore.MemoryType),
    Contexts.countTypes items start t
    = start t
      + len (filter (fun it => VectorStore.MemoryType_eqb t (VectorStore.type it)) items).
Proof.
  induction items as [| it rest IH]; intros start t; cbn [Contexts.countTypes filter].
  - unfold len; simpl; lia.
  - rewrite IH.
    destruct (VectorStore.MemoryType_eqb t (VectorStore.type it));
      unfold len; cbn [List.length]; lia.
Qed.

Lemma kinds_partition (items : list VectorStore.MemoryItem) :
  len (filter (fun it => VectorStore.MemoryType_eqb VectorStore.conversation
                           (VectorStore.type it)) items)
  + len (filter (fun it => VectorStore.MemoryType_eqb VectorStore.code
                             (VectorStore.type it)) items)
  + len (filter (fun it => VectorStore.MemoryType_eqb VectorStore.decision
                             (VectorStore.type it)) items)
  + len (filter (fun it => VectorStore.MemoryType_eqb VectorStore.pattern
                             (VectorStore.type it)) items)
  + len (filter (fun it => VectorStore.MemoryType_eqb VectorStore.context
                             (VectorStore.type it)) items)
  = len items.
Proof.
  induction items as [| it rest IH]; [reflexivity |].
  cbn [filter]; destruct (VectorStore.type it); cbn [VectorStore.MemoryType_eqb] in *;
    unfold len in *; cbn [List.length]; lia.
Qed.

Lemma buildContext_unfold (w : VectorStore.World) (query : str)
    (o : Contexts.ContextOptions) (s : VectorStore.Store) :
  let result := fst (Retriever.retrieve w query (Contexts.contextRetrieval o) s) in
  Contexts.ctxItems (fst (Contexts.buildContext w query o s)) = Retriever.items result
  /\ Contexts.ctxTotalTokens (fst (Contexts.buildContext w query o s))
     = Retriever.totalTokens result
  /\ Contexts.breakdown (fst (Contexts.buildContext w query o s))
     = Contexts.countTypes (Retriever.items result) (fun _ => 0).
Proof.
  cbv zeta; unfold Contexts.buildContext, VectorStore.bind.
  destruct (Retriever.retrieve w query (Contexts.contextRetrieval o) s) as [result s1].
  now repeat split.
Qed.

(** X25: the context that [buildContext] builds holds at most 20 items;
    its breakdown counts, for each kind, the items of that kind, so that
    the five counts add up to the number of items; under a ceiling that
    is not negative the total stays within the ceiling; and with every
    kind switched off the search runs over all kinds, with no filter. *)
Theorem buildContext_counts (w : VectorStore.World) (query : str)
    (o : Contexts.ContextOptions) (s : VectorStore.Store) :
  let built := fst (Contexts.buildContext w query o s) in
  len (Contexts.ctxItems built) <= 20
  /\ (forall t,
        Contexts.breakdown built t
        = len (filter (fun it => VectorStore.MemoryType_eqb t (VectorStore.type it))
                 (Contexts.ctxItems built)))
  /\ Contexts.breakdown built VectorStore.conversation
     + Contexts.breakdown built VectorStore.code
     + Contexts.breakdown built VectorStore.decision
     + Contexts.breakdown built VectorStore.pattern
     + Contexts.breakdown built VectorStore.context
     = len (Contexts.ctxItems built)
  /\ (0 <= Retriever.optMaxTokens (Contexts.contextRetrieval o) ->
      Contexts.ctxTotalTokens built <= Retriever.optMaxTokens (Contexts.contextRetrieval o))
  /\ (Contexts.contextTypes o = [] ->
      Retriever.searchAll w query (Contexts.contextRetrieval o)
      = VectorStore.search w query None (Some 20)).
Proof.
  cbv zeta.
  destruct (buildContext_unfold w query o s) as (-> & -> & ->).
  destruct (retrieve_bounds w query (Contexts.contextRetrieval o) s) as [Hlimit Hceiling].
  split; [apply Hlimit; discriminate |].
  split; [intros t; now rewrite countTypes_spec |].
  split; [rewrite !countTypes_spec; cbn [Z.add]; apply kinds_partition |].
  split; [exact Hceiling |].
  intros Hnone; unfold Retriever.searchAll, Retriever.optTypes.
  cbn [Contexts.contextRetrieval Retriever.types]; now rewrite Hnone.
Qed.

Lemma packItems_as_pack (maxTokens : Z) (rest : list VectorStore.MemoryItem) :
  forall items total,
    Contexts.packItems maxTokens rest items total
    = Retriever.pack maxTokens
        (map (fun it => {| VectorStore.item := it; VectorStore.score := 0 |}) rest)
        items total.
Proof.
  induction rest as [| it more IH]; intros items total; cbn; [reflexivity |].
  destruct (_ >? _); [reflexivity | apply IH].
Qed.

(** X26: [retrieveByType] returns the newest items of the kind, in the
    order of the store, up to the first one that would pass the ceiling:
    a prefix of the recent items, with the sum of their estimates as
    total, within a ceiling that is not negative; the item after the
    last one returned would not have fitted; the method is recency. *)
Theorem retrieveByType_prefix (w : VectorStore.World) (ty : VectorStore.MemoryType)
    (limit maxTokens : option Z) :
  let result := Contexts.retrieveByType w ty limit maxTokens in
  let recent :=
    VectorStore.getRecent w (Some ty) (Some match limit with Some v => v | None => 10 end) in
  let ceiling := match maxTokens with Some v => v | None => 4000 end in
  Retriever.searchMethod result = Retriever.recency
  /\ exists k,
       Retriever.items result = firstn k recent
       /\ Retriever.totalTokens result = sumZ (map tokensOf (firstn k recent))
       /\ (0 <= ceiling -> Retriever.totalTokens result <= ceiling)
       /\ (forall next, nth_error recent k = Some next ->
                        ceiling < Retriever.totalTokens result + tokensOf next).
Proof.
  cbv zeta; unfold Contexts.retrieveByType.
  rewrite packItems_as_pack.
  set (recent := VectorStore.getRecent w (Some ty) _).
  set (ceiling := match maxTokens with Some v => v | None => 4000 end).
  destruct (pack_prefix ceiling
              (map (fun it => {| VectorStore.item := it; VectorStore.score := 0 |}) recent)
              [] 0) as (k & -> & Hfit & Hnext).
  cbn [Retriever.searchMethod Retriever.items Retriever.totalTokens app].
  split; [reflexivity |].
  exists k.
  assert (Hitems : map VectorStore.item
                     (firstn k (map (fun it => {| VectorStore.item := it;
                                                  VectorStore.score := 0 |}) recent))
                   = firstn k recent).
  { rewrite firstn_map, map_map; cbn; apply map_id. }
  assert (Hsum : map itemTokens
                   (firstn k (map (fun it => {| VectorStore.item := it;
                                                VectorStore.score := 0 |}) recent))
                 = map tokensOf (firstn k recent)).
  { rewrite firstn_map, map_map; reflexivity. }
  rewrite Hitems, Hsum in *.
  split; [reflexivity |].
  split; [cbn; lia |].
  split; [intros Hc; specialize (Hfit Hc); cbn; lia |].
  intros next Hn.
  assert (Hwrapped :
              nth_error
                (map (fun it => {| VectorStore.item := it; VectorStore.score := 0 |}) recent) k
              = Some {| VectorStore.item := next; VectorStore.score := 0 |})
    by (rewrite nth_error_map, Hn; reflexivity).
  apply Hnext in Hwrapped.
  unfold itemTokens in Hwrapped; cbn [VectorStore.item] in Hwrapped.
  fold (tokensOf next) in Hwrapped; cbn [Retriever.totalTokens]; lia.
Qed.

(** ** The embedding provider *)

Lemma find_found {A} (f : A -> bool) (l : list A) (x : A) :
  find f l = Some x -> In x l /\ f x = true.
Proof. apply find_some. Qed.

(** X27: started from the initial state, [initEmbeddings] chooses ollama
    exactly when the service lists a model whose name begins with one of
    the known embedding models, and then records the first such model;
    otherwise it chooses the full-text search and records no model; and
    the answer is cached: a later call returns the same provider and
    leaves the state as it is, whatever the service lists by then. *)
Theorem initEmbeddings_detects (listing : outcome (list str)) :
  let chosen := fst (Embeddings.initEmbeddings listing Embeddings.initialState) in
  let after := snd (Embeddings.initEmbeddings listing Embeddings.initialState) in
  Embeddings.provider after = chosen
  /\ (chosen = VectorStore.ProviderOllama ->
      exists models found,
        listing = Returned models
        /\ find Embeddings.isEmbeddingModel models = Some found
        /\ Embeddings.model after = Some found
        /\ In found models
        /\ Embeddings.isEmbeddingModel found = true)
  /\ (chosen = VectorStore.ProviderFts5 ->
      Embeddings.model after = None
      /\ forall models, listing = Returned models ->
                        forallb (fun m => negb (Embeddings.isEmbeddingModel m)) models = true)
  /\ (forall later, Embeddings.initEmbeddings later after = (chosen, after)).
Proof.
  cbv zeta; unfold Embeddings.initEmbeddings, Embeddings.isOllamaAvailable.
  cbn [Embeddings.initialState Embeddings.ollamaAvailable].
  destruct listing as [models |]; [| cbn; repeat split; try discriminate].
  destruct (find Embeddings.isEmbeddingModel models) as [found |] eqn:Hfind; cbn.
  - destruct (find_found _ _ _ Hfind) as [Hin Hfound].
    repeat split; try discriminate.
    intros _; exists models, found; now repeat split.
  - repeat split; try discriminate.
    intros ms [= <-]; apply forallb_forall; intros m Hm.
    apply negb_true_iff; now apply (find_none _ _ Hfind).
Qed.

(** ** Injection: escaping and layout *)

Lemma flat_map_flat_map {A B C} (f : A -> list B) (g : B -> list C) (l : list A) :
  flat_map g (flat_map f l) = flat_map (fun x => flat_map g (f x)) l.
Proof.
  induction l as [| x l IH]; simpl; [reflexivity |].
  now rewrite flat_map_app, IH.
Qed.

Lemma escapeXML_by_character (text : str) :
  Injector.escapeXML text = flat_map escapeChar text.
Proof.
  unfold Injector.escapeXML, replaceAllChar.
  rewrite !flat_map_flat_map.
  apply flat_map_ext; intros c.
  unfold escapeChar.
  destruct (Ascii.eqb_spec c "&") as [-> | Hamp]; [reflexivity |].
  destruct (Ascii.eqb_spec c "<") as [-> | Hlt]; [reflexivity |].
  destruct (Ascii.eqb_spec c ">") as [-> | Hgt]; [reflexivity |].
  destruct (Ascii.eqb_spec c Injector.quote) as [-> | Hquote]; [reflexivity |].
  destruct (Ascii.eqb_spec c "'") as [-> | Hapos]; [reflexivity |].
  cbn [flat_map app].
  repeat match goal with
         | |- context [Ascii.eqb c ?d] =>
             destruct (Ascii.eqb_spec c d); [congruence |]; cbn [flat_map app]
         end.
  reflexivity.
Qed.

Lemma escapeChar_cases (c : ascii) :
  (escapeChar c = [c] /\ c <> "&"%char /\ isMarkup c = false)
  \/ (c = "&"%char /\ escapeChar c = lit "&amp;")
  \/ (c = "<"%char /\ escapeChar c = lit "&lt;")
  \/ (c = ">"%char /\ escapeChar c = lit "&gt;")
  \/ (c = Injector.quote /\ escapeChar c = lit "&quot;")
  \/ (c = "'"%char /\ escapeChar c = lit "&apos;").
Proof.
  unfold escapeChar, isMarkup.
  destruct (Ascii.eqb_spec c "&") as [-> | Hamp]; [now right; left |].
  destruct (Ascii.eqb_spec c "<") as [-> | Hlt]; [now right; right; left |].
  destruct (Ascii.eqb_spec c ">") as [-> | Hgt]; [now right; right; right; left |].
  destruct (Ascii.eqb_spec c Injector.quote) as [-> | Hquote];
    [now right; right; right; right; left |].
  destruct (Ascii.eqb_spec c "'") as [-> | Hapos];
    [now right; right; right; right; right |].
  now left.
Qed.

Lemma escapeChar_inj (c d : ascii) (x y : str) :
  escapeChar c ++ x = escapeChar d ++ y -> c = d /\ x = y.
Proof.
  destruct (escapeChar_cases c)
    as [(-> & Hc & _) | [[-> ->] | [[-> ->] | [[-> ->] | [[-> ->] | [-> ->]]]]]];
    destruct (escapeChar_cases d)
      as [(-> & Hd & _) | [[-> ->] | [[-> ->] | [[-> ->] | [[-> ->] | [-> ->]]]]]];
    cbn; intros H; try (injection H; intros; subst; now split);
    try discriminate; try (injection H; intros; congruence).
Qed.

(** X28: the five replacements of [escapeXML], made one after the
    other, come to replacing each character by its own entity once: an
    ampersand written by a later replacement is not escaped again; its
    result holds none of the characters [<], [>] and the two quotes; a
    text without the five characters is left as it is; and two texts
    with the same result are the same text. *)
Theorem escapeXML_entities (text : str) :
  Injector.escapeXML text = flat_map escapeChar text
  /\ forallb (fun c => negb (isMarkup c)) (Injector.escapeXML text) = true
  /\ (forallb (fun c => negb (isMarkup c || Ascii.eqb c "&")) text = true ->
      Injector.escapeXML text = text)
  /\ (forall other, Injector.escapeXML other = Injector.escapeXML text -> other = text).
Proof.
  split; [apply escapeXML_by_character |].
  split; [| split].
  - rewrite escapeXML_by_character.
    induction text as [| c t IH]; [reflexivity |].
    cbn [flat_map]; rewrite forallb_app, IH, andb_true_r.
    destruct (escapeChar_cases c)
      as [(-> & _ & Hc) | [[-> ->] | [[-> ->] | [[-> ->] | [[-> ->] | [-> ->]]]]]];
      try reflexivity.
    cbn [forallb]; now rewrite Hc.
  - rewrite escapeXML_by_character.
    induction text as [| c t IH]; [reflexivity |].
    cbn [forallb flat_map]; intros H; apply andb_prop in H as [Hc Ht].
    rewrite (IH Ht); unfold escapeChar.
    apply negb_true_iff, orb_false_iff in Hc as [Hmark Hamp].
    unfold isMarkup in Hmark.
    apply orb_false_iff in Hmark as [Hmark Hapos].
    apply orb_false_iff in Hmark as [Hmark Hquote].
    apply orb_false_iff in Hmark as [Hlt Hgt].
    now rewrite Hamp, Hlt, Hgt, Hquote, Hapos.
  - intros other; rewrite !escapeXML_by_character.
    revert other; induction text as [| c t IH]; intros other H.
    + destruct other as [| d o]; [reflexivity |].
      cbn [flat_map] in H.
      destruct (escapeChar_cases d)
        as [(Hd & _) | [[_ Hd] | [[_ Hd] | [[_ Hd] | [[_ Hd] | [_ Hd]]]]]];
        rewrite Hd in H; discriminate.
    + destruct other as [| d o].
      * cbn [flat_map] in H.
        destruct (escapeChar_cases c)
          as [(Hc & _) | [[_ Hc] | [[_ Hc] | [[_ Hc] | [[_ Hc] | [_ Hc]]]]]];
          rewrite Hc in H; discriminate.
      * cbn [flat_map] in H.
        apply escapeChar_inj in H as [-> H].
        f_equal; now apply IH.
Qed.

Lemma MemoryType_eqb_eq (a b : VectorStore.MemoryType) :
  VectorStore.MemoryType_eqb a b = true -> a = b.
Proof. destruct a, b; simpl; congruence. Qed.

Lemma addToGroup_grouped (groups : list (VectorStore.MemoryType * list VectorStore.MemoryItem))
    (added it : VectorStore.MemoryItem) :
  (it = added
   \/ exists g, In g groups /\ In it (snd g)) ->
  exists g, In g (Injector.addToGroup groups added) /\ In it (snd g).
Proof.
  induction groups as [| [t group] rest IH]; cbn [Injector.addToGroup].
  - intros [-> | (g & [] & _)].
    exists (VectorStore.type added, [added]); split; now left.
  - destruct (VectorStore.MemoryType_eqb t (VectorStore.type added)).
    + intros [-> | (g & [<- | Hg] & Hit)].
      * exists (t, group ++ [added]); split; [now left |].
        apply in_or_app; right; now left.
      * exists (t, group ++ [added]); split; [now left |].
        cbn [snd] in *; apply in_or_app; now left.
      * exists g; split; [now right | exact Hit].
    + intros [-> | (g & [<- | Hg] & Hit)].
      * destruct (IH (or_introl eq_refl)) as (g & Hg & Hit).
        exists g; split; [now right | exact Hit].
      * exists (t, group); split; [now left | exact Hit].
      * destruct (IH (or_intror (ex_intro _ g (conj Hg Hit)))) as (g' & Hg' & Hit').
        exists g'; split; [now right | exact Hit'].
Qed.

Lemma groupByType_grouped (items : list VectorStore.MemoryItem) (it : VectorStore.MemoryItem) :
  In it items -> exists g, In g (Injector.groupByType items) /\ In it (snd g).
Proof.
  unfold Injector.groupByType.
  assert (Hgen : forall groups,
             (In it items \/ exists g, In g groups /\ In it (snd g)) ->
             exists g, In g (fold_left Injector.addToGroup items groups) /\ In it (snd g)).
  { induction items as [| x items IH]; intros groups; cbn [fold_left].
    - intros [[] | H]; exact H.
    - intros [[-> | Hin] | Hg]; apply IH.
      + right; apply addToGroup_grouped; now left.
      + now left.
      + right; apply addToGroup_grouped; now right. }
  intros Hin; apply Hgen; now left.
Qed.

Lemma layouts_empty (items : list VectorStore.MemoryItem) :
  (Injector.formatAsXML items = [] <-> items = [])
  /\ (Injector.formatAsMarkdown items = [] <-> items = []).
Proof.
  split.
  - unfold Injector.formatAsXML; destruct items as [| it items]; [tauto |].
    split; [| discriminate].
    cbn [app]; intros H; exfalso.
    match type of H with
    | join ?sep (?x :: ?l) = [] =>
        destruct (join_head sep x l) as [rest Hrest];
        assert (Hx : x ++ rest = []) by (rewrite <- Hrest; exact H)
    end.
    apply app_eq_nil in Hx as [Hx _]; discriminate.
  - unfold Injector.formatAsMarkdown; destruct items as [| it items]; [tauto |].
    split; [| discriminate].
    intros H; exfalso.
    match type of H with
    | join ?sep (?x :: ?l) = [] =>
        destruct (join_head sep x l) as [rest Hrest];
        assert (Hx : x ++ rest = []) by (rewrite <- Hrest; exact H)
    end.
    apply app_eq_nil in Hx as [Hx _]; discriminate.
Qed.

(** X29: both layouts are empty only for no items; the markdown layout
    holds the content of every item as it is; the XML layout holds the
    content of a code item as it is between the CDATA marks, and the
    escaped content of every other item between content tags. *)
Theorem layouts_hold_items (items : list VectorStore.MemoryItem) :
  (Injector.formatAsXML items = [] <-> items = [])
  /\ (Injector.formatAsMarkdown items = [] <-> items = [])
  /\ forall it,
       In it items ->
       occurs (VectorStore.content it) (Injector.formatAsMarkdown items)
       /\ (VectorStore.type it = VectorStore.code ->
           occurs (lit "<![CDATA[" ++ VectorStore.content it ++ lit "]]>")
             (Injector.formatAsXML items))
       /\ (VectorStore.type it <> VectorStore.code ->
           occurs (lit "<content>" ++ Injector.escapeXML (VectorStore.content it)
                     ++ lit "</content>")
             (Injector.formatAsXML items)).
Proof.
  destruct (layouts_empty items) as [Hxml0 Hmarkdown0].
  split; [exact Hxml0 | split; [exact Hmarkdown0 |]]; clear Hxml0 Hmarkdown0.
  - intros it Hin.
    assert (Hxml : forall line,
               In line (Injector.xmlItemLines it) ->
               occurs line (Injector.formatAsXML items)).
    { intros line Hline; unfold Injector.formatAsXML.
      destruct items as [| x items]; [destruct Hin |].
      apply occurs_join; cbn [app]; right; apply in_or_app; left.
      apply in_flat_map; eauto. }
    split; [| split].
    + unfold Injector.formatAsMarkdown.
      destruct (groupByType_grouped items it Hin) as (g & Hg & Hit).
      destruct items as [| x items]; [destruct Hin |].
      apply occurs_join; right.
      apply in_flat_map; exists g; split; [exact Hg |].
      unfold Injector.markdownGroupLines; right.
      apply in_flat_map; exists it; split; [exact Hit |].
      unfold Injector.markdownItemLines.
      destruct (fst g); cbn; auto.
    + intros Hcode.
      eapply occurs_trans; [| apply Hxml].
      2:{ unfold Injector.xmlItemLines; rewrite Hcode.
          right; left; reflexivity. }
      exists (lit "    <content>"), (lit "</content>").
      change (lit "    <content><![CDATA[") with (lit "    <content>" ++ lit "<![CDATA[").
      change (lit "]]></content>") with (lit "]]>" ++ lit "</content>").
      now rewrite <- !app_assoc.
    + intros Hother.
      eapply occurs_trans; [| apply Hxml].
      2:{ unfold Injector.xmlItemLines.
          destruct (VectorStore.type it); try congruence; right; left; reflexivity. }
      exists (lit "    "), [].
      rewrite app_nil_r.
      change (lit "    <content>") with (lit "    " ++ lit "<content>").
      now rewrite <- !app_assoc.
Qed.

Lemma buildInjection_unfold (w : VectorStore.World) (query : str)
    (o : Injector.InjectionOptions) (s : VectorStore.Store) :
  let found := fst (Contexts.buildContext w query (Injector.contextOptions o) s) in
  fst (Injector.buildInjection w query o s)
  = {| Injector.injContent := Injector.render (Injector.format o) (Contexts.ctxItems found);
       Injector.tokens := Contexts.ctxTotalTokens found;
       Injector.itemCount := len (Contexts.ctxItems found);
       Injector.injBreakdown := Contexts.breakdown found |}.
Proof.
  cbv zeta; unfold Injector.buildInjection, VectorStore.bind.
  now destruct (Contexts.buildContext w query (Injector.contextOptions o) s).
Qed.

(** X30: the injection that [buildInjection] returns counts its items,
    at most 20; its content is empty exactly when there is no item; the
    counts of its breakdown add up to the number of items; under a
    ceiling that is not negative, 2000 when none is given, its tokens
    stay within the ceiling; and for every agent but claude
    [buildInjectionForAgent] lays the items out as markdown. *)
Theorem buildInjection_counts (w : VectorStore.World) (query : str)
    (o : Injector.InjectionOptions) (s : VectorStore.Store) :
  let built := fst (Injector.buildInjection w query o s) in
  let ceiling := match Injector.maxTokens o with Some v => v | None => 2000 end in
  0 <= Injector.itemCount built <= 20
  /\ (Injector.itemCount built = 0 <-> Injector.injContent built = [])
  /\ Injector.injBreakdown built VectorStore.conversation
     + Injector.injBreakdown built VectorStore.code
     + Injector.injBreakdown built VectorStore.decision
     + Injector.injBreakdown built VectorStore.pattern
     + Injector.injBreakdown built VectorStore.context
     = Injector.itemCount built
  /\ (0 <= ceiling -> Injector.tokens built <= ceiling)
  /\ (forall agentName,
        agentName <> "claude"%string ->
        Injector.injContent (fst (Injector.buildInjectionForAgent w query agentName o s))
        = Injector.formatAsMarkdown
            (Contexts.ctxItems
               (fst (Contexts.buildContext w query (Injector.contextOptions o) s)))).
Proof.
  cbv zeta.
  assert (Hagent : forall agentName,
             agentName <> "claude"%string ->
             Injector.injContent
               (fst (Injector.buildInjectionForAgent w query agentName o s))
             = Injector.formatAsMarkdown
                 (Contexts.ctxItems
                    (fst (Contexts.buildContext w query (Injector.contextOptions o) s)))).
  { intros agentName Hagent.
    unfold Injector.buildInjectionForAgent; rewrite buildInjection_unfold; cbv zeta.
    cbn [Injector.injContent Injector.format].
    unfold Injector.getFormatForAgent.
    destruct (String.eqb_spec agentName "claude"); [congruence | reflexivity]. }
  rewrite buildInjection_unfold; cbv zeta.
  cbn [Injector.itemCount Injector.injContent Injector.injBreakdown Injector.tokens].
  revert Hagent.
  destruct (buildContext_unfold w query (Injector.contextOptions o) s) as (-> & -> & ->).
  intros Hagent.
  destruct (retrieve_bounds w query
              (Contexts.contextRetrieval (Injector.contextOptions o)) s)
    as [Hlimit Hceiling].
  set (items := Retriever.items _) in *.
  split; [split; [apply len_nonneg | apply Hlimit; discriminate] |].
  split.
  { destruct (layouts_empty items) as [Hxml Hmarkdown].
    unfold Injector.render.
    assert (Hnone : len items = 0 <-> items = []).
    { destruct items; unfold len; simpl; split; intros; try lia; try congruence. }
    destruct (Injector.format o) as [[|] |]; rewrite Hnone; tauto. }
  split; [rewrite !countTypes_spec; cbn [Z.add]; apply kinds_partition |].
  split; [exact Hceiling | exact Hagent].
Qed.
